(** * tess_stars2px_mod: focal plane geometry, pointing table and archive polling

    A shallow embedding of [src/stellar/tess_stars2px_mod.py].

    - numpy's [float64] is idealised: a finite value carries an exact real
      number (rounding is outside the model), while the IEEE special values
      [inf], [-inf] and [nan] and the way numpy propagates them are kept.
      Signed zeros are not distinguished (zero is read as [+0]).  What is
      proved of trigonometric identities over this type is a statement
      about exact arithmetic.
    - Where rounding decides what the code does, as in
      [get_radec_from_posangsep], the function is given a second time over
      IEEE 754 binary64 (module [binary64]), with the processor's
      arithmetic and numpy's elementary functions as parameters.
    - numpy arrays are lists; reading or writing past the end raises
      [IndexError].  Indices are naturals: every index in the module comes
      from a [range] or is a literal, so Python's negative indexing is never
      exercised.
    - Python exceptions are the [Raise] results of an error monad; methods
      that print, or that touch the class attribute [parm_dict_list], run in
      a state-and-error monad over a [World]. *)

From Stdlib Require Import PrimFloat.
From Stdlib Require FloatAxioms.
From Stdlib Require Import Reals Lra Lia ZArith.
From stdpp Require Import base option list gmap strings pretty.

#[global] Instance Rlt_decision (x y : R) : Decision (x < y)%R := Rlt_dec x y.
#[global] Instance Rle_decision (x y : R) : Decision (x <= y)%R := Rle_dec x y.
#[global] Instance R_eq_decision : EqDecision R := Req_dec_T.

(** ** Exceptions *)

Inductive exn : Type :=
| IndexError
| KeyError (key : string)
| ValueError
| TypeError.

Inductive result (A : Type) : Type :=
| Ok (a : A)
| Raise (e : exn).
Arguments Ok {A} a.
Arguments Raise {A} e.

#[global] Instance result_ret : MRet result := λ A a, Ok a.
#[global] Instance result_bind : MBind result := λ A B f m,
  match m with
  | Ok a => f a
  | Raise e => Raise e
  end.
#[global] Instance result_fmap : FMap result := λ A B f m,
  match m with
  | Ok a => Ok (f a)
  | Raise e => Raise e
  end.

(** ** numpy scalars and arrays *)

Module np.

Inductive float64 : Type :=
| Fin (r : R)
| PInf
| NInf
| NaN.

Definition of_int (z : Z) : float64 := Fin (IZR z).

Definition neg (a : float64) : float64 :=
  match a with
  | Fin x => Fin (- x)
  | PInf => NInf
  | NInf => PInf
  | NaN => NaN
  end.

Definition add (a b : float64) : float64 :=
  match a, b with
  | NaN, _ | _, NaN => NaN
  | Fin x, Fin y => Fin (x + y)
  | PInf, NInf | NInf, PInf => NaN
  | PInf, _ | _, PInf => PInf
  | NInf, _ | _, NInf => NInf
  end.

Definition sub (a b : float64) : float64 := add a (neg b).

(** An infinity times a finite [x]: [nan] at zero, else the sign rule. *)
Definition scale_inf (i : float64) (x : R) : float64 :=
  if bool_decide (x = 0)%R then NaN
  else if bool_decide (0 < x)%R then i else neg i.

Definition mul (a b : float64) : float64 :=
  match a, b with
  | NaN, _ | _, NaN => NaN
  | Fin x, Fin y => Fin (x * y)
  | Fin x, i => scale_inf i x
  | i, Fin x => scale_inf i x
  | PInf, PInf | NInf, NInf => PInf
  | PInf, NInf | NInf, PInf => NInf
  end.

(** Division of numpy scalars never raises: a zero divisor gives an
    infinity, or [nan] for [0/0], with a RuntimeWarning only. *)
Definition div (a b : float64) : float64 :=
  match a, b with
  | NaN, _ | _, NaN => NaN
  | Fin x, Fin y =>
      if bool_decide (y = 0)%R then
        if bool_decide (x = 0)%R then NaN
        else if bool_decide (0 < x)%R then PInf else NInf
      else Fin (x / y)
  | Fin _, _ => Fin 0
  | i, Fin y => if bool_decide (y < 0)%R then neg i else i
  | _, _ => NaN
  end.

Definition lt (a b : float64) : bool :=
  match a, b with
  | Fin x, Fin y => bool_decide (x < y)%R
  | NInf, Fin _ | NInf, PInf | Fin _, PInf => true
  | _, _ => false
  end.

Definition le (a b : float64) : bool :=
  match a, b with
  | Fin x, Fin y => bool_decide (x <= y)%R
  | NInf, Fin _ | NInf, PInf | Fin _, PInf | NInf, NInf | PInf, PInf => true
  | _, _ => false
  end.

Definition gt (a b : float64) : bool := lt b a.
Definition ge (a b : float64) : bool := le b a.

Definition eqb (a b : float64) : bool :=
  match a, b with
  | Fin x, Fin y => bool_decide (x = y)
  | PInf, PInf | NInf, NInf => true
  | _, _ => false
  end.

Definition sin (a : float64) : float64 :=
  match a with Fin x => Fin (Rtrigo_def.sin x) | _ => NaN end.

Definition cos (a : float64) : float64 :=
  match a with Fin x => Fin (Rtrigo_def.cos x) | _ => NaN end.

(** [np.tan] as the quotient of sine and cosine: an infinity where the
    cosine vanishes in exact arithmetic. *)
Definition tan (a : float64) : float64 := div (sin a) (cos a).

Definition abs (a : float64) : float64 :=
  match a with
  | Fin x => Fin (Rabs x)
  | PInf | NInf => PInf
  | NaN => NaN
  end.

Definition sqrt (a : float64) : float64 :=
  match a with
  | Fin x => if bool_decide (0 <= x)%R then Fin (R_sqrt.sqrt x) else NaN
  | PInf => PInf
  | _ => NaN
  end.

Definition arcsin (a : float64) : float64 :=
  match a with
  | Fin x => if bool_decide (-1 <= x <= 1)%R then Fin (asin x) else NaN
  | _ => NaN
  end.

Definition arccos (a : float64) : float64 :=
  match a with
  | Fin x => if bool_decide (-1 <= x <= 1)%R then Fin (acos x) else NaN
  | _ => NaN
  end.

Definition arctan (a : float64) : float64 :=
  match a with
  | Fin x => Fin (atan x)
  | PInf => Fin (PI / 2)
  | NInf => Fin (- (PI / 2))
  | NaN => NaN
  end.

(** [np.arctan2(y, x)], the angle of the point [(x, y)] in (-pi, pi]. *)
Definition arctan2 (y x : float64) : float64 :=
  match y, x with
  | NaN, _ | _, NaN => NaN
  | Fin b, Fin a =>
      if bool_decide (0 < a)%R then Fin (atan (b / a))
      else if bool_decide (a < 0)%R then
        if bool_decide (0 <= b)%R then Fin (atan (b / a) + PI)
        else Fin (atan (b / a) - PI)
      else if bool_decide (0 < b)%R then Fin (PI / 2)
      else if bool_decide (b < 0)%R then Fin (- (PI / 2))
      else Fin 0
  | Fin b, PInf => Fin 0
  | Fin b, NInf => if bool_decide (0 <= b)%R then Fin PI else Fin (- PI)
  | PInf, Fin _ => Fin (PI / 2)
  | NInf, Fin _ => Fin (- (PI / 2))
  | PInf, PInf => Fin (PI / 4)
  | PInf, NInf => Fin (3 * PI / 4)
  | NInf, PInf => Fin (- (PI / 4))
  | NInf, NInf => Fin (- (3 * PI / 4))
  end.

(** [np.mod(a, m)] for a finite, non-zero modulus [m] (the module only ever
    passes [360.0] and [2*pi]): the remainder carries the sign of [m]. *)
Definition mod_ (a : float64) (m : R) : float64 :=
  match a with
  | Fin x => Fin (x - m * IZR (Zfloor (x / m)))
  | _ => NaN
  end.

(** [np.min([a, b])]: the smaller entry, [nan] as soon as one entry is. *)
Definition min2 (a b : float64) : float64 :=
  match a, b with
  | NaN, _ | _, NaN => NaN
  | _, _ => if lt b a then b else a
  end.

(** [np.power(a, e)] for the exponents the module uses, the even floats
    [2.0*(ii-1)] given here by their integer value [n]. *)
Definition power (a : float64) (n : nat) : float64 :=
  match n with
  | O => Fin 1
  | _ =>
      match a with
      | Fin x => Fin (x ^ n)
      | PInf => PInf
      | NInf => if Nat.even n then PInf else NInf
      | NaN => NaN
      end
  end.

(** [np.sum] of a one-dimensional array. *)
Definition sum (v : list float64) : float64 := foldl add (Fin 0) v.

(** Elementwise product and quotient of equally long arrays, and an array
    scaled by a scalar. *)
Definition mul_arr (u v : list float64) : list float64 := zip_with mul u v.
Definition scale (c : float64) (v : list float64) : list float64 := mul c <$> v.
Definition div_scalar (v : list float64) (c : float64) : list float64 :=
  (λ x, div x c) <$> v.

Definition zeros (n : nat) : list float64 := replicate n (Fin 0).
Definition zeros2 (n m : nat) : list (list float64) := replicate n (zeros m).
Definition zeros3 (n m k : nat) : list (list (list float64)) :=
  replicate n (zeros2 m k).
Definition zeros_like (v : list float64) : list float64 := zeros (length v).

(** [a[i]] and [a[i] = x]. *)
Definition getitem {A : Type} (a : list A) (i : nat) : result A :=
  match a !! i with
  | Some x => Ok x
  | None => Raise IndexError
  end.

Definition setitem {A : Type} (a : list A) (i : nat) (x : A) : result (list A) :=
  if decide (i < length a) then Ok (<[i := x]> a) else Raise IndexError.

(** [a[i][j]] and [a[i][j] = x]; the row [a[i]] is a view, so the
    assignment lands in [a]. *)
Definition getitem2 {A : Type} (a : list (list A)) (i j : nat) : result A :=
  row ← getitem a i; getitem row j.

Definition setitem2 {A : Type} (a : list (list A)) (i j : nat) (x : A)
  : result (list (list A)) :=
  row ← getitem a i; row' ← setitem row j x; setitem a i row'.

Definition getitem3 {A : Type} (a : list (list (list A))) (i j k : nat)
  : result A :=
  plane ← getitem a i; getitem2 plane j k.

Definition setitem3 {A : Type} (a : list (list (list A))) (i j k : nat) (x : A)
  : result (list (list (list A))) :=
  plane ← getitem a i; plane' ← setitem2 plane j k x; setitem a i plane'.

(** [np.matmul] of a matrix with a vector and with a matrix (rows of equal
    length are all the module builds). *)
Definition dot (u v : list float64) : float64 := sum (mul_arr u v).

Definition matvec (m : list (list float64)) (v : list float64) : list float64 :=
  (λ row, dot row v) <$> m.

Definition column (m : list (list float64)) (j : nat) : list float64 :=
  (λ row, default (Fin 0) (row !! j)) <$> m.

Definition matmul (a b : list (list float64)) : list (list float64) :=
  (λ row, (λ j, dot row (column b j)) <$> seq 0 (length (default [] (head b))))
    <$> a.

Definition pi : float64 := Fin PI.

End np.

Declare Scope float64_scope.
Delimit Scope float64_scope with f.
Bind Scope float64_scope with np.float64.
Infix "+" := np.add : float64_scope.
Infix "-" := np.sub : float64_scope.
Infix "*" := np.mul : float64_scope.
Infix "/" := np.div : float64_scope.
Notation "- x" := (np.neg x) : float64_scope.
Coercion np.Fin : R >-> np.float64.

Local Open Scope R_scope.

(** [deg2rad = np.pi / 180.0], which the methods define locally. *)
Definition deg2rad : np.float64 := (np.pi / 180)%f.

(** ** The focal plane geometry object *)

Definition NCAM : nat := 4.
Definition NCCD : nat := 4.

(** The instance attributes [__init__] creates, with their numpy shapes. *)
Record Levine_FPG : Type := {
  eulcam : list (list np.float64);          (* (NCAM, 3) *)
  optcon : list (list np.float64);          (* (NCAM, 6) *)
  ccdxy0 : list (list (list np.float64));   (* (NCAM, NCCD, 2) *)
  pixsz : list (list (list np.float64));    (* (NCAM, NCCD, 2) *)
  ccdang : list (list np.float64);          (* (NCAM, NCCD) *)
  ccdtilt : list (list (list np.float64));  (* (NCAM, NCCD, 2) *)
  asymang : list np.float64;                (* (NCAM,) *)
  asymfac : list np.float64;                (* (NCAM,) *)
  rmat1 : list (list np.float64);           (* (3, 3) *)
  rmat4 : list (list (list np.float64));    (* (NCAM, 3, 3) *)
  havePointing : bool
}.

Section Geometry.

Variable self : Levine_FPG.

Definition rotm1 (ax : nat) (ang : np.float64) : result (list (list np.float64)) :=
  let mat := np.zeros2 3 3 in
  let n1 := ax in
  let n2 := ((n1 + 1) mod 3)%nat in
  let n3 := ((n2 + 1) mod 3)%nat in
  let sinang := np.sin ang in
  let cosang := np.cos ang in
  mat ← np.setitem2 mat n1 n1 (np.Fin 1);
  mat ← np.setitem2 mat n2 n2 cosang;
  mat ← np.setitem2 mat n3 n3 cosang;
  mat ← np.setitem2 mat n2 n3 sinang;
  mat ← np.setitem2 mat n3 n2 (- sinang)%f;
  mret mat.

Definition eulerm323 (eul : list np.float64) : result (list (list np.float64)) :=
  e0 ← np.getitem eul 0;
  mat1 ← rotm1 2 e0;
  e1 ← np.getitem eul 1;
  mat2 ← rotm1 1 e1;
  let mata := np.matmul mat2 mat1 in
  e2 ← np.getitem eul 2;
  mat1 ← rotm1 2 e2;
  let rmat := np.matmul mat1 mata in
  mret rmat.

(** [sky_to_sc_mat] returns the matrix it stores in [self.rmat1]. *)
Definition sky_to_sc_mat (sc_ra_dec_roll : list np.float64)
  : result (list (list np.float64)) :=
  let xeul := np.zeros 3 in
  ra ← np.getitem sc_ra_dec_roll 0;
  xeul ← np.setitem xeul 0 (deg2rad * ra)%f;
  dec ← np.getitem sc_ra_dec_roll 1;
  xeul ← np.setitem xeul 1 (np.pi / 2 - deg2rad * dec)%f;
  roll ← np.getitem sc_ra_dec_roll 2;
  xeul ← np.setitem xeul 2 (deg2rad * roll + np.pi)%f;
  eulerm323 xeul.

Definition sc_to_cam_mat (eul : list np.float64) : result (list (list np.float64)) :=
  let xeul := np.scale deg2rad eul in
  eulerm323 xeul.

(** [sphereToCart] on scalars (as [star_in_fov] calls it). *)
Definition sphereToCart (ras decs : np.float64)
  : np.float64 * np.float64 * np.float64 :=
  let rarads := (deg2rad * ras)%f in
  let decrads := (deg2rad * decs)%f in
  let sinras := np.sin rarads in
  let cosras := np.cos rarads in
  let sindecs := np.sin decrads in
  let cosdecs := np.cos decrads in
  let vec0s := (cosras * cosdecs)%f in
  let vec1s := (sinras * cosdecs)%f in
  let vec2s := sindecs in
  (vec0s, vec1s, vec2s).

(** numpy broadcasting of a binary operation over two one-dimensional
    arrays: equal lengths, or one of them of length one. *)
Definition broadcast2 (op : np.float64 → np.float64 → np.float64)
    (u v : list np.float64) : result (list np.float64) :=
  if decide (length u = length v) then Ok (zip_with op u v)
  else match u, v with
       | [a], _ => Ok (op a <$> v)
       | _, [b] => Ok ((λ x, op x b) <$> u)
       | _, _ => Raise ValueError
       end.

(** [sphereToCart] on arrays (as [radec2pix] calls it). *)
Definition sphereToCart_arr (ras decs : list np.float64)
  : result (list np.float64 * list np.float64 * list np.float64) :=
  let rarads := np.scale deg2rad ras in
  let decrads := np.scale deg2rad decs in
  let sinras := np.sin <$> rarads in
  let cosras := np.cos <$> rarads in
  let sindecs := np.sin <$> decrads in
  let cosdecs := np.cos <$> decrads in
  vec0s ← broadcast2 np.mul cosras cosdecs;
  vec1s ← broadcast2 np.mul sinras cosdecs;
  let vec2s := sindecs in
  mret (vec0s, vec1s, vec2s).

Definition cartToSphere (vec : list np.float64) : result (np.float64 * np.float64) :=
  let ra := np.Fin 0 in
  let dec := np.Fin 0 in
  let norm := np.sqrt (np.sum (np.mul_arr vec vec)) in
  if np.gt norm 0 then
    v2 ← np.getitem vec 2;
    let dec := np.arcsin (v2 / norm)%f in
    (* (not vec[0] == 0.0) or (not vec[1] == 0.0), left to right *)
    v0 ← np.getitem vec 0;
    nonzero ← (if negb (np.eqb v0 0) then mret true
               else v1 ← np.getitem vec 1; mret (negb (np.eqb v1 0)));
    if nonzero : bool then
      v1 ← np.getitem vec 1;
      v0 ← np.getitem vec 0;
      let ra := np.arctan2 v1 v0 in
      let ra := np.mod_ ra (2 * PI) in
      mret (ra, dec)
    else mret (ra, dec)
  else mret (ra, dec).

Definition star_in_fov (lng lat : np.float64) : bool :=
  let inView := false in
  if np.gt lat 70 then
    let '(vec0, vec1, vec2) := sphereToCart lng lat in
    let vec := [vec0; vec1; vec2] in
    let norm := np.sqrt (np.sum (np.mul_arr vec vec)) in
    if np.gt norm 0 then
      match np.div_scalar vec norm with
      | [w0; w1; w2] =>
          let xlen := np.abs (np.arctan (w0 / w2)%f) in
          let ylen := np.abs (np.arctan (w1 / w2)%f) in
          if np.le xlen (12.5 * deg2rad)%f && np.le ylen (12.5 * deg2rad)%f
          then true else inView
      | _ => inView
      end
    else inView
  else inView.

Definition xyrotate (angle_deg : np.float64) (xin : list np.float64)
  : result (list np.float64) :=
  let ca := np.cos (deg2rad * angle_deg)%f in
  let sa := np.sin (deg2rad * angle_deg)%f in
  let xyout := np.zeros_like xin in
  x0 ← np.getitem xin 0;
  x1 ← np.getitem xin 1;
  xyout ← np.setitem xyout 0 (ca * x0 + sa * x1)%f;
  x0 ← np.getitem xin 0;
  x1 ← np.getitem xin 1;
  xyout ← np.setitem xyout 1 (- sa * x0 + ca * x1)%f;
  mret xyout.

Definition make_az_asym (icam : nat) (xy : list np.float64) : result (list np.float64) :=
  ang ← np.getitem (asymang self) icam;
  xyp ← xyrotate ang xy;
  let xypa := np.zeros_like xyp in
  fac ← np.getitem (asymfac self) icam;
  p0 ← np.getitem xyp 0;
  xypa ← np.setitem xypa 0 (fac * p0)%f;
  p1 ← np.getitem xyp 1;
  xypa ← np.setitem xypa 1 p1;
  ang ← np.getitem (asymang self) icam;
  xyout ← xyrotate (- ang)%f xypa;
  mret xyout.

Definition optics_fp (icam : nat) (lng_deg lat_deg : np.float64)
  : result (list np.float64) :=
  let thetar := (np.pi / 2 - lat_deg * deg2rad)%f in
  let tanth := np.tan thetar in
  let cphi := np.cos (deg2rad * lng_deg)%f in
  let sphi := np.sin (deg2rad * lng_deg)%f in
  row ← np.getitem (optcon self) icam;
  c0 ← np.getitem row 0;
  let rfp0 := (c0 * tanth)%f in
  let noptcon := length row in
  let ii := seq 1 (noptcon - 1) in
  let rfp :=
    np.sum (np.mul_arr (drop 1 row)
              ((λ i, np.power tanth (2 * (i - 1))) <$> ii)) in
  let xytmp := np.zeros 2 in
  xytmp ← np.setitem xytmp 0 (- cphi * rfp0 * rfp)%f;
  xytmp ← np.setitem xytmp 1 (- sphi * rfp0 * rfp)%f;
  make_az_asym icam xytmp.

(** The five statements each branch of [mm_to_pix] starts with: translate
    by the CCD origin, rotate by the CCD angle, scale by the pixel size. *)
Definition mm_to_ccdpx (icam iccd : nat) (xya xyb ccdpx : list np.float64)
  : result (list np.float64 * list np.float64) :=
  a0 ← np.getitem xya 0;
  o0 ← np.getitem3 (ccdxy0 self) icam iccd 0;
  xyb ← np.setitem xyb 0 (a0 - o0)%f;
  a1 ← np.getitem xya 1;
  o1 ← np.getitem3 (ccdxy0 self) icam iccd 1;
  xyb ← np.setitem xyb 1 (a1 - o1)%f;
  ang ← np.getitem2 (ccdang self) icam iccd;
  xyccd ← xyrotate ang xyb;
  c0 ← np.getitem xyccd 0;
  p0 ← np.getitem3 (pixsz self) icam iccd 0;
  ccdpx ← np.setitem ccdpx 0 (c0 / p0 - 0.5)%f;
  c1 ← np.getitem xyccd 1;
  p1 ← np.getitem3 (pixsz self) icam iccd 1;
  ccdpx ← np.setitem ccdpx 1 (c1 / p1 - 0.5)%f;
  mret (xyb, ccdpx).

Definition CCDWD_T : Z := 2048.
Definition CCDHT_T : Z := 2058.
Definition ROWA : Z := 44.
Definition ROWB : Z := 44.
Definition COLDK_T : Z := 20.

Definition mm_to_pix (icam : nat) (xy : list np.float64)
  : result (nat * list np.float64 * list np.float64) :=
  let xya := xy in
  let xyb := np.zeros_like xya in
  let ccdpx := np.zeros_like xya in
  let fitpx := np.zeros_like xya in
  a0 ← np.getitem xya 0;
  if np.ge a0 0 then
    a1 ← np.getitem xya 1;
    if np.ge a1 0 then
      let iccd := 0%nat in
      '(xyb, ccdpx) ← mm_to_ccdpx icam iccd xya xyb ccdpx;
      c0 ← np.getitem ccdpx 0;
      fitpx ← np.setitem fitpx 0
        (np.of_int CCDWD_T - c0 + np.of_int CCDWD_T + np.of_int (2 * ROWA)
         + np.of_int ROWB - 1)%f;
      c1 ← np.getitem ccdpx 1;
      fitpx ← np.setitem fitpx 1
        (np.of_int CCDHT_T - c1 + np.of_int CCDHT_T + np.of_int (2 * COLDK_T)
         - 1)%f;
      mret (iccd, ccdpx, fitpx)
    else
      let iccd := 3%nat in
      '(xyb, ccdpx) ← mm_to_ccdpx icam iccd xya xyb ccdpx;
      c0 ← np.getitem ccdpx 0;
      fitpx ← np.setitem fitpx 0
        (c0 + np.of_int CCDWD_T + np.of_int (2 * ROWA) + np.of_int ROWB)%f;
      c1 ← np.getitem ccdpx 1;
      fitpx ← np.setitem fitpx 1 c1;
      mret (iccd, ccdpx, fitpx)
  else
    a1 ← np.getitem xya 1;
    if np.ge a1 0 then
      let iccd := 1%nat in
      '(xyb, ccdpx) ← mm_to_ccdpx icam iccd xya xyb ccdpx;
      c0 ← np.getitem ccdpx 0;
      fitpx ← np.setitem fitpx 0
        (np.of_int CCDWD_T - c0 + np.of_int ROWA - 1)%f;
      c1 ← np.getitem ccdpx 1;
      fitpx ← np.setitem fitpx 1
        (np.of_int CCDHT_T - c1 + np.of_int CCDHT_T + np.of_int (2 * COLDK_T)
         - 1)%f;
      mret (iccd, ccdpx, fitpx)
    else
      let iccd := 2%nat in
      '(xyb, ccdpx) ← mm_to_ccdpx icam iccd xya xyb ccdpx;
      c0 ← np.getitem ccdpx 0;
      fitpx ← np.setitem fitpx 0 (c0 + np.of_int ROWA)%f;
      c1 ← np.getitem ccdpx 1;
      fitpx ← np.setitem fitpx 1 c1;
      mret (iccd, ccdpx, fitpx).

End Geometry.

(** ** The world: class attribute, objects, files and the console *)

(** A calibration file as [np.genfromtxt] returns it: rows of
    (key, fitted flag, value). *)
Definition dataBlock : Type := list (string * Z * np.float64).

Record World : Type := {
  (** [Levine_FPG.parm_dict_list]: one list object that belongs to the
      class, reached through every instance as [self.parm_dict_list]. *)
  parm_dict_list : list (gmap string np.float64);
  (** The [Levine_FPG] objects, addressed in order of creation. *)
  heap : list Levine_FPG;
  (** The files that exist: [Some rows] when [np.genfromtxt] reads the
      file, [None] when opening or reading it raises. *)
  files : gmap string (option dataBlock);
  (** What has been printed, oldest line first. *)
  stdout : list string
}.

(** The state of a process that has just imported the module. *)
Definition at_import (fs : gmap string (option dataBlock)) : World :=
  {| parm_dict_list := [∅; ∅; ∅; ∅]; heap := []; files := fs; stdout := [] |}.

Definition M (A : Type) : Type := World → result A * World.

#[global] Instance M_ret : MRet M := λ A a w, (Ok a, w).
#[global] Instance M_bind : MBind M := λ A B f m w,
  match m w with
  | (Ok a, w') => f a w'
  | (Raise e, w') => (Raise e, w')
  end.

Definition lift {A : Type} (r : result A) : M A := λ w, (r, w).

Definition print (line : string) : M unit := λ w,
  (Ok (),
   {| parm_dict_list := parm_dict_list w; heap := heap w; files := files w;
      stdout := stdout w ++ [line] |}).

(** [try: body except: handler]; what [body] did before raising stays. *)
Definition try_except {A : Type} (body handler : M A) : M A := λ w,
  match body w with
  | (Ok a, w') => (Ok a, w')
  | (Raise _, w') => handler w'
  end.

(** [for x in xs: body x] *)
Fixpoint for_ {A : Type} (xs : list A) (body : A → M unit) : M unit :=
  match xs with
  | [] => mret ()
  | x :: xs' => body x ≫= λ _, for_ xs' body
  end.

Definition range (n : nat) : list nat := seq 0 n.

Definition os_path_isfile (path : string) : M bool := λ w,
  (Ok (bool_decide (is_Some (files w !! path))), w).

Definition genfromtxt (path : string) : M dataBlock := λ w,
  match files w !! path with
  | Some (Some rows) => (Ok rows, w)
  | _ => (Raise ValueError, w)
  end.

(** [len(dataBlock['f0'])].  [np.genfromtxt] squeezes what it returns: a
    file of one row comes back as a 0-d record, and [len] of a 0-d array
    raises [TypeError]. *)
Definition len_column (rows : dataBlock) : result nat :=
  match rows with
  | [_] => Raise TypeError
  | _ => Ok (length rows)
  end.

(** Reading and item assignment of the class attribute. *)
Definition get_parm_dict (icam : nat) : M (gmap string np.float64) := λ w,
  (np.getitem (parm_dict_list w) icam, w).

Definition set_parm_dict (icam : nat) (d : gmap string np.float64) : M unit := λ w,
  match np.setitem (parm_dict_list w) icam d with
  | Ok l => (Ok (),
             {| parm_dict_list := l; heap := heap w; files := files w;
                stdout := stdout w |})
  | Raise e => (Raise e, w)
  end.

(** Object creation, attribute reads and attribute writes. *)
Definition new (o : Levine_FPG) : M nat := λ w,
  (Ok (length (heap w)),
   {| parm_dict_list := parm_dict_list w; heap := heap w ++ [o];
      files := files w; stdout := stdout w |}).

Definition getattr {A : Type} (self : nat) (field : Levine_FPG → A) : M A := λ w,
  (field <$> np.getitem (heap w) self, w).

Definition update (self : nat) (f : Levine_FPG → Levine_FPG) : M unit := λ w,
  match heap w !! self with
  | Some o => (Ok (),
               {| parm_dict_list := parm_dict_list w;
                  heap := <[self := f o]> (heap w);
                  files := files w; stdout := stdout w |})
  | None => (Raise IndexError, w)
  end.

Definition with_eulcam a o := {| eulcam := a; optcon := optcon o; ccdxy0 := ccdxy0 o; pixsz := pixsz o; ccdang := ccdang o; ccdtilt := ccdtilt o; asymang := asymang o; asymfac := asymfac o; rmat1 := rmat1 o; rmat4 := rmat4 o; havePointing := havePointing o |}.
Definition with_optcon a o := {| eulcam := eulcam o; optcon := a; ccdxy0 := ccdxy0 o; pixsz := pixsz o; ccdang := ccdang o; ccdtilt := ccdtilt o; asymang := asymang o; asymfac := asymfac o; rmat1 := rmat1 o; rmat4 := rmat4 o; havePointing := havePointing o |}.
Definition with_ccdxy0 a o := {| eulcam := eulcam o; optcon := optcon o; ccdxy0 := a; pixsz := pixsz o; ccdang := ccdang o; ccdtilt := ccdtilt o; asymang := asymang o; asymfac := asymfac o; rmat1 := rmat1 o; rmat4 := rmat4 o; havePointing := havePointing o |}.
Definition with_pixsz a o := {| eulcam := eulcam o; optcon := optcon o; ccdxy0 := ccdxy0 o; pixsz := a; ccdang := ccdang o; ccdtilt := ccdtilt o; asymang := asymang o; asymfac := asymfac o; rmat1 := rmat1 o; rmat4 := rmat4 o; havePointing := havePointing o |}.
Definition with_ccdang a o := {| eulcam := eulcam o; optcon := optcon o; ccdxy0 := ccdxy0 o; pixsz := pixsz o; ccdang := a; ccdtilt := ccdtilt o; asymang := asymang o; asymfac := asymfac o; rmat1 := rmat1 o; rmat4 := rmat4 o; havePointing := havePointing o |}.
Definition with_ccdtilt a o := {| eulcam := eulcam o; optcon := optcon o; ccdxy0 := ccdxy0 o; pixsz := pixsz o; ccdang := ccdang o; ccdtilt := a; asymang := asymang o; asymfac := asymfac o; rmat1 := rmat1 o; rmat4 := rmat4 o; havePointing := havePointing o |}.
Definition with_asymang a o := {| eulcam := eulcam o; optcon := optcon o; ccdxy0 := ccdxy0 o; pixsz := pixsz o; ccdang := ccdang o; ccdtilt := ccdtilt o; asymang := a; asymfac := asymfac o; rmat1 := rmat1 o; rmat4 := rmat4 o; havePointing := havePointing o |}.
Definition with_asymfac a o := {| eulcam := eulcam o; optcon := optcon o; ccdxy0 := ccdxy0 o; pixsz := pixsz o; ccdang := ccdang o; ccdtilt := ccdtilt o; asymang := asymang o; asymfac := a; rmat1 := rmat1 o; rmat4 := rmat4 o; havePointing := havePointing o |}.
Definition with_rmat1 a o := {| eulcam := eulcam o; optcon := optcon o; ccdxy0 := ccdxy0 o; pixsz := pixsz o; ccdang := ccdang o; ccdtilt := ccdtilt o; asymang := asymang o; asymfac := asymfac o; rmat1 := a; rmat4 := rmat4 o; havePointing := havePointing o |}.
Definition with_rmat4 a o := {| eulcam := eulcam o; optcon := optcon o; ccdxy0 := ccdxy0 o; pixsz := pixsz o; ccdang := ccdang o; ccdtilt := ccdtilt o; asymang := asymang o; asymfac := asymfac o; rmat1 := rmat1 o; rmat4 := a; havePointing := havePointing o |}.
Definition with_havePointing a o := {| eulcam := eulcam o; optcon := optcon o; ccdxy0 := ccdxy0 o; pixsz := pixsz o; ccdang := ccdang o; ccdtilt := ccdtilt o; asymang := asymang o; asymfac := asymfac o; rmat1 := rmat1 o; rmat4 := rmat4 o; havePointing := a |}.

(** [d[key]] *)
Definition dict_get (d : gmap string np.float64) (key : string) : result np.float64 :=
  match d !! key with
  | Some v => Ok v
  | None => Raise (KeyError key)
  end.

(** [self.<field>[i] = d[key]], [self.<field>[i][j] = d[key]] and
    [self.<field>[i][j][k] = d[key]]: the right-hand side is evaluated
    first. *)
Definition store1 (field : Levine_FPG → list np.float64)
    (set : list np.float64 → Levine_FPG → Levine_FPG)
    (self i : nat) (d : gmap string np.float64) (key : string) : M unit :=
  v ← lift (dict_get d key);
  a ← getattr self field;
  a ← lift (np.setitem a i v);
  update self (set a).

Definition store2 (field : Levine_FPG → list (list np.float64))
    (set : list (list np.float64) → Levine_FPG → Levine_FPG)
    (self i j : nat) (d : gmap string np.float64) (key : string) : M unit :=
  v ← lift (dict_get d key);
  a ← getattr self field;
  a ← lift (np.setitem2 a i j v);
  update self (set a).

Definition store3 (field : Levine_FPG → list (list (list np.float64)))
    (set : list (list (list np.float64)) → Levine_FPG → Levine_FPG)
    (self i j k : nat) (d : gmap string np.float64) (key : string) : M unit :=
  v ← lift (dict_get d key);
  a ← getattr self field;
  a ← lift (np.setitem3 a i j k v);
  update self (set a).

(** ['<prefix>{0:1d}_cam1'.format(n)] *)
Definition ccd_key (prefix : string) (n : nat) : string :=
  prefix +:+ pretty n +:+ "_cam1".

(** The hard-coded focal plane geometry, from rfpg5_c1kb.txt. *)
Definition hard_coded_0 : list (string * np.float64) := [
  ("ang1_cam1", np.Fin 0.101588);
  ("ang2_cam1", np.Fin (-36.022035));
  ("ang3_cam1", np.Fin 90.048315);
  ("fl_cam1", np.Fin 145.948116);
  ("opt_coef1_cam1", np.Fin 1.00000140);
  ("opt_coef2_cam1", np.Fin 0.24779006);
  ("opt_coef3_cam1", np.Fin (-0.22681254));
  ("opt_coef4_cam1", np.Fin 10.78243356);
  ("opt_coef5_cam1", np.Fin (-34.97817276));
  ("asymang_cam1", np.Fin 0.00000000);
  ("asymfac_cam1", np.Fin 1.00000000);
  ("x0_ccd1_cam1", np.Fin 31.573417);
  ("y0_ccd1_cam1", np.Fin 31.551637);
  ("pix_x_ccd1_cam1", np.Fin 0.015000);
  ("pix_y_ccd1_cam1", np.Fin 0.015000);
  ("ang_ccd1_cam1", np.Fin 179.980833);
  ("tilt_x_ccd1_cam1", np.Fin 0.000000);
  ("tilt_y_ccd1_cam1", np.Fin 0.000000);
  ("x0_ccd2_cam1", np.Fin (-0.906060));
  ("y0_ccd2_cam1", np.Fin 31.536148);
  ("pix_x_ccd2_cam1", np.Fin 0.015000);
  ("pix_y_ccd2_cam1", np.Fin 0.015000);
  ("ang_ccd2_cam1", np.Fin 180.000000);
  ("tilt_x_ccd2_cam1", np.Fin 0.000000);
  ("tilt_y_ccd2_cam1", np.Fin 0.000000);
  ("x0_ccd3_cam1", np.Fin (-31.652818));
  ("y0_ccd3_cam1", np.Fin (-31.438350));
  ("pix_x_ccd3_cam1", np.Fin 0.015000);
  ("pix_y_ccd3_cam1", np.Fin 0.015000);
  ("ang_ccd3_cam1", np.Fin (-0.024851));
  ("tilt_x_ccd3_cam1", np.Fin 0.000000);
  ("tilt_y_ccd3_cam1", np.Fin 0.000000);
  ("x0_ccd4_cam1", np.Fin 0.833161);
  ("y0_ccd4_cam1", np.Fin (-31.458180));
  ("pix_x_ccd4_cam1", np.Fin 0.015000);
  ("pix_y_ccd4_cam1", np.Fin 0.015000);
  ("ang_ccd4_cam1", np.Fin 0.001488);
  ("tilt_x_ccd4_cam1", np.Fin 0.000000);
  ("tilt_y_ccd4_cam1", np.Fin 0.000000)
].

Definition hard_coded_1 : list (string * np.float64) := [
  ("ang1_cam1", np.Fin (-0.179412));
  ("ang2_cam1", np.Fin (-12.017260));
  ("ang3_cam1", np.Fin 90.046500);
  ("fl_cam1", np.Fin 145.989933);
  ("opt_coef1_cam1", np.Fin 1.00000140);
  ("opt_coef2_cam1", np.Fin 0.24069345);
  ("opt_coef3_cam1", np.Fin 0.15391120);
  ("opt_coef4_cam1", np.Fin 4.05433503);
  ("opt_coef5_cam1", np.Fin 3.43136895);
  ("asymang_cam1", np.Fin 0.00000000);
  ("asymfac_cam1", np.Fin 1.00000000);
  ("x0_ccd1_cam1", np.Fin 31.653635);
  ("y0_ccd1_cam1", np.Fin 31.470291);
  ("pix_x_ccd1_cam1", np.Fin 0.015000);
  ("pix_y_ccd1_cam1", np.Fin 0.015000);
  ("ang_ccd1_cam1", np.Fin 180.010890);
  ("tilt_x_ccd1_cam1", np.Fin 0.000000);
  ("tilt_y_ccd1_cam1", np.Fin 0.000000);
  ("x0_ccd2_cam1", np.Fin (-0.827405));
  ("y0_ccd2_cam1", np.Fin 31.491388);
  ("pix_x_ccd2_cam1", np.Fin 0.015000);
  ("pix_y_ccd2_cam1", np.Fin 0.015000);
  ("ang_ccd2_cam1", np.Fin 180.000000);
  ("tilt_x_ccd2_cam1", np.Fin 0.000000);
  ("tilt_y_ccd2_cam1", np.Fin 0.000000);
  ("x0_ccd3_cam1", np.Fin (-31.543794));
  ("y0_ccd3_cam1", np.Fin (-31.550699));
  ("pix_x_ccd3_cam1", np.Fin 0.015000);
  ("pix_y_ccd3_cam1", np.Fin 0.015000);
  ("ang_ccd3_cam1", np.Fin (-0.006624));
  ("tilt_x_ccd3_cam1", np.Fin 0.000000);
  ("tilt_y_ccd3_cam1", np.Fin 0.000000);
  ("x0_ccd4_cam1", np.Fin 0.922834);
  ("y0_ccd4_cam1", np.Fin (-31.557268));
  ("pix_x_ccd4_cam1", np.Fin 0.015000);
  ("pix_y_ccd4_cam1", np.Fin 0.015000);
  ("ang_ccd4_cam1", np.Fin (-0.015464));
  ("tilt_x_ccd4_cam1", np.Fin 0.000000);
  ("tilt_y_ccd4_cam1", np.Fin 0.000000)
].

Definition hard_coded_2 : list (string * np.float64) := [
  ("ang1_cam1", np.Fin 0.066596);
  ("ang2_cam1", np.Fin 12.007750);
  ("ang3_cam1", np.Fin (-89.889085));
  ("fl_cam1", np.Fin 146.006602);
  ("opt_coef1_cam1", np.Fin 1.00000140);
  ("opt_coef2_cam1", np.Fin 0.23452229);
  ("opt_coef3_cam1", np.Fin 0.33552009);
  ("opt_coef4_cam1", np.Fin 1.92009863);
  ("opt_coef5_cam1", np.Fin 12.48880182);
  ("asymang_cam1", np.Fin 0.00000000);
  ("asymfac_cam1", np.Fin 1.00000000);
  ("x0_ccd1_cam1", np.Fin 31.615486);
  ("y0_ccd1_cam1", np.Fin 31.413644);
  ("pix_x_ccd1_cam1", np.Fin 0.015000);
  ("pix_y_ccd1_cam1", np.Fin 0.015000);
  ("ang_ccd1_cam1", np.Fin 179.993948);
  ("tilt_x_ccd1_cam1", np.Fin 0.000000);
  ("tilt_y_ccd1_cam1", np.Fin 0.000000);
  ("x0_ccd2_cam1", np.Fin (-0.832993));
  ("y0_ccd2_cam1", np.Fin 31.426621);
  ("pix_x_ccd2_cam1", np.Fin 0.015000);
  ("pix_y_ccd2_cam1", np.Fin 0.015000);
  ("ang_ccd2_cam1", np.Fin 180.000000);
  ("tilt_x_ccd2_cam1", np.Fin 0.000000);
  ("tilt_y_ccd2_cam1", np.Fin 0.000000);
  ("x0_ccd3_cam1", np.Fin (-31.548296));
  ("y0_ccd3_cam1", np.Fin (-31.606976));
  ("pix_x_ccd3_cam1", np.Fin 0.015000);
  ("pix_y_ccd3_cam1", np.Fin 0.015000);
  ("ang_ccd3_cam1", np.Fin 0.000298);
  ("tilt_x_ccd3_cam1", np.Fin 0.000000);
  ("tilt_y_ccd3_cam1", np.Fin 0.000000);
  ("x0_ccd4_cam1", np.Fin 0.896018);
  ("y0_ccd4_cam1", np.Fin (-31.569542));
  ("pix_x_ccd4_cam1", np.Fin 0.015000);
  ("pix_y_ccd4_cam1", np.Fin 0.015000);
  ("ang_ccd4_cam1", np.Fin (-0.006464));
  ("tilt_x_ccd4_cam1", np.Fin 0.000000);
  ("tilt_y_ccd4_cam1", np.Fin 0.000000)
].

Definition hard_coded_3 : list (string * np.float64) := [
  ("ang1_cam1", np.Fin 0.030756);
  ("ang2_cam1", np.Fin 35.978116);
  ("ang3_cam1", np.Fin (-89.976802));
  ("fl_cam1", np.Fin 146.039793);
  ("opt_coef1_cam1", np.Fin 1.00000140);
  ("opt_coef2_cam1", np.Fin 0.23920416);
  ("opt_coef3_cam1", np.Fin 0.13349450);
  ("opt_coef4_cam1", np.Fin 4.77768896);
  ("opt_coef5_cam1", np.Fin (-1.75114744));
  ("asymang_cam1", np.Fin 0.00000000);
  ("asymfac_cam1", np.Fin 1.00000000);
  ("x0_ccd1_cam1", np.Fin 31.575820);
  ("y0_ccd1_cam1", np.Fin 31.316510);
  ("pix_x_ccd1_cam1", np.Fin 0.015000);
  ("pix_y_ccd1_cam1", np.Fin 0.015000);
  ("ang_ccd1_cam1", np.Fin 179.968217);
  ("tilt_x_ccd1_cam1", np.Fin 0.000000);
  ("tilt_y_ccd1_cam1", np.Fin 0.000000);
  ("x0_ccd2_cam1", np.Fin (-0.890877));
  ("y0_ccd2_cam1", np.Fin 31.363511);
  ("pix_x_ccd2_cam1", np.Fin 0.015000);
  ("pix_y_ccd2_cam1", np.Fin 0.015000);
  ("ang_ccd2_cam1", np.Fin 180.000000);
  ("tilt_x_ccd2_cam1", np.Fin 0.000000);
  ("tilt_y_ccd2_cam1", np.Fin 0.000000);
  ("x0_ccd3_cam1", np.Fin (-31.630470));
  ("y0_ccd3_cam1", np.Fin (-31.716942));
  ("pix_x_ccd3_cam1", np.Fin 0.015000);
  ("pix_y_ccd3_cam1", np.Fin 0.015000);
  ("ang_ccd3_cam1", np.Fin (-0.024359));
  ("tilt_x_ccd3_cam1", np.Fin 0.000000);
  ("tilt_y_ccd3_cam1", np.Fin 0.000000);
  ("x0_ccd4_cam1", np.Fin 0.824159);
  ("y0_ccd4_cam1", np.Fin (-31.728751));
  ("pix_x_ccd4_cam1", np.Fin 0.015000);
  ("pix_y_ccd4_cam1", np.Fin 0.015000);
  ("ang_ccd4_cam1", np.Fin (-0.024280));
  ("tilt_x_ccd4_cam1", np.Fin 0.000000);
  ("tilt_y_ccd4_cam1", np.Fin 0.000000)
].

Definition hard_coded (icam : nat) : option (gmap string np.float64) :=
  match icam with
  | 0%nat => Some (list_to_map hard_coded_0)
  | 1%nat => Some (list_to_map hard_coded_1)
  | 2%nat => Some (list_to_map hard_coded_2)
  | 3%nat => Some (list_to_map hard_coded_3)
  | _ => None
  end.

Definition read_levine_fpg_file (self icam : nat) (fpg_file : string) : M unit :=
  let gotParm := false in
  let parm_dict : gmap string np.float64 := ∅ in
  isfile ← os_path_isfile fpg_file;
  '(gotParm, parm_dict) ←
    (if isfile : bool then
       try_except
         (rows ← genfromtxt fpg_file;
          n ← lift (len_column rows);
          let parm_dict :=
            foldl (λ d (row : string * Z * np.float64), <[row.1.1 := row.2]> d)
                  parm_dict (take n rows) in
          _ ← set_parm_dict icam parm_dict;
          let gotParm := true in
          _ ← print ("Successful Focal Plane Geometry Read From " +:+ fpg_file);
          mret (gotParm, parm_dict))
         (_ ← print ("Could not open " +:+ fpg_file +:+
                     "!  Using Hard-coded Focal Plane Geometry from Levine_FPG read_levine_fpg_file()");
          mret (gotParm, parm_dict))
     else mret (gotParm, parm_dict));
  if negb gotParm then
    let parm_dict := default parm_dict (hard_coded icam) in
    set_parm_dict icam parm_dict
  else mret ().

Definition default_fpg_file_list : list string :=
  ["fpg_pars.txt-"; "fpg_pars.txt-"; "fpg_pars.txt-"; "fpg_pars.txt-"].

Definition read_all_levine_fpg_files (self : nat) (fpg_file_list : option (list string))
  : M unit :=
  _ ← for_ (range NCAM) (λ icam,
        fpg_file ← lift (np.getitem (default default_fpg_file_list fpg_file_list) icam);
        read_levine_fpg_file self icam fpg_file);
  for_ (range NCAM) (λ icam,
    pd ← get_parm_dict icam;
    _ ← store2 eulcam with_eulcam self icam 0 pd "ang1_cam1";
    _ ← store2 eulcam with_eulcam self icam 1 pd "ang2_cam1";
    _ ← store2 eulcam with_eulcam self icam 2 pd "ang3_cam1";
    _ ← store2 optcon with_optcon self icam 0 pd "fl_cam1";
    _ ← store2 optcon with_optcon self icam 1 pd "opt_coef1_cam1";
    _ ← store2 optcon with_optcon self icam 2 pd "opt_coef2_cam1";
    _ ← store2 optcon with_optcon self icam 3 pd "opt_coef3_cam1";
    _ ← store2 optcon with_optcon self icam 4 pd "opt_coef4_cam1";
    _ ← store2 optcon with_optcon self icam 5 pd "opt_coef5_cam1";
    _ ← store1 asymang with_asymang self icam pd "asymang_cam1";
    _ ← store1 asymfac with_asymfac self icam pd "asymfac_cam1";
    for_ (range NCCD) (λ iccd,
      _ ← store3 ccdxy0 with_ccdxy0 self icam iccd 0 pd (ccd_key "x0_ccd" (iccd + 1));
      _ ← store3 ccdxy0 with_ccdxy0 self icam iccd 1 pd (ccd_key "y0_ccd" (iccd + 1));
      _ ← store3 pixsz with_pixsz self icam iccd 0 pd (ccd_key "pix_x_ccd" (iccd + 1));
      _ ← store3 pixsz with_pixsz self icam iccd 1 pd (ccd_key "pix_y_ccd" (iccd + 1));
      _ ← store2 ccdang with_ccdang self icam iccd pd (ccd_key "ang_ccd" (iccd + 1));
      _ ← store3 ccdtilt with_ccdtilt self icam iccd 0 pd (ccd_key "tilt_x_ccd" (iccd + 1));
      store3 ccdtilt with_ccdtilt self icam iccd 1 pd (ccd_key "tilt_y_ccd" (iccd + 1)))).

(** [Levine_FPG(sc_ra_dec_roll, fpg_file_list)]: the new object's address. *)
Definition Levine_FPG_init (sc_ra_dec_roll : option (list np.float64))
    (fpg_file_list : option (list string)) : M nat :=
  self ← new {| eulcam := np.zeros2 NCAM 3;
                optcon := np.zeros2 NCAM 6;
                ccdxy0 := np.zeros3 NCAM NCCD 2;
                pixsz := np.zeros3 NCAM NCCD 2;
                ccdang := np.zeros2 NCAM NCCD;
                ccdtilt := np.zeros3 NCAM NCCD 2;
                asymang := np.zeros NCAM;
                asymfac := np.zeros NCAM;
                rmat1 := np.zeros2 3 3;
                rmat4 := np.zeros3 NCAM 3 3;
                havePointing := false |};
  _ ← read_all_levine_fpg_files self fpg_file_list;
  _ ← match sc_ra_dec_roll with
      | Some pointing =>
          m ← lift (sky_to_sc_mat pointing);
          _ ← update self (with_rmat1 m);
          _ ← for_ (range NCAM) (λ icam,
                eul ← getattr self eulcam;
                cureul ← lift (np.getitem eul icam);
                rmat2 ← lift (sc_to_cam_mat cureul);
                r1 ← getattr self rmat1;
                r4 ← getattr self rmat4;
                r4 ← lift (np.setitem r4 icam (np.matmul rmat2 r1));
                update self (with_rmat4 r4));
          update self (with_havePointing true)
      | None => mret ()
      end;
  mret self.

(** The six arrays [radec2pix] returns. *)
Record pix_arrays : Type := {
  inCamera : list nat;
  ccdNum : list nat;
  fitsxpos : list np.float64;
  fitsypos : list np.float64;
  ccdxpos : list np.float64;
  ccdypos : list np.float64
}.

Definition no_pix : pix_arrays :=
  {| inCamera := []; ccdNum := []; fitsxpos := []; fitsypos := [];
     ccdxpos := []; ccdypos := [] |}.

(** One pass of the camera loop of [radec2pix] for the star [curVec]. *)
Definition radec2pix_camera (o : Levine_FPG) (curVec : list np.float64)
    (acc : pix_arrays) (j : nat) : result pix_arrays :=
  m ← np.getitem (rmat4 o) j;
  let camVec := np.matvec m curVec in
  '(lng, lat) ← cartToSphere camVec;
  let lng := (lng / deg2rad)%f in
  let lat := (lat / deg2rad)%f in
  if star_in_fov lng lat then
    xyfp ← optics_fp o j lng lat;
    '(iccd, ccdpx, fitpx) ← mm_to_pix o j xyfp;
    f0 ← np.getitem fitpx 0;
    f1 ← np.getitem fitpx 1;
    c0 ← np.getitem ccdpx 0;
    c1 ← np.getitem ccdpx 1;
    mret {| inCamera := inCamera acc ++ [(j + 1)%nat];
            ccdNum := ccdNum acc ++ [(iccd + 1)%nat];
            fitsxpos := fitsxpos acc ++ [f0];
            fitsypos := fitsypos acc ++ [f1];
            ccdxpos := ccdxpos acc ++ [c0];
            ccdypos := ccdypos acc ++ [c1] |}
  else mret acc.

(** [for x in xs: acc = body acc x] in the error monad. *)
Fixpoint fold_result {A B : Type} (body : B → A → result B) (xs : list A) (acc : B)
  : result B :=
  match xs with
  | [] => Ok acc
  | x :: xs' => body acc x ≫= fold_result body xs'
  end.

(** The branch of [radec2pix] taken when the pointing is set: it reads the
    object and prints nothing. *)
Definition radec2pix_stars (o : Levine_FPG) (ras decs : list np.float64)
  : result pix_arrays :=
  let nStar := length ras in
  let acc := no_pix in
  '(vec0s, vec1s, vec2s) ← sphereToCart_arr ras decs;
  fold_result (λ acc i,
      v0 ← np.getitem vec0s i;
      v1 ← np.getitem vec1s i;
      v2 ← np.getitem vec2s i;
      let curVec := [v0; v1; v2] in
      fold_result (radec2pix_camera o curVec) (range NCAM) acc)
    (range nStar) acc.

Definition radec2pix (self : nat) (ras decs : list np.float64) : M pix_arrays :=
  pointing ← getattr self havePointing;
  if pointing : bool then
    o ← getattr self (λ o, o);
    lift (radec2pix_stars o ras decs)
  else
    _ ← print "Spacecraft Pointing Not specified!";
    mret no_pix.

(** ** The position angle and separation solver *)

(** In exact arithmetic; [binary64.get_radec_from_posangsep] below is the
    same function with rounding. *)

Definition get_radec_from_posangsep (ra dec pa sep : np.float64)
  : np.float64 * np.float64 :=
  let deg2rad := (np.pi / 180)%f in
  let rad2deg := (180 / np.pi)%f in
  let twopi := 2 * PI in
  let pidtwo := (np.pi / 2)%f in
  let rar := (ra * deg2rad)%f in
  let decr := (dec * deg2rad)%f in
  let par := (pa * deg2rad)%f in
  let sepr := (sep * deg2rad)%f in
  let c := (pidtwo - decr)%f in
  let bigB := par in
  let a := sepr in
  let b := np.arccos (np.cos c * np.cos a + np.sin c * np.sin a * np.cos bigB)%f in
  let newdec := (pidtwo - b)%f in
  let delalp :=
    np.arccos (np.min2 ((np.cos sepr - np.sin decr * np.sin newdec)
                        / (np.cos decr * np.cos newdec))%f 1) in
  let newra := if np.gt pa 180 then (rar - delalp)%f else (rar + delalp)%f in
  let newra := np.mod_ newra twopi in
  ((newra * rad2deg)%f, (newdec * rad2deg)%f).

(** ** The spacecraft pointing table *)

Definition cls_sectors : list Z := Z.of_nat <$> seq 1 39.

Definition cls_ras : list np.float64 := np.Fin <$> [
  352.6844; 16.5571; 36.3138; 55.0070; 73.5382;
  92.0096; 110.2559; 128.1156; 145.9071; 165.0475;
  189.1247; 229.5885; 298.6671; 276.7169; 280.3985;
  282.4427; 351.2381; 16.1103; 60.2026; 129.3867;
  171.7951; 197.1008; 217.2879; 261.4516; 265.6098;
  270.1381; 326.8525; 357.2944; 18.9190; 38.3564;
  57.6357; 77.1891; 96.5996; 115.2951; 133.2035;
  150.9497; 170.2540; 195.7176; 242.1981
].

Definition cls_decs : list np.float64 := np.Fin <$> [
  (-64.8531); (-54.0160); (-44.2590); (-36.6420); (-31.9349);
  (-30.5839); (-32.6344); (-37.7370); (-45.3044); (-54.8165);
  (-65.5369); (-75.1256); (-76.3281); 62.4756; 64.0671;
  66.1422; 57.8456; 67.9575; 76.2343; 75.2520;
  65.1924; 53.7434; 43.8074; 63.1181; 61.9383;
  61.5637; (-72.4265); (-63.0056); (-52.8296); (-43.3178);
  (-35.7835); (-31.3957); (-30.7848); (-33.7790); (-39.6871);
  (-47.7512); (-57.3725); (-67.8307); (-76.3969)
].

Definition cls_rolls : list np.float64 := np.Fin <$> [
  (-137.8468); (-139.5665); (-146.9616); (-157.1698); (-168.9483);
  178.6367; 166.4476; 155.3091; 145.9163; 139.1724;
  138.0761; 153.9773; (-161.0622); 32.2329; 55.4277;
  79.4699; 41.9686; 40.5453; 19.6463; 334.5689;
  317.9495; 319.6992; 327.4246; 317.2624; 339.5293;
  0.6038; 214.5061; 222.5216; 219.7970; 212.0441;
  201.2334; 188.6263; 175.5369; 163.1916; 152.4006;
  143.7306; 138.1685; 139.3519; 161.5986
].

Definition cls_camSeps : list np.float64 := np.Fin <$> [
  36.0; 12.0; 12.0; 36.0
].

Record TESS_Spacecraft_Pointing_Data : Type := {
  sectors : list Z;
  ras : list np.float64;
  decs : list np.float64;
  rolls : list np.float64;
  camRa : list (list np.float64);   (* (4, nPoints) *)
  camDec : list (list np.float64);  (* (4, nPoints) *)
  fpgObjs : list nat                (* addresses of Levine_FPG objects *)
}.

(** [np.where(a == x)[0]] and the fancy index [a[idx]]. *)
Definition where_eq (a : list Z) (x : Z) : list nat :=
  filter (λ i, a !! i = Some x) (range (length a)).

Definition take_idx {A : Type} (a : list A) (idx : list nat) : list A :=
  omap (λ i, a !! i) idx.

(** [for x in xs: acc = body acc x] in the state-and-error monad. *)
Fixpoint fold_M {A B : Type} (body : B → A → M B) (xs : list A) (acc : B) : M B :=
  match xs with
  | [] => mret acc
  | x :: xs' => body acc x ≫= fold_M body xs'
  end.

Definition TESS_Spacecraft_Pointing_Data_init (trySector : option Z)
    (fpgParmFileList : option (list string)) : M TESS_Spacecraft_Pointing_Data :=
  let '(sectors, ras, decs, rolls) :=
    match trySector with
    | Some s =>
        let idx := where_eq cls_sectors s in
        (take_idx cls_sectors idx, take_idx cls_ras idx,
         take_idx cls_decs idx, take_idx cls_rolls idx)
    | None => (cls_sectors, cls_ras, cls_decs, cls_rolls)
    end in
  let nPoints := length sectors in
  let camRa := np.zeros2 4 nPoints in
  let camDec := np.zeros2 4 nPoints in
  '(camRa, camDec) ← lift (fold_result (λ '(camRa, camDec) iPnt,
      curra ← np.getitem ras iPnt;
      curdec ← np.getitem decs iPnt;
      curroll ← np.getitem rolls iPnt;
      let camposangs :=
        [(180 - curroll)%f; (180 - curroll)%f; (360 - curroll)%f; (360 - curroll)%f] in
      let camposangs := (λ a, np.mod_ a 360) <$> camposangs in
      fold_result (λ '(camRa, camDec) iCam,
          pang ← np.getitem camposangs iCam;
          sep ← np.getitem cls_camSeps iCam;
          let '(camra, camdec) := get_radec_from_posangsep curra curdec pang sep in
          camRa ← np.setitem2 camRa iCam iPnt camra;
          camDec ← np.setitem2 camDec iCam iPnt camdec;
          mret (camRa, camDec))
        (range 4) (camRa, camDec))
    (range nPoints) (camRa, camDec));
  let fpgObjs := [] in
  let fpg_file_list := fpgParmFileList in
  fpgObjs ← fold_M (λ fpgObjs iPnt,
      r ← lift (np.getitem ras iPnt);
      d ← lift (np.getitem decs iPnt);
      l ← lift (np.getitem rolls iPnt);
      let sc_ra_dec_roll := [r; d; l] in
      obj ← Levine_FPG_init (Some sc_ra_dec_roll) fpg_file_list;
      mret (fpgObjs ++ [obj]))
    (range nPoints) fpgObjs;
  mret {| sectors := sectors; ras := ras; decs := decs; rolls := rolls;
          camRa := camRa; camDec := camDec; fpgObjs := fpgObjs |}.

(** ** Archive polling *)

(** The filtered catalogue request [ticIdSearch] builds. *)
Record request : Type := {
  service : string;
  columns : string;
  paramName : string;
  values : string;
  format : string;
  removenullcolumns : bool
}.

(** What one round trip of [mastQuery] followed by [json.loads] and the
    read of [outData['status']] comes to: a JSON object with its status and
    data rows, or an exception (transport, malformed body, missing key). *)
Inductive reply : Type :=
| Reply (status : string) (data : list (gmap string np.float64))
| Broken (e : exn).

Section Archive.

(** The remote archive: its answer to the [n]-th request of a run. *)
Variable mastQuery : request → nat → reply.

Definition ticIdSearch_request (tic : Z) : request :=
  {| service := "Mast.Catalogs.Filtered.Tic"; columns := "*";
     paramName := "ID"; values := pretty tic; format := "json";
     removenullcolumns := true |}.

(** The [while True] loop of [ticIdSearch], from its [n]-th round trip on.
    Every iteration that does not leave the loop costs one unit of [fuel];
    [None] means the loop is still running when the fuel is spent.  A result
    carries the index of the last round trip. *)
Fixpoint ticIdSearch_loop (tic : Z) (fuel n : nat)
  : option (result (nat * list (gmap string np.float64))) :=
  match fuel with
  | O => None
  | S fuel' =>
      let request := ticIdSearch_request tic in
      match mastQuery request n with
      | Broken e => Some (Raise e)
      | Reply status data =>
          if negb (String.eqb status "EXECUTING") then Some (Ok (n, data))
          else ticIdSearch_loop tic fuel' (S n)
      end
  end.

(** [ticIdSearch]: the loop, then the first row of the data ([df.iloc[0]]).
    The [print(outData)] after the loop is left out. *)
Definition ticIdSearch (tic : Z) (fuel : nat)
  : option (result (gmap string np.float64)) :=
  match ticIdSearch_loop tic fuel 0 with
  | None => None
  | Some (Raise e) => Some (Raise e)
  | Some (Ok (_, data)) => Some (np.getitem data 0)
  end.

End Archive.

(** ** Sector determination *)

(** The body of the loop over the hits of one sector in [SectFromCoords]. *)
Definition SectFromCoords_hit (curSec : Z) (r : pix_arrays)
    (st : bool * list Z) (jj : nat) : result (bool * list Z) :=
  let '(findAny, sects) := st in
  cx ← np.getitem (ccdxpos r) jj;
  let xUse := (cx + 45)%f in
  cy ← np.getitem (ccdypos r) jj;
  let yUse := (cy + 1)%f in
  let xMin : np.float64 := 44 in
  let ymaxCoord := np.of_int 2049 in
  let xmaxCoord := np.of_int 2093 in
  if np.gt xUse xMin && np.gt yUse (np.of_int 0) && np.lt xUse xmaxCoord
     && np.lt yUse ymaxCoord
  then mret (true, sects ++ [curSec])
  else mret (findAny, sects).

Definition SectFromCoords_hits (curSec : Z) (r : pix_arrays) (st : bool * list Z)
  : result (bool * list Z) :=
  fold_result (SectFromCoords_hit curSec r) (range (length (inCamera r))) st.

(** The loop over the sectors in [SectFromCoords], for a target at
    [(ra, dec)]; the catalogue look-up before it is left out. *)
Definition SectFromCoords_sectors (scinfo : TESS_Spacecraft_Pointing_Data)
    (ra dec : np.float64) : M (bool * list Z) :=
  let findAny := false in
  let sects := [] in
  fold_M (λ st '(idxSec, curSec),
      obj ← lift (np.getitem (fpgObjs scinfo) idxSec);
      r ← radec2pix obj [ra] [dec];
      lift (SectFromCoords_hits curSec r st))
    (imap pair (sectors scinfo)) (findAny, sects).

(** ** The specification's reading of the pixel mapping

    The definitions of this section follow the specification's words, to be
    compared with the code above. *)

(** CCDGeometryParameters: origin offset and pixel pitch (mm), rotation
    angle (degrees). *)
Record CCDGeometryParameters : Type := {
  origin : np.float64 * np.float64;
  pitch : np.float64 * np.float64;
  angle : np.float64
}.

(** The parameters of CCD [iccd] of camera [icam], when the tables of the
    geometry model hold them. *)
Definition spec_ccd (o : Levine_FPG) (icam iccd : nat) : option CCDGeometryParameters :=
  match ccdxy0 o !! icam ≫= (.!! iccd), pixsz o !! icam ≫= (.!! iccd),
        ccdang o !! icam ≫= (.!! iccd) with
  | Some [x0; y0], Some [px; py], Some ang =>
      Some {| origin := (x0, y0); pitch := (px, py); angle := ang |}
  | _, _, _ => None
  end.

(** Quadrant to CCD index: (+,+) 0, (-,+) 1, (-,-) 2, (+,-) 3, where a
    coordinate counts as [+] when it is [>= 0]. *)
Definition spec_quadrant (x y : np.float64) : nat :=
  match np.ge x 0, np.ge y 0 with
  | true, true => 0
  | false, true => 1
  | false, false => 2
  | true, false => 3
  end.

(** 2-D rotation: (x', y') = (x cos t + y sin t, - x sin t + y cos t),
    for an angle in degrees. *)
Definition spec_rotate (theta : np.float64) (p : np.float64 * np.float64)
  : np.float64 * np.float64 :=
  let t := (deg2rad * theta)%f in
  ((p.1 * np.cos t + p.2 * np.sin t)%f, (- (p.1 * np.sin t) + p.2 * np.cos t)%f).

(** Translate by the origin offset, rotate by the CCD angle, divide by the
    pixel pitch, offset by -0.5. *)
Definition spec_ccd_pixels (g : CCDGeometryParameters) (p : np.float64 * np.float64)
  : np.float64 * np.float64 :=
  let translated := ((p.1 - (origin g).1)%f, (p.2 - (origin g).2)%f) in
  let rotated := spec_rotate (angle g) translated in
  ((rotated.1 / (pitch g).1 + (-0.5))%f, (rotated.2 / (pitch g).2 + (-0.5))%f).

(** The table of full-frame FITS formulas. *)
Definition spec_fits_pixels (iccd : nat) (ccd : np.float64 * np.float64)
  : np.float64 * np.float64 :=
  let CCDWD_T := np.of_int 2048 in
  let CCDHT_T := np.of_int 2058 in
  let ROWA := np.of_int 44 in
  let ROWB := np.of_int 44 in
  let COLDK_T := np.of_int 20 in
  let '(ccdX, ccdY) := ccd in
  match iccd with
  | 0%nat => (((CCDWD_T - ccdX) + CCDWD_T + 2 * ROWA + ROWB - 1)%f,
              ((CCDHT_T - ccdY) + CCDHT_T + 2 * COLDK_T - 1)%f)
  | 1%nat => (((CCDWD_T - ccdX) + ROWA - 1)%f,
              ((CCDHT_T - ccdY) + CCDHT_T + 2 * COLDK_T - 1)%f)
  | 2%nat => ((ccdX + ROWA)%f, ccdY)
  | _ => ((ccdX + CCDWD_T + 2 * ROWA + ROWB)%f, ccdY)
  end.

(** The acceptance window of the sector search: 44 < x < 2093 and
    0 < y < 2049 for x = ccdX + 45.0 and y = ccdY + 1.0 (no infinite or
    [nan] coordinate satisfies it). *)
Definition spec_window (ccdX ccdY : np.float64) : Prop :=
  match ccdX, ccdY with
  | np.Fin cx, np.Fin cy => 44 < cx + 45 < 2093 ∧ 0 < cy + 1 < 2049
  | _, _ => False
  end.

#[global] Instance spec_window_dec (ccdX ccdY : np.float64) :
  Decision (spec_window ccdX ccdY).
Proof. destruct ccdX, ccdY; simpl; apply _. Defined.

(** The hits of a sector as pairs of CCD-local coordinates, and the
    arrays of a pixel mapping being equally long. *)
Definition hits (r : pix_arrays) : list (np.float64 * np.float64) :=
  zip (ccdxpos r) (ccdypos r).

Definition pix_consistent (r : pix_arrays) : Prop :=
  length (ccdNum r) = length (inCamera r) ∧
  length (fitsxpos r) = length (inCamera r) ∧
  length (fitsypos r) = length (inCamera r) ∧
  length (ccdxpos r) = length (inCamera r) ∧
  length (ccdypos r) = length (inCamera r).

(** Two hits for the acceptance window: ccdX = 0, ccdY = 0 and
    ccdX = -45, ccdY = 0. *)
Definition two_hits : pix_arrays :=
  {| inCamera := [1; 1]%nat; ccdNum := [1; 2]%nat;
     fitsxpos := [np.Fin 0; np.Fin 0]; fitsypos := [np.Fin 0; np.Fin 0];
     ccdxpos := [np.Fin 0; np.Fin (-45)]; ccdypos := [np.Fin 0; np.Fin 0] |}.

(** The sign placement of [rotm1] as the specification words it: the
    positive sine above the diagonal, the negative sine below it. *)
Definition spec_sine_above_diagonal (ax : nat) (ang : np.float64) : Prop :=
  ∃ m, rotm1 ax ang = Ok m ∧
    ∀ i j : nat, (i < j < 3)%nat → i ≠ ax → j ≠ ax →
      np.getitem2 m i j = Ok (np.sin ang) ∧
      np.getitem2 m j i = Ok (- np.sin ang)%f.

(** The object that a first construction with neither pointing nor
    calibration files leaves at address 0: the hard-coded geometry. *)
Definition hard_coded_fpg : option Levine_FPG :=
  heap (Levine_FPG_init None None (at_import ∅)).2 !! 0%nat.


(** Two archives to run the polling loop against: one that answers
    "EXECUTING" twice and then "COMPLETE", one that never finishes. *)
Definition archive_after_two (_ : request) (n : nat) : reply :=
  if decide (n < 2)%nat then Reply "EXECUTING" [] else Reply "COMPLETE" [].

Definition archive_busy (_ : request) (_ : nat) : reply := Reply "EXECUTING" [].

(** ** What a computation leaves unchanged *)

(** [m] relates every world it is run in to the world it leaves. *)
Definition keeps {A : Type} (R : World → World → Prop) (m : M A) : Prop :=
  ∀ w, R w (m w).2.

(** The objects other than [self] are as they were. *)
Definition others_kept (self : nat) (w w' : World) : Prop :=
  ∀ a, a ≠ self → heap w' !! a = heap w !! a.

(** The attribute [havePointing] of [self] is as it was. *)
Definition pointing_kept (self : nat) (w w' : World) : Prop :=
  havePointing <$> heap w' !! self = havePointing <$> heap w !! self.

(** The class attribute [parm_dict_list] is as it was. *)
Definition tables_kept (w w' : World) : Prop :=
  parm_dict_list w' = parm_dict_list w.

(** What can be read through the instance at address [a]: its own
    attributes, and the class attribute [parm_dict_list]. *)
Definition visible_through (w : World) (a : nat)
  : option (Levine_FPG * list (gmap string np.float64)) :=
  o ← heap w !! a; Some (o, parm_dict_list w).

(** The specification's reading of ownership: a construction changes
    nothing that can be read through an earlier instance. *)
Definition spec_no_shared_state (w : World) (sc_ra_dec_roll : option (list np.float64))
    (fpg_file_list : option (list string)) (a : nat) : Prop :=
  (a < length (heap w))%nat →
  visible_through (Levine_FPG_init sc_ra_dec_roll fpg_file_list w).2 a
  = visible_through w a.

(** A calibration file for camera 1 that differs from the hard-coded table
    in its first row, and a file system that holds it. *)
Definition cal_rows : dataBlock :=
  ("ang1_cam1", 1%Z, np.Fin 0.5)
  :: ((λ kv : string * np.float64, (kv.1, 0%Z, kv.2)) <$> tail hard_coded_0).

Definition cal_files : gmap string (option dataBlock) :=
  {[ "cam1.txt" := Some cal_rows ]}.

Definition cal_file_list : list string :=
  ["cam1.txt"; "cam2.txt"; "cam3.txt"; "cam4.txt"].

(** The world after one construction with the hard-coded geometry. *)
Definition world_one (fs : gmap string (option dataBlock)) : World :=
  (Levine_FPG_init None None (at_import fs)).2.

Definition said (line : string) (w : World) : World :=
  {| parm_dict_list := parm_dict_list w; heap := heap w; files := files w;
     stdout := stdout w ++ [line] |}.

(** ** The single-CCD variants *)

(** [mm_to_pix_single_ccd]: four [if iccd == k] blocks, one after the
    other; an [iccd] that matches none leaves the zero-filled arrays. *)
Definition mm_to_pix_single_ccd (self : Levine_FPG) (icam : nat)
    (xy : list np.float64) (iccd : nat)
  : result (list np.float64 * list np.float64) :=
  let xya := xy in
  let xyb := np.zeros_like xya in
  let ccdpx := np.zeros_like xya in
  let fitpx := np.zeros_like xya in
  '(xyb, ccdpx, fitpx) ←
    (if decide (iccd = 0%nat) then
       '(xyb, ccdpx) ← mm_to_ccdpx self icam iccd xya xyb ccdpx;
       c0 ← np.getitem ccdpx 0;
       fitpx ← np.setitem fitpx 0
         (np.of_int CCDWD_T - c0 + np.of_int CCDWD_T + np.of_int (2 * ROWA)
          + np.of_int ROWB - 1)%f;
       c1 ← np.getitem ccdpx 1;
       fitpx ← np.setitem fitpx 1
         (np.of_int CCDHT_T - c1 + np.of_int CCDHT_T + np.of_int (2 * COLDK_T)
          - 1)%f;
       mret (xyb, ccdpx, fitpx)
     else mret (xyb, ccdpx, fitpx));
  '(xyb, ccdpx, fitpx) ←
    (if decide (iccd = 3%nat) then
       '(xyb, ccdpx) ← mm_to_ccdpx self icam iccd xya xyb ccdpx;
       c0 ← np.getitem ccdpx 0;
       fitpx ← np.setitem fitpx 0
         (c0 + np.of_int CCDWD_T + np.of_int (2 * ROWA) + np.of_int ROWB)%f;
       c1 ← np.getitem ccdpx 1;
       fitpx ← np.setitem fitpx 1 c1;
       mret (xyb, ccdpx, fitpx)
     else mret (xyb, ccdpx, fitpx));
  '(xyb, ccdpx, fitpx) ←
    (if decide (iccd = 1%nat) then
       '(xyb, ccdpx) ← mm_to_ccdpx self icam iccd xya xyb ccdpx;
       c0 ← np.getitem ccdpx 0;
       fitpx ← np.setitem fitpx 0
         (np.of_int CCDWD_T - c0 + np.of_int ROWA - 1)%f;
       c1 ← np.getitem ccdpx 1;
       fitpx ← np.setitem fitpx 1
         (np.of_int CCDHT_T - c1 + np.of_int CCDHT_T + np.of_int (2 * COLDK_T)
          - 1)%f;
       mret (xyb, ccdpx, fitpx)
     else mret (xyb, ccdpx, fitpx));
  '(xyb, ccdpx, fitpx) ←
    (if decide (iccd = 2%nat) then
       '(xyb, ccdpx) ← mm_to_ccdpx self icam iccd xya xyb ccdpx;
       c0 ← np.getitem ccdpx 0;
       fitpx ← np.setitem fitpx 0 (c0 + np.of_int ROWA)%f;
       c1 ← np.getitem ccdpx 1;
       fitpx ← np.setitem fitpx 1 c1;
       mret (xyb, ccdpx, fitpx)
     else mret (xyb, ccdpx, fitpx));
  mret (ccdpx, fitpx).

(** [radec2pix_nocheck_single]: one target, one camera, one CCD, no field
    of view test; returns (ccdNum, fitsxpos, fitsypos, ccdxpos, ccdypos, lat). *)
Definition radec2pix_nocheck_single (self : Levine_FPG) (ras decs : np.float64)
    (cam iccd : nat)
  : result (nat * np.float64 * np.float64 * np.float64 * np.float64 * np.float64) :=
  let '(vec0s, vec1s, vec2s) := sphereToCart ras decs in
  let curVec := [vec0s; vec1s; vec2s] in
  let j := cam in
  m ← np.getitem (rmat4 self) j;
  let camVec := np.matvec m curVec in
  '(lng, lat) ← cartToSphere camVec;
  let lng := (lng / deg2rad)%f in
  let lat := (lat / deg2rad)%f in
  xyfp ← optics_fp self j lng lat;
  '(ccdpx, fitpx) ← mm_to_pix_single_ccd self j xyfp iccd;
  let ccdNum := (iccd + 1)%nat in
  fitsxpos ← np.getitem fitpx 0;
  fitsypos ← np.getitem fitpx 1;
  ccdxpos ← np.getitem ccdpx 0;
  ccdypos ← np.getitem ccdpx 1;
  mret (ccdNum, fitsxpos, fitsypos, ccdxpos, ccdypos, lat).

(** ** Finite numbers and 3x3 matrices of finite numbers *)

Definition finite (a : np.float64) : Prop := ∃ r : R, a = np.Fin r.

Definition mat33 (a11 a12 a13 a21 a22 a23 a31 a32 a33 : R) : list (list np.float64) :=
  [[np.Fin a11; np.Fin a12; np.Fin a13];
   [np.Fin a21; np.Fin a22; np.Fin a23];
   [np.Fin a31; np.Fin a32; np.Fin a33]].

(** A matrix of finite entries that keeps the length of every vector it is
    applied to with [np.matmul]. *)
Definition isometry (m : list (list np.float64)) : Prop :=
  ∃ a11 a12 a13 a21 a22 a23 a31 a32 a33 : R,
    m = mat33 a11 a12 a13 a21 a22 a23 a31 a32 a33 ∧
    ∀ x y z : R,
      (a11 * x + a12 * y + a13 * z) * (a11 * x + a12 * y + a13 * z)
      + (a21 * x + a22 * y + a23 * z) * (a21 * x + a22 * y + a23 * z)
      + (a31 * x + a32 * y + a33 * z) * (a31 * x + a32 * y + a33 * z)
      = x * x + y * y + z * z.


(** A computation whose only exception is [IndexError]. *)
Definition index_only {A : Type} (r : result A) : Prop :=
  ∀ e, r = Raise e → e = IndexError.

(** The world after a first construction with the pointing
    (ra, dec, roll) = (0, 0, 0) and no calibration file. *)
Definition world_pointed : World :=
  (Levine_FPG_init (Some [np.Fin 0; np.Fin 0; np.Fin 0]) None (at_import ∅)).2.

(** A model whose four cameras all look along the z axis of the sky frame:
    the geometry of [o] with the identity for every camera matrix and the
    pointing marked as set. *)
Definition looking_up (o : Levine_FPG) : Levine_FPG :=
  with_havePointing true (with_rmat4 (replicate 4 (mat33 1 0 0 0 1 0 0 0 1)) o).

(** ** The shapes of the arrays of a model *)

Definition shape2 {A : Type} (n m : nat) (a : list (list A)) : Prop :=
  length a = n ∧ Forall (λ row, length row = m) a.

Definition shape3 {A : Type} (n m k : nat) (a : list (list (list A))) : Prop :=
  length a = n ∧ Forall (shape2 m k) a.

(** Every array of the model has the shape [__init__] creates it with. *)
Definition shaped (o : Levine_FPG) : Prop :=
  shape2 NCAM 3 (eulcam o) ∧ shape2 NCAM 6 (optcon o) ∧
  shape3 NCAM NCCD 2 (ccdxy0 o) ∧ shape3 NCAM NCCD 2 (pixsz o) ∧
  shape2 NCAM NCCD (ccdang o) ∧ shape3 NCAM NCCD 2 (ccdtilt o) ∧
  length (asymang o) = NCAM ∧ length (asymfac o) = NCAM ∧
  shape2 3 3 (rmat1 o) ∧ shape3 NCAM 3 3 (rmat4 o).

(** The object at address [self], if there is one, stays well shaped. *)
Definition stays_shaped (self : nat) (w w' : World) : Prop :=
  (∃ o, heap w !! self = Some o ∧ shaped o) →
  ∃ o', heap w' !! self = Some o' ∧ shaped o'.

(** ** What reading one parameter file comes to *)

Definition could_not_open (fpg_file : string) : string :=
  "Could not open " +:+ fpg_file +:+
  "!  Using Hard-coded Focal Plane Geometry from Levine_FPG read_levine_fpg_file()".

Definition successful_read (fpg_file : string) : string :=
  "Successful Focal Plane Geometry Read From " +:+ fpg_file.

(** The table a file gives: its rows in order, a later row replacing an
    earlier one with the same key. *)
Definition table_of (rows : dataBlock) : gmap string np.float64 :=
  foldl (λ d (row : string * Z * np.float64), <[row.1.1 := row.2]> d) ∅ rows.

(** The table camera [icam] ends up with and the lines printed, by the
    state of the file. *)
Definition table_read (w : World) (icam : nat) (fpg_file : string)
  : gmap string np.float64 * list string :=
  match files w !! fpg_file with
  | None => (default ∅ (hard_coded icam), [])
  | Some None => (default ∅ (hard_coded icam), [could_not_open fpg_file])
  | Some (Some rows) =>
      match len_column rows with
      | Raise _ => (default ∅ (hard_coded icam), [could_not_open fpg_file])
      | Ok _ => (table_of rows, [successful_read fpg_file])
      end
  end.

(** ** The constructor as a function of the tables *)

(** The world with the object at address [self] replaced. *)
Definition set_obj (self : nat) (o : Levine_FPG) (w : World) : World :=
  {| parm_dict_list := parm_dict_list w; heap := <[self := o]> (heap w);
     files := files w; stdout := stdout w |}.

(** [m] only rewrites the object at [self], the way [g] says, in every
    world whose class attribute is [tables]. *)
Definition runs_as (tables : list (gmap string np.float64)) (self : nat)
    (m : M unit) (g : Levine_FPG → result Levine_FPG) : Prop :=
  ∀ w o, parm_dict_list w = tables → heap w !! self = Some o →
    match g o with
    | Ok o' => m w = (Ok (), set_obj self o' w)
    | Raise e => (m w).1 = Raise e
    end.

Definition put1 (field : Levine_FPG → list np.float64)
    (set : list np.float64 → Levine_FPG → Levine_FPG)
    (i : nat) (d : gmap string np.float64) (key : string) (o : Levine_FPG)
  : result Levine_FPG :=
  v ← dict_get d key; a ← np.setitem (field o) i v; mret (set a o).

Definition put2 (field : Levine_FPG → list (list np.float64))
    (set : list (list np.float64) → Levine_FPG → Levine_FPG)
    (i j : nat) (d : gmap string np.float64) (key : string) (o : Levine_FPG)
  : result Levine_FPG :=
  v ← dict_get d key; a ← np.setitem2 (field o) i j v; mret (set a o).

Definition put3 (field : Levine_FPG → list (list (list np.float64)))
    (set : list (list (list np.float64)) → Levine_FPG → Levine_FPG)
    (i j k : nat) (d : gmap string np.float64) (key : string) (o : Levine_FPG)
  : result Levine_FPG :=
  v ← dict_get d key; a ← np.setitem3 (field o) i j k v; mret (set a o).

(** The second loop of [read_all_levine_fpg_files] on the object: the
    pass of the inner loop for one CCD, the pass for one camera, the loop. *)
Definition fill_ccd (pd : gmap string np.float64) (icam : nat) (o : Levine_FPG)
    (iccd : nat) : result Levine_FPG :=
  o ← put3 ccdxy0 with_ccdxy0 icam iccd 0 pd (ccd_key "x0_ccd" (iccd + 1)) o;
  o ← put3 ccdxy0 with_ccdxy0 icam iccd 1 pd (ccd_key "y0_ccd" (iccd + 1)) o;
  o ← put3 pixsz with_pixsz icam iccd 0 pd (ccd_key "pix_x_ccd" (iccd + 1)) o;
  o ← put3 pixsz with_pixsz icam iccd 1 pd (ccd_key "pix_y_ccd" (iccd + 1)) o;
  o ← put2 ccdang with_ccdang icam iccd pd (ccd_key "ang_ccd" (iccd + 1)) o;
  o ← put3 ccdtilt with_ccdtilt icam iccd 0 pd (ccd_key "tilt_x_ccd" (iccd + 1)) o;
  put3 ccdtilt with_ccdtilt icam iccd 1 pd (ccd_key "tilt_y_ccd" (iccd + 1)) o.

Definition fill_camera (tables : list (gmap string np.float64)) (o : Levine_FPG)
    (icam : nat) : result Levine_FPG :=
  pd ← np.getitem tables icam;
  o ← put2 eulcam with_eulcam icam 0 pd "ang1_cam1" o;
  o ← put2 eulcam with_eulcam icam 1 pd "ang2_cam1" o;
  o ← put2 eulcam with_eulcam icam 2 pd "ang3_cam1" o;
  o ← put2 optcon with_optcon icam 0 pd "fl_cam1" o;
  o ← put2 optcon with_optcon icam 1 pd "opt_coef1_cam1" o;
  o ← put2 optcon with_optcon icam 2 pd "opt_coef2_cam1" o;
  o ← put2 optcon with_optcon icam 3 pd "opt_coef3_cam1" o;
  o ← put2 optcon with_optcon icam 4 pd "opt_coef4_cam1" o;
  o ← put2 optcon with_optcon icam 5 pd "opt_coef5_cam1" o;
  o ← put1 asymang with_asymang icam pd "asymang_cam1" o;
  o ← put1 asymfac with_asymfac icam pd "asymfac_cam1" o;
  fold_result (fill_ccd pd icam) (range NCCD) o.

Definition fill (tables : list (gmap string np.float64)) (o : Levine_FPG)
  : result Levine_FPG :=
  fold_result (fill_camera tables) (range NCAM) o.

(** The branch of [__init__] that sets the pointing, on the object. *)
Definition point (pointing : list np.float64) (o : Levine_FPG) : result Levine_FPG :=
  m ← sky_to_sc_mat pointing;
  o ← fold_result (λ o icam,
      cureul ← np.getitem (eulcam o) icam;
      rmat2 ← sc_to_cam_mat cureul;
      r4 ← np.setitem (rmat4 o) icam (np.matmul rmat2 (rmat1 o));
      mret (with_rmat4 r4 o))
    (range NCAM) (with_rmat1 m o);
  mret (with_havePointing true o).

(** The object [__init__] starts from. *)
Definition zeros_fpg : Levine_FPG :=
  {| eulcam := np.zeros2 NCAM 3; optcon := np.zeros2 NCAM 6;
     ccdxy0 := np.zeros3 NCAM NCCD 2; pixsz := np.zeros3 NCAM NCCD 2;
     ccdang := np.zeros2 NCAM NCCD; ccdtilt := np.zeros3 NCAM NCCD 2;
     asymang := np.zeros NCAM; asymfac := np.zeros NCAM;
     rmat1 := np.zeros2 3 3; rmat4 := np.zeros3 NCAM 3 3;
     havePointing := false |}.

(** The four hard-coded tables. *)
Definition hard_coded_tables : list (gmap string np.float64) :=
  omap hard_coded (seq 0 4).

(** ** The camera matrices of a constructed model *)

(** [o'] has the geometry parameters of [o]. *)
Definition same_geometry (o o' : Levine_FPG) : Prop :=
  eulcam o' = eulcam o ∧ optcon o' = optcon o ∧ ccdxy0 o' = ccdxy0 o ∧
  pixsz o' = pixsz o ∧ ccdang o' = ccdang o ∧ ccdtilt o' = ccdtilt o ∧
  asymang o' = asymang o ∧ asymfac o' = asymfac o.

(** The state of the camera loop of [__init__] before camera [k]: the
    matrices of the cameras before [k] are in place. *)
Definition pointed_to (o : Levine_FPG) (m1 : list (list np.float64)) (k : nat)
    (o' : Levine_FPG) : Prop :=
  same_geometry o o' ∧ rmat1 o' = m1 ∧ length (rmat4 o') = 4%nat ∧
  ∀ j, (j < k)%nat → ∃ m, rmat4 o' !! j = Some m ∧ isometry m.
(** ** The solver in double precision *)

(** The same function over IEEE 754 binary64.  Sums, products, quotients
    and comparisons are those of the processor; [np.cos], [np.sin],
    [np.arccos] and [np.mod] belong to numpy and are parameters. *)
Module binary64.

Record functions : Type := {
  cos : float → float;
  sin : float → float;
  arccos : float → float;
  mod_ : float → float → float
}.

(** [np.pi], 3.141592653589793 *)
Definition pi : float := 0x1.921fb54442d18p+1%float.

(** [np.min([x, y])]: a nan wins. *)
Definition min2 (x y : float) : float :=
  if is_nan x || is_nan y then nan
  else if (y <? x)%float then y else x.

Definition get_radec_from_posangsep (f : functions) (ra dec pa sep : float)
  : float * float :=
  let deg2rad := (pi / 180)%float in
  let rad2deg := (180 / pi)%float in
  let twopi := (2 * pi)%float in
  let pidtwo := (pi / 2)%float in
  let rar := (ra * deg2rad)%float in
  let decr := (dec * deg2rad)%float in
  let par := (pa * deg2rad)%float in
  let sepr := (sep * deg2rad)%float in
  let c := (pidtwo - decr)%float in
  let bigB := par in
  let a := sepr in
  let b := arccos f (cos f c * cos f a + sin f c * sin f a * cos f bigB)%float in
  let newdec := (pidtwo - b)%float in
  let delalp :=
    arccos f (min2 ((cos f sepr - sin f decr * sin f newdec)
                     / (cos f decr * cos f newdec))%float 1%float) in
  let newra := if (180 <? pa)%float then (rar - delalp)%float
               else (rar + delalp)%float in
  let newra := mod_ f newra twopi in
  ((newra * rad2deg)%float, (newdec * rad2deg)%float).

(** The two numbers the inverse cosine is applied to: the cosine of the
    side [b], which the code passes on as it is, and the ratio for the
    difference in right ascension, which the code passes through
    [np.min([..., 1.0])]. *)
Definition cos_side_b (f : functions) (dec pa sep : float) : float :=
  let deg2rad := (pi / 180)%float in
  let c := (pi / 2 - dec * deg2rad)%float in
  let a := (sep * deg2rad)%float in
  let bigB := (pa * deg2rad)%float in
  (cos f c * cos f a + sin f c * sin f a * cos f bigB)%float.

Definition delalp_ratio (f : functions) (dec pa sep : float) : float :=
  let deg2rad := (pi / 180)%float in
  let decr := (dec * deg2rad)%float in
  let sepr := (sep * deg2rad)%float in
  let newdec := (pi / 2 - arccos f (cos_side_b f dec pa sep))%float in
  ((cos f sepr - sin f decr * sin f newdec)
   / (cos f decr * cos f newdec))%float.

(** The guarantee of the solver as the specification words it: a right
    ascension in [0, 360) and a declination in [-90, 90]. *)
Definition spec_solver_range (radec : float * float) : bool :=
  ((0 <=? radec.1) && (radec.1 <? 360) && (-90 <=? radec.2) && (radec.2 <=? 90))%float.

(** The domain of the inverse cosine; false for a nan. *)
Definition in_domain (x : float) : bool := ((-1 <=? x) && (x <=? 1))%float.

(** What is used of numpy: [np.arccos] gives nan (with a warning, not an
    exception) outside [-1, 1], and [np.cos] and [np.mod] give nan for
    nan. *)
Record nan_rules (f : functions) : Prop := {
  arccos_domain : ∀ x, in_domain x = false → arccos f x = nan;
  cos_nan : cos f nan = nan;
  mod_nan : ∀ y, mod_ f nan y = nan
}.

(** A table of values, looked up by bit pattern; nan elsewhere. *)
Definition tabulated (t : list (float * float)) (x : float) : float :=
  match List.find (λ p, Leibniz.eqb p.1 x) t with
  | Some p => p.2
  | None => nan
  end.

(** The cosines, sines and inverse cosine of the C library (glibc, x86-64)
    at the arguments that the inputs (0, -78, 180, 12) and (0, -89, 180, 5)
    lead to, as Python's [math] module returns them. *)
Definition libm : functions :=
  {| cos := tabulated
       [ (0x1.7750cb50c6e5ap+1, -0x1.f4cfc327a007fp-1);   (* c,    dec = -78 *)
         (0x1.acee9f37bebd6p-3, 0x1.f4cfc327a0080p-1);    (* sepr, sep = 12 *)
         (0x1.921fb54442d18p+1, -1);                      (* par,  pa = 180 *)
         (-0x1.5c81e15d4af9dp+0, 0x1.a9cd9ac4258fap-3);   (* decr, dec = -78 *)
         (0x1.8fe3cc6ff87dep+1, -0x1.ffec097f5af8ap-1);   (* c,    dec = -89 *)
         (0x1.657184ae74487p-4, 0x1.fe0d3b41815a2p-1);    (* sepr, sep = 5 *)
         (-0x1.8da7e39bae2a3p+0, 0x1.1df0b2b89dd37p-6);   (* decr, dec = -89 *)
         (-0x1.80406ea1f0348p+0, 0x1.1db8f6d6a50f3p-4)    (* newdec *)
       ]%float;
     sin := tabulated
       [ (0x1.7750cb50c6e5ap+1, 0x1.a9cd9ac425904p-3);
         (0x1.acee9f37bebd6p-3, 0x1.a9cd9ac4258f6p-3);
         (-0x1.5c81e15d4af9dp+0, -0x1.f4cfc327a007fp-1);
         (0x1.8fe3cc6ff87dep+1, 0x1.1df0b2b89dd09p-6);
         (0x1.657184ae74487p-4, 0x1.64fd6b8c28102p-4);
         (-0x1.8da7e39bae2a3p+0, -0x1.ffec097f5af8ap-1);
         (-0x1.80406ea1f0348p+0, -0x1.fec0b7170fff7p-1)
       ]%float;
     arccos := λ x,
       if in_domain x
       then tabulated [ (-0x1.fec0b7170fff7p-1, 0x1.893011f319830p+1) ]%float x
       else nan;
     mod_ := λ _ _, nan |}.

End binary64.

(** * Properties *)

(** ** Arithmetic of the number model *)

Lemma div_Fin (a b : R) : b ≠ 0 → (np.Fin a / np.Fin b)%f = np.Fin (a / b).
Proof. intros Hb. unfold np.div. by rewrite bool_decide_eq_false_2. Qed.

Lemma mul_comm (a b : np.float64) : (a * b)%f = (b * a)%f.
Proof. destruct a, b; simpl; try done. f_equal; lra. Qed.

Lemma neg_mul_l (a b : np.float64) : (- a * b)%f = (- (a * b))%f.
Proof.
  destruct a as [x| | |], b as [y| | |]; simpl; try done.
  - f_equal; lra.
  - unfold np.scale_inf. rewrite !bool_decide_decide.
    repeat destruct (decide _); simpl; try done; lra.
  - unfold np.scale_inf. rewrite !bool_decide_decide.
    repeat destruct (decide _); simpl; try done; lra.
  - unfold np.scale_inf. rewrite !bool_decide_decide.
    repeat destruct (decide _); simpl; try done; lra.
  - unfold np.scale_inf. rewrite !bool_decide_decide.
    repeat destruct (decide _); simpl; try done; lra.
Qed.

Lemma PI_neq0' : PI ≠ 0.
Proof. pose proof PI_RGT_0. lra. Qed.

Lemma deg2rad_Fin : deg2rad = np.Fin (PI / 180).
Proof. unfold deg2rad, np.pi. apply div_Fin. lra. Qed.

(** ** C4: the single-axis rotation matrix *)

Lemma rotm1_axis0 (ang : np.float64) :
  rotm1 0 ang =
    Ok [[np.Fin 1; np.Fin 0; np.Fin 0];
        [np.Fin 0; np.cos ang; np.sin ang];
        [np.Fin 0; (- np.sin ang)%f; np.cos ang]].
Proof. reflexivity. Qed.

Lemma rotm1_axis1 (ang : np.float64) :
  rotm1 1 ang =
    Ok [[np.cos ang; np.Fin 0; (- np.sin ang)%f];
        [np.Fin 0; np.Fin 1; np.Fin 0];
        [np.sin ang; np.Fin 0; np.cos ang]].
Proof. reflexivity. Qed.

Lemma rotm1_axis2 (ang : np.float64) :
  rotm1 2 ang =
    Ok [[np.cos ang; np.sin ang; np.Fin 0];
        [(- np.sin ang)%f; np.cos ang; np.Fin 0];
        [np.Fin 0; np.Fin 0; np.Fin 1]].
Proof. reflexivity. Qed.

Lemma rotm1_out_of_range (ax : nat) (ang : np.float64) :
  (3 <= ax)%nat → rotm1 ax ang = Raise IndexError.
Proof.
  intros H. unfold rotm1, np.setitem2, np.getitem. simpl.
  destruct ax as [|[|[|ax]]]; try lia. reflexivity.
Qed.

(** C4 (as amended): for an axis index in {0,1,2}, [rotm1] returns the 3x3
    matrix with 1.0 at (ax,ax), the cosine at the two other diagonal entries,
    [+sin] at (n2,n3) and [-sin] at (n3,n2) for n2 = (ax+1) mod 3 and
    n3 = (ax+2) mod 3, and zero elsewhere; [+sin] lies above the diagonal
    exactly when the axis is 0 or 2. *)
Theorem rotm1_entries (ax : nat) (ang : np.float64) :
  (ax < 3)%nat →
  let n2 := ((ax + 1) mod 3)%nat in
  let n3 := ((ax + 2) mod 3)%nat in
  ∃ m, rotm1 ax ang = Ok m ∧
    length m = 3%nat ∧ Forall (λ row, length row = 3%nat) m ∧
    np.getitem2 m ax ax = Ok (np.Fin 1) ∧
    np.getitem2 m n2 n2 = Ok (np.cos ang) ∧
    np.getitem2 m n3 n3 = Ok (np.cos ang) ∧
    np.getitem2 m n2 n3 = Ok (np.sin ang) ∧
    np.getitem2 m n3 n2 = Ok (- np.sin ang)%f ∧
    np.getitem2 m ax n2 = Ok (np.Fin 0) ∧
    np.getitem2 m ax n3 = Ok (np.Fin 0) ∧
    np.getitem2 m n2 ax = Ok (np.Fin 0) ∧
    np.getitem2 m n3 ax = Ok (np.Fin 0) ∧
    ((n2 < n3)%nat ↔ ax ≠ 1%nat).
Proof.
  intros Hax.
  destruct ax as [|[|[|ax]]]; [ | | | lia ]; simpl.
  - eexists. split; [apply rotm1_axis0|].
    repeat split; try reflexivity; try lia; repeat constructor.
  - eexists. split; [apply rotm1_axis1|].
    repeat split; try reflexivity; try lia; repeat constructor.
  - eexists. split; [apply rotm1_axis2|].
    repeat split; try reflexivity; try lia; repeat constructor.
Qed.

Lemma rotm1_entries_witness :
  ∃ m, rotm1 1 (np.Fin 0) = Ok m ∧
    length m = 3%nat ∧ Forall (λ row, length row = 3%nat) m ∧
    np.getitem2 m 1 1 = Ok (np.Fin 1) ∧
    np.getitem2 m 2 2 = Ok (np.cos (np.Fin 0)) ∧
    np.getitem2 m 0 0 = Ok (np.cos (np.Fin 0)) ∧
    np.getitem2 m 2 0 = Ok (np.sin (np.Fin 0)) ∧
    np.getitem2 m 0 2 = Ok (- np.sin (np.Fin 0))%f ∧
    np.getitem2 m 1 2 = Ok (np.Fin 0) ∧
    np.getitem2 m 1 0 = Ok (np.Fin 0) ∧
    np.getitem2 m 2 1 = Ok (np.Fin 0) ∧
    np.getitem2 m 0 1 = Ok (np.Fin 0) ∧
    ((2 < 0)%nat ↔ 1%nat ≠ 1%nat).
Proof. apply (rotm1_entries 1 (np.Fin 0)). lia. Defined.

(** About the axis 1 the positive sine is below the diagonal, at (2,0), and
    the negative sine above it, at (0,2): the specification's placement
    fails there. *)
Lemma rotm1_sine_below_diagonal :
  ¬ spec_sine_above_diagonal 1 (np.Fin (PI / 2)).
Proof.
  intros (m & Hm & H).
  rewrite rotm1_axis1 in Hm. injection Hm as <-.
  destruct (H 0%nat 2%nat) as [H02 _]; [lia | lia | lia |].
  cbv [np.getitem2 np.getitem mbind result_bind lookup list_lookup] in H02.
  simpl in H02. rewrite sin_PI2 in H02.
  injection H02 as H02. lra.
Qed.

(** ** C1 and C9: millimetres to pixels *)

Lemma getitem2_lookup {A} (a : list (list A)) (i j : nat) (x : A) :
  a !! i ≫= (.!! j) = Some x → np.getitem2 a i j = Ok x.
Proof.
  intros H. apply bind_Some in H as (row & Hi & Hj).
  unfold np.getitem2, np.getitem. rewrite Hi. simpl. by rewrite Hj.
Qed.

Lemma getitem3_lookup {A} (a : list (list (list A))) (i j k : nat) (row : list A) :
  a !! i ≫= (.!! j) = Some row → np.getitem3 a i j k = np.getitem row k.
Proof.
  intros H. apply bind_Some in H as (plane & Hi & Hj).
  unfold np.getitem3, np.getitem2, np.getitem. rewrite Hi. simpl. by rewrite Hj.
Qed.

Lemma mm_to_ccdpx_eq (o : Levine_FPG) (icam iccd : nat) (x y : np.float64)
    (g : CCDGeometryParameters) :
  spec_ccd o icam iccd = Some g →
  mm_to_ccdpx o icam iccd [x; y] (np.zeros 2) (np.zeros 2) =
    Ok ([(x - (origin g).1)%f; (y - (origin g).2)%f],
        [(spec_ccd_pixels g (x, y)).1; (spec_ccd_pixels g (x, y)).2]).
Proof.
  unfold spec_ccd. intros H.
  destruct (ccdxy0 o !! icam ≫= (.!! iccd)) as [[|x0 [|y0 [|? ?]]]|] eqn:E1; try done.
  destruct (pixsz o !! icam ≫= (.!! iccd)) as [[|px [|py [|? ?]]]|] eqn:E2; try done.
  destruct (ccdang o !! icam ≫= (.!! iccd)) as [ang|] eqn:E3; try done.
  injection H as <-.
  unfold mm_to_ccdpx.
  rewrite !(getitem3_lookup _ _ _ _ _ E1), !(getitem3_lookup _ _ _ _ _ E2),
    (getitem2_lookup _ _ _ _ E3).
  simpl.
  rewrite neg_mul_l, !(mul_comm (np.cos _)), !(mul_comm (np.sin _)).
  unfold np.sub at 3 6. simpl np.neg.
  replace (- (0.5))%R with (-0.5)%R by lra.
  reflexivity.
Qed.

Lemma of_int_double (z : Z) : np.of_int (2 * z) = (2 * np.of_int z)%f.
Proof. unfold np.of_int. simpl np.mul. f_equal. rewrite mult_IZR. lra. Qed.

Lemma mm_to_pix_quadrant (o : Levine_FPG) (icam : nat) (x y : np.float64)
    (g : CCDGeometryParameters) :
  spec_ccd o icam (spec_quadrant x y) = Some g →
  ∃ ccdpx fitpx, mm_to_pix o icam [x; y] = Ok (spec_quadrant x y, ccdpx, fitpx).
Proof.
  intros H. unfold spec_quadrant in *.
  unfold mm_to_pix. change (np.zeros_like [x; y]) with (np.zeros 2).
  change (np.getitem [x; y] 0) with (Ok x).
  change (np.getitem [x; y] 1) with (Ok y).
  cbn [mbind result_bind].
  destruct (np.ge x 0), (np.ge y 0); cbn [mbind result_bind];
    rewrite (mm_to_ccdpx_eq _ _ _ _ _ _ H); cbn [mbind result_bind];
    eexists _, _; reflexivity.
Qed.

(** C1: for every camera whose CCD parameters the model holds and every
    focal-plane point (x, y), [mm_to_pix] selects the CCD by the quadrant
    of the signs, computes the CCD-local pixel as the point translated by
    the CCD origin, rotated by the CCD angle, divided by the pixel pitch and
    offset by -0.5, and the FITS pixel by the table of the specification. *)
Theorem mm_to_pix_refines_spec (o : Levine_FPG) (icam : nat) (x y : np.float64)
    (g : CCDGeometryParameters) :
  spec_ccd o icam (spec_quadrant x y) = Some g →
  let ccd := spec_ccd_pixels g (x, y) in
  let fits := spec_fits_pixels (spec_quadrant x y) ccd in
  mm_to_pix o icam [x; y] =
    Ok (spec_quadrant x y, [ccd.1; ccd.2], [fits.1; fits.2]).
Proof.
  intros H ccd fits. subst ccd fits. unfold spec_quadrant in *.
  unfold mm_to_pix. change (np.zeros_like [x; y]) with (np.zeros 2).
  change (np.getitem [x; y] 0) with (Ok x).
  change (np.getitem [x; y] 1) with (Ok y).
  cbn [mbind result_bind].
  destruct (np.ge x 0), (np.ge y 0); cbn [mbind result_bind];
    rewrite (mm_to_ccdpx_eq _ _ _ _ _ _ H); cbn [mbind result_bind];
    destruct (spec_ccd_pixels g (x, y)) as [cx cy];
    cbn -[np.add np.sub np.mul np.of_int Z.mul];
    unfold ROWA, ROWB, CCDWD_T, CCDHT_T, COLDK_T; rewrite ?of_int_double; reflexivity.
Qed.

Lemma spec_quadrant_pos (a b : R) :
  0 <= a → 0 <= b → spec_quadrant (np.Fin a) (np.Fin b) = 0%nat.
Proof.
  intros Ha Hb. unfold spec_quadrant, np.ge, np.le.
  by rewrite !bool_decide_eq_true_2.
Qed.

Lemma mm_to_pix_refines_spec_witness :
  ∃ o g, hard_coded_fpg = Some o ∧
    spec_ccd o 0 (spec_quadrant (np.Fin 1) (np.Fin 1)) = Some g ∧
    mm_to_pix o 0 [np.Fin 1; np.Fin 1] =
      Ok (spec_quadrant (np.Fin 1) (np.Fin 1),
          [(spec_ccd_pixels g (np.Fin 1, np.Fin 1)).1;
           (spec_ccd_pixels g (np.Fin 1, np.Fin 1)).2],
          [(spec_fits_pixels (spec_quadrant (np.Fin 1) (np.Fin 1))
              (spec_ccd_pixels g (np.Fin 1, np.Fin 1))).1;
           (spec_fits_pixels (spec_quadrant (np.Fin 1) (np.Fin 1))
              (spec_ccd_pixels g (np.Fin 1, np.Fin 1))).2]).
Proof.
  eexists _, {| origin := (np.Fin 31.573417, np.Fin 31.551637);
                pitch := (np.Fin 0.015000, np.Fin 0.015000);
                angle := np.Fin 179.980833 |}.
  split; [vm_compute; reflexivity|].
  assert (spec_quadrant (np.Fin 1) (np.Fin 1) = 0%nat) as Hq
    by (apply spec_quadrant_pos; lra).
  split.
  - rewrite Hq. vm_compute. reflexivity.
  - apply mm_to_pix_refines_spec. rewrite Hq. vm_compute. reflexivity.
Defined.

Lemma lt_not_ge (a b : np.float64) : np.lt a b = true → np.ge a b = false.
Proof.
  destruct a, b; simpl; try done.
  intros H%bool_decide_eq_true. apply bool_decide_eq_false. lra.
Qed.

(** C9: the quadrant tests of [mm_to_pix] are the non-strict [x >= 0] and
    [y >= 0]: a point with x = 0 lands on CCD 0 when y >= 0 and on CCD 3
    when y < 0, a point with y = 0 on CCD 0 when x >= 0 and on CCD 1 when
    x < 0; a zero coordinate never selects the negative side. *)
Theorem mm_to_pix_zero_counts_as_positive (o : Levine_FPG) (icam : nat)
    (x y : np.float64) (g : CCDGeometryParameters) :
  spec_ccd o icam (spec_quadrant x y) = Some g →
  ∃ iccd ccdpx fitpx,
    mm_to_pix o icam [x; y] = Ok (iccd, ccdpx, fitpx) ∧
    (np.ge x 0 = true ↔ iccd = 0%nat ∨ iccd = 3%nat) ∧
    (np.ge y 0 = true ↔ iccd = 0%nat ∨ iccd = 1%nat) ∧
    (x = np.Fin 0 →
       (np.ge y 0 = true → iccd = 0%nat) ∧ (np.lt y 0 = true → iccd = 3%nat) ∧
       (iccd = 0%nat ∨ iccd = 3%nat)) ∧
    (y = np.Fin 0 →
       (np.ge x 0 = true → iccd = 0%nat) ∧ (np.lt x 0 = true → iccd = 1%nat) ∧
       (iccd = 0%nat ∨ iccd = 1%nat)).
Proof.
  intros H. destruct (mm_to_pix_quadrant _ _ _ _ _ H) as (ccdpx & fitpx & Hr).
  eexists _, _, _. split; [exact Hr|].
  assert (np.ge (np.Fin 0) 0 = true) as H0
    by (apply bool_decide_eq_true; lra).
  clear H. unfold spec_quadrant.
  repeat split.
  - destruct (np.ge x 0), (np.ge y 0); auto; done.
  - destruct (np.ge x 0), (np.ge y 0); intros [|]; done.
  - destruct (np.ge x 0), (np.ge y 0); auto; done.
  - destruct (np.ge x 0), (np.ge y 0); intros [|]; done.
  - subst x. rewrite H0. by intros ->.
  - subst x. rewrite H0. by intros ->%lt_not_ge.
  - subst x. rewrite H0. destruct (np.ge y 0); auto.
  - subst y. rewrite H0. by intros ->.
  - subst y. rewrite H0. by intros ->%lt_not_ge.
  - subst y. rewrite H0. destruct (np.ge x 0); auto.
Qed.

Lemma mm_to_pix_zero_counts_as_positive_witness :
  ∃ o g, hard_coded_fpg = Some o ∧
    spec_ccd o 0 (spec_quadrant (np.Fin 0) (np.Fin 0)) = Some g ∧
    ∃ iccd ccdpx fitpx,
      mm_to_pix o 0 [np.Fin 0; np.Fin 0] = Ok (iccd, ccdpx, fitpx) ∧
      (np.ge (np.Fin 0) 0 = true ↔ iccd = 0%nat ∨ iccd = 3%nat) ∧
      (np.ge (np.Fin 0) 0 = true ↔ iccd = 0%nat ∨ iccd = 1%nat) ∧
      (np.Fin 0 = np.Fin 0 →
         (np.ge (np.Fin 0) 0 = true → iccd = 0%nat) ∧
         (np.lt (np.Fin 0) 0 = true → iccd = 3%nat) ∧
         (iccd = 0%nat ∨ iccd = 3%nat)) ∧
      (np.Fin 0 = np.Fin 0 →
         (np.ge (np.Fin 0) 0 = true → iccd = 0%nat) ∧
         (np.lt (np.Fin 0) 0 = true → iccd = 1%nat) ∧
         (iccd = 0%nat ∨ iccd = 1%nat)).
Proof.
  eexists _, {| origin := (np.Fin 31.573417, np.Fin 31.551637);
                pitch := (np.Fin 0.015000, np.Fin 0.015000);
                angle := np.Fin 179.980833 |}.
  split; [vm_compute; reflexivity|].
  assert (spec_quadrant (np.Fin 0) (np.Fin 0) = 0%nat) as Hq
    by (apply spec_quadrant_pos; lra).
  split.
  - rewrite Hq. vm_compute. reflexivity.
  - eapply (mm_to_pix_zero_counts_as_positive _ 0%nat (np.Fin 0) (np.Fin 0)).
    rewrite Hq. vm_compute. reflexivity.
Defined.

(** ** C5: spherical to Cartesian and back *)



Lemma mod_range (x m : R) : 0 < m → 0 <= x - m * IZR (Zfloor (x / m)) < m.
Proof.
  intros Hm. pose proof (Zfloor_bound (x / m)) as [Hl Hu].
  assert (x = m * (x / m)) as Hx by (field; lra).
  split.
  - apply (Rmult_le_compat_l m) in Hl; lra.
  - apply (Rmult_lt_compat_l m) in Hu; lra.
Qed.








Lemma sphereToCart_Fin (ra dec : R) :
  sphereToCart (np.Fin ra) (np.Fin dec) =
    (np.Fin (cos (PI / 180 * ra) * cos (PI / 180 * dec)),
     np.Fin (sin (PI / 180 * ra) * cos (PI / 180 * dec)),
     np.Fin (sin (PI / 180 * dec))).
Proof. unfold sphereToCart. rewrite deg2rad_Fin. reflexivity. Qed.

Lemma unit_norm (al de : R) :
  0 + cos al * cos de * (cos al * cos de) + sin al * cos de * (sin al * cos de)
    + sin de * sin de = 1.
Proof.
  pose proof (sin2_cos2 al) as Ha. pose proof (sin2_cos2 de) as Hd.
  unfold Rsqr in *. nra.
Qed.





(** ** C3: the solver in double precision *)

(** Arithmetic with nan. *)

Lemma float_add_nan (x : float) : (x + nan)%float = nan.
Proof.
  apply FloatAxioms.Prim2SF_inj. rewrite FloatAxioms.add_spec.
  change (FloatOps.Prim2SF nan) with SpecFloat.S754_nan.
  unfold FloatAxioms.SF64add, SpecFloat.SFadd. by destruct (FloatOps.Prim2SF x).
Qed.

Lemma float_sub_nan (x : float) : (x - nan)%float = nan.
Proof.
  apply FloatAxioms.Prim2SF_inj. rewrite FloatAxioms.sub_spec.
  change (FloatOps.Prim2SF nan) with SpecFloat.S754_nan.
  unfold FloatAxioms.SF64sub, SpecFloat.SFsub. by destruct (FloatOps.Prim2SF x).
Qed.

Lemma float_mul_nan (x : float) : (x * nan)%float = nan.
Proof.
  apply FloatAxioms.Prim2SF_inj. rewrite FloatAxioms.mul_spec.
  change (FloatOps.Prim2SF nan) with SpecFloat.S754_nan.
  unfold FloatAxioms.SF64mul, SpecFloat.SFmul. by destruct (FloatOps.Prim2SF x).
Qed.

Lemma float_div_nan (x : float) : (x / nan)%float = nan.
Proof.
  apply FloatAxioms.Prim2SF_inj. rewrite FloatAxioms.div_spec.
  change (FloatOps.Prim2SF nan) with SpecFloat.S754_nan.
  unfold FloatAxioms.SF64div, SpecFloat.SFdiv. by destruct (FloatOps.Prim2SF x).
Qed.

Lemma libm_nan_rules : binary64.nan_rules binary64.libm.
Proof.
  split.
  - intros x Hx. unfold binary64.libm. cbn [binary64.arccos]. by rewrite Hx.
  - reflexivity.
  - reflexivity.
Qed.

(** C3: [get_radec_from_posangsep] does not keep its results in range.
    The inverse cosine that gives the side [b] has no guard: when its
    argument comes out of the arithmetic outside [-1, 1], both the right
    ascension and the declination returned are nan.  The inverse cosine
    that gives the difference in right ascension is guarded from above
    only, by [np.min([..., 1.0])]: when what [np.min] returns is outside
    [-1, 1], that is below -1 or nan, the right ascension returned is nan.
    No exception is raised in either case. *)
Theorem get_radec_from_posangsep_unguarded (f : binary64.functions) (ra dec pa sep : float) :
  binary64.nan_rules f →
  (binary64.in_domain (binary64.cos_side_b f dec pa sep) = false →
   binary64.get_radec_from_posangsep f ra dec pa sep = (nan, nan)) ∧
  (binary64.in_domain (binary64.min2 (binary64.delalp_ratio f dec pa sep) 1) = false →
   (binary64.get_radec_from_posangsep f ra dec pa sep).1 = nan).
Proof.
  intros [Hdom Hcos Hmod].
  assert (binary64.in_domain (binary64.min2 (binary64.delalp_ratio f dec pa sep) 1)
          = false →
          (binary64.get_radec_from_posangsep f ra dec pa sep).1 = nan) as Hra.
  { intros H. apply Hdom in H.
    unfold binary64.get_radec_from_posangsep. cbn [fst].
    unfold binary64.delalp_ratio, binary64.cos_side_b in H. rewrite H.
    rewrite float_sub_nan, float_add_nan.
    destruct (180 <? pa)%float; by rewrite Hmod. }
  split; [|exact Hra].
  intros H.
  assert (binary64.delalp_ratio f dec pa sep = nan) as Hr.
  { unfold binary64.delalp_ratio. rewrite (Hdom _ H).
    change (binary64.pi / 2 - nan)%float with nan.
    by rewrite Hcos, float_mul_nan, float_div_nan. }
  rewrite (surjective_pairing (binary64.get_radec_from_posangsep f ra dec pa sep)).
  rewrite Hra by (by rewrite Hr).
  f_equal. unfold binary64.get_radec_from_posangsep. cbn [snd].
  unfold binary64.cos_side_b in H. by rewrite (Hdom _ H).
Qed.

Lemma get_radec_from_posangsep_unguarded_witness :
  binary64.get_radec_from_posangsep binary64.libm 0 (-78) 180 12 = (nan, nan) ∧
  (binary64.get_radec_from_posangsep binary64.libm 0 (-89) 180 5).1 = nan.
Proof.
  split.
  - apply (get_radec_from_posangsep_unguarded binary64.libm 0 (-78) 180 12
             libm_nan_rules).
    vm_compute. reflexivity.
  - apply (get_radec_from_posangsep_unguarded binary64.libm 0 (-89) 180 5
             libm_nan_rules).
    vm_compute. reflexivity.
Defined.

(** At (ra, dec, pa, sep) = (0, -78, 180, 12) the sum of products that
    stands for cos(180 degrees) is -1.0000000000000002; at (0, -89, 180, 5)
    the ratio is -1.0000000000000293 and the declination -86.00000000000004. *)
Example cos_side_b_south_12 :
  binary64.cos_side_b binary64.libm (-78) 180 12 = (-0x1.0000000000001p+0)%float.
Proof. vm_compute. reflexivity. Qed.

Example delalp_ratio_south_5 :
  binary64.delalp_ratio binary64.libm (-89) 180 5 = (-0x1.0000000000084p+0)%float
  ∧ (binary64.get_radec_from_posangsep binary64.libm 0 (-89) 180 5).2
    = (-0x1.5800000000003p+6)%float.
Proof. vm_compute. split; reflexivity. Qed.

(** Neither result meets the range the specification promises. *)
Example get_radec_from_posangsep_out_of_range :
  binary64.spec_solver_range
    (binary64.get_radec_from_posangsep binary64.libm 0 (-78) 180 12) = false
  ∧ binary64.spec_solver_range
      (binary64.get_radec_from_posangsep binary64.libm 0 (-89) 180 5) = false.
Proof. vm_compute. split; reflexivity. Qed.

(** ** C8: the polling loop of ticIdSearch *)

Section Polling.

Variable mastQuery : request → nat → reply.
Variable tic : Z.

Let ask (n : nat) : reply := mastQuery (ticIdSearch_request tic) n.

Lemma ticIdSearch_loop_busy (fuel n : nat) :
  (∀ i, (n <= i)%nat → ∃ d, ask i = Reply "EXECUTING" d) →
  ticIdSearch_loop mastQuery tic fuel n = None.
Proof.
  revert n. induction fuel as [|fuel IH]; intros n H; [done|].
  simpl. destruct (H n) as [d Hd]; [lia|]. unfold ask in Hd. rewrite Hd.
  simpl. apply IH. intros i Hi. apply H. lia.
Qed.

Lemma ticIdSearch_loop_exit (fuel n k : nat) (status : string)
    (data : list (gmap string np.float64)) :
  (n <= k)%nat →
  ask k = Reply status data → status ≠ "EXECUTING" →
  (∀ i, (n <= i < k)%nat → ∃ d, ask i = Reply "EXECUTING" d) →
  ticIdSearch_loop mastQuery tic fuel n =
    if decide (k - n < fuel)%nat then Some (Ok (k, data)) else None.
Proof.
  revert n. induction fuel as [|fuel IH]; intros n Hnk Hk Hs Hbusy.
  { cbn [ticIdSearch_loop]. case_decide; [lia|done]. }
  cbn [ticIdSearch_loop]. destruct (decide (n = k)) as [->|Hne].
  - unfold ask in Hk. rewrite Hk.
    apply String.eqb_neq in Hs. rewrite Hs. cbn [negb].
    case_decide; [done|lia].
  - destruct (Hbusy n) as [d Hd]; [lia|]. unfold ask in Hd. rewrite Hd.
    cbn [String.eqb Ascii.eqb Bool.eqb negb].
    rewrite (IH (S n)); [|lia|done|done|intros; apply Hbusy; lia].
    repeat case_decide; try done; lia.
Qed.

Lemma ticIdSearch_loop_sound (fuel n k : nat) (data : list (gmap string np.float64)) :
  ticIdSearch_loop mastQuery tic fuel n = Some (Ok (k, data)) →
  (n <= k)%nat ∧
  (∃ status, ask k = Reply status data ∧ status ≠ "EXECUTING") ∧
  (∀ i, (n <= i < k)%nat → ∃ d, ask i = Reply "EXECUTING" d).
Proof.
  revert n. induction fuel as [|fuel IH]; intros n H; [done|].
  simpl in H. fold (ask n) in H.
  destruct (ask n) as [status d|e] eqn:Hn; [|done].
  destruct (String.eqb status "EXECUTING") eqn:Hs; simpl in H.
  - apply String.eqb_eq in Hs. subst status.
    apply IH in H as (Hle & Hk & Hbusy).
    split; [lia|]. split; [done|].
    intros i Hi. destruct (decide (i = n)) as [->|]; [eauto|].
    apply Hbusy. lia.
  - injection H as <- <-. apply String.eqb_neq in Hs.
    split; [lia|]. split; [eauto|]. intros i Hi. lia.
Qed.

End Polling.

(** C8: the polling loop of [ticIdSearch] leaves through its [break] exactly
    at the first round trip whose status differs from "EXECUTING": it has
    then made that many requests and no more, and it is still running after
    any number of iterations while every status is "EXECUTING"; no count or
    clock bounds it. *)
Theorem ticIdSearch_polls_until_status_differs
    (mastQuery : request → nat → reply) (tic : Z) :
  let ask := mastQuery (ticIdSearch_request tic) in
  (∀ k status data,
     ask k = Reply status data → status ≠ "EXECUTING" →
     (∀ i, (i < k)%nat → ∃ d, ask i = Reply "EXECUTING" d) →
     ∀ fuel, ticIdSearch_loop mastQuery tic fuel 0 =
               if decide (k < fuel)%nat then Some (Ok (k, data)) else None) ∧
  ((∀ i, ∃ d, ask i = Reply "EXECUTING" d) →
     ∀ fuel, ticIdSearch_loop mastQuery tic fuel 0 = None) ∧
  (∀ fuel k data,
     ticIdSearch_loop mastQuery tic fuel 0 = Some (Ok (k, data)) →
     (∃ status, ask k = Reply status data ∧ status ≠ "EXECUTING") ∧
     (∀ i, (i < k)%nat → ∃ d, ask i = Reply "EXECUTING" d)).
Proof.
  intros ask. repeat split.
  - intros k status data Hk Hs Hbusy fuel.
    rewrite (ticIdSearch_loop_exit mastQuery tic fuel 0 k status data);
      [|lia|done|done|intros; apply Hbusy; lia].
    rewrite Nat.sub_0_r. done.
  - intros Hbusy fuel. apply ticIdSearch_loop_busy. intros i _. apply Hbusy.
  - apply ticIdSearch_loop_sound in H as (_ & H & _). done.
  - apply ticIdSearch_loop_sound in H as (_ & _ & H).
    intros i Hi. apply H. lia.
Qed.

Lemma ticIdSearch_polls_until_status_differs_witness :
  (∀ fuel, ticIdSearch_loop archive_after_two 7 fuel 0 =
             if decide (2 < fuel)%nat then Some (Ok (2%nat, [])) else None) ∧
  (∀ fuel, ticIdSearch_loop archive_busy 7 fuel 0 = None).
Proof.
  split.
  - destruct (ticIdSearch_polls_until_status_differs archive_after_two 7)
      as (H & _ & _).
    apply (H 2%nat "COMPLETE" []); [reflexivity|done|].
    intros i Hi. exists []. destruct i as [|[|i]]; [reflexivity|reflexivity|lia].
  - destruct (ticIdSearch_polls_until_status_differs archive_busy 7)
      as (_ & H & _).
    apply H. intros i. by exists [].
Defined.

(** ** Frame rules of the state-and-error monad *)

Section Keeps.

Variable R : World → World → Prop.
Hypothesis R_heap : ∀ w w', heap w' = heap w → R w w'.
Hypothesis R_trans : ∀ w1 w2 w3, R w1 w2 → R w2 w3 → R w1 w3.

Lemma keeps_ret {A} (a : A) : keeps R (mret a : M A).
Proof. intros w. by apply R_heap. Qed.

Lemma keeps_lift {A} (r : result A) : keeps R (lift r).
Proof. intros w. by apply R_heap. Qed.

Lemma keeps_bind {A B} (m : M A) (f : A → M B) :
  keeps R m → (∀ a, keeps R (f a)) → keeps R (m ≫= f).
Proof.
  intros Hm Hf w. specialize (Hm w). unfold mbind, M_bind.
  destruct (m w) as [[a|e] w']; simpl in *; [|done].
  eapply R_trans; [exact Hm|apply Hf].
Qed.

Lemma keeps_for {A} (xs : list A) (body : A → M unit) :
  (∀ x, keeps R (body x)) → keeps R (for_ xs body).
Proof.
  intros H. induction xs as [|x xs IH]; simpl.
  - apply keeps_ret.
  - apply keeps_bind; [apply H|]. intros _. apply IH.
Qed.

Lemma keeps_fold_M {A B} (body : B → A → M B) (xs : list A) (acc : B) :
  (∀ b x, keeps R (body b x)) → keeps R (fold_M body xs acc).
Proof.
  intros H. revert acc. induction xs as [|x xs IH]; intros acc; simpl.
  - apply keeps_ret.
  - apply keeps_bind; [apply H|]. intros b. apply IH.
Qed.

Lemma keeps_try {A} (body handler : M A) :
  keeps R body → keeps R handler → keeps R (try_except body handler).
Proof.
  intros Hb Hh w. specialize (Hb w). unfold try_except.
  destruct (body w) as [[a|e] w']; simpl in *; [done|].
  eapply R_trans; [exact Hb|apply Hh].
Qed.

Lemma keeps_print (line : string) : keeps R (print line).
Proof. intros w. by apply R_heap. Qed.

Lemma keeps_isfile (path : string) : keeps R (os_path_isfile path).
Proof. intros w. by apply R_heap. Qed.

Lemma keeps_genfromtxt (path : string) : keeps R (genfromtxt path).
Proof.
  intros w. unfold genfromtxt. apply R_heap.
  by destruct (files w !! path) as [[?|]|].
Qed.

Lemma keeps_get_parm_dict (icam : nat) : keeps R (get_parm_dict icam).
Proof. intros w. by apply R_heap. Qed.

Lemma keeps_set_parm_dict (icam : nat) (d : gmap string np.float64) :
  keeps R (set_parm_dict icam d).
Proof.
  intros w. unfold set_parm_dict. apply R_heap.
  by destruct (np.setitem _ _ _).
Qed.

Lemma keeps_getattr {A} (self : nat) (field : Levine_FPG → A) :
  keeps R (getattr self field).
Proof. intros w. by apply R_heap. Qed.

Lemma keeps_read_levine_fpg_file (self icam : nat) (fpg_file : string) :
  keeps R (read_levine_fpg_file self icam fpg_file).
Proof.
  unfold read_levine_fpg_file.
  apply keeps_bind; [apply keeps_isfile|]. intros isfile.
  apply keeps_bind.
  - destruct isfile; [|apply keeps_ret].
    apply keeps_try.
    + apply keeps_bind; [apply keeps_genfromtxt|]. intros rows.
      apply keeps_bind; [apply keeps_lift|]. intros n.
      apply keeps_bind; [apply keeps_set_parm_dict|]. intros _.
      apply keeps_bind; [apply keeps_print|]. intros _. apply keeps_ret.
    + apply keeps_bind; [apply keeps_print|]. intros _. apply keeps_ret.
  - intros [gotParm parm_dict].
    destruct gotParm; simpl; [apply keeps_ret|apply keeps_set_parm_dict].
Qed.

(** The attribute writes [R] tolerates. *)
Variable self : nat.
Variable ok : (Levine_FPG → Levine_FPG) → Prop.
Hypothesis R_update : ∀ f, ok f → keeps R (update self f).

Lemma keeps_store1 field set i d key :
  (∀ a, ok (set a)) → keeps R (store1 field set self i d key).
Proof.
  intros Hset. unfold store1.
  apply keeps_bind; [apply keeps_lift|]. intros v.
  apply keeps_bind; [apply keeps_getattr|]. intros a.
  apply keeps_bind; [apply keeps_lift|]. intros a'.
  apply R_update, Hset.
Qed.

Lemma keeps_store2 field set i j d key :
  (∀ a, ok (set a)) → keeps R (store2 field set self i j d key).
Proof.
  intros Hset. unfold store2.
  apply keeps_bind; [apply keeps_lift|]. intros v.
  apply keeps_bind; [apply keeps_getattr|]. intros a.
  apply keeps_bind; [apply keeps_lift|]. intros a'.
  apply R_update, Hset.
Qed.

Lemma keeps_store3 field set i j k d key :
  (∀ a, ok (set a)) → keeps R (store3 field set self i j k d key).
Proof.
  intros Hset. unfold store3.
  apply keeps_bind; [apply keeps_lift|]. intros v.
  apply keeps_bind; [apply keeps_getattr|]. intros a.
  apply keeps_bind; [apply keeps_lift|]. intros a'.
  apply R_update, Hset.
Qed.

Hypothesis ok_eulcam : ∀ a, ok (with_eulcam a).
Hypothesis ok_optcon : ∀ a, ok (with_optcon a).
Hypothesis ok_ccdxy0 : ∀ a, ok (with_ccdxy0 a).
Hypothesis ok_pixsz : ∀ a, ok (with_pixsz a).
Hypothesis ok_ccdang : ∀ a, ok (with_ccdang a).
Hypothesis ok_ccdtilt : ∀ a, ok (with_ccdtilt a).
Hypothesis ok_asymang : ∀ a, ok (with_asymang a).
Hypothesis ok_asymfac : ∀ a, ok (with_asymfac a).

Lemma keeps_read_all_levine_fpg_files (fpg_file_list : option (list string)) :
  keeps R (read_all_levine_fpg_files self fpg_file_list).
Proof.
  unfold read_all_levine_fpg_files.
  apply keeps_bind.
  { apply keeps_for. intros icam.
    apply keeps_bind; [apply keeps_lift|]. intros f.
    apply keeps_read_levine_fpg_file. }
  intros _. apply keeps_for. intros icam.
  apply keeps_bind; [apply keeps_get_parm_dict|]. intros pd.
  repeat (apply keeps_bind;
          [first [by apply keeps_store1 | by apply keeps_store2
                 | by apply keeps_store3]|]; intros _).
  apply keeps_for. intros iccd.
  repeat (apply keeps_bind;
          [first [by apply keeps_store1 | by apply keeps_store2
                 | by apply keeps_store3]|]; intros _).
  by apply keeps_store3.
Qed.

End Keeps.

Lemma others_kept_heap (self : nat) (w w' : World) :
  heap w' = heap w → others_kept self w w'.
Proof. intros H a _. by rewrite H. Qed.

Lemma others_kept_trans (self : nat) (w1 w2 w3 : World) :
  others_kept self w1 w2 → others_kept self w2 w3 → others_kept self w1 w3.
Proof. intros H12 H23 a Ha. by rewrite H23, H12. Qed.

Lemma others_kept_update (self : nat) (f : Levine_FPG → Levine_FPG) :
  True → keeps (others_kept self) (update self f).
Proof.
  intros _ w a Ha. unfold update.
  destruct (heap w !! self); simpl; [|done].
  by apply list_lookup_insert_ne.
Qed.

Lemma pointing_kept_heap (self : nat) (w w' : World) :
  heap w' = heap w → pointing_kept self w w'.
Proof. intros H. unfold pointing_kept. by rewrite H. Qed.

Lemma pointing_kept_trans (self : nat) (w1 w2 w3 : World) :
  pointing_kept self w1 w2 → pointing_kept self w2 w3 → pointing_kept self w1 w3.
Proof. unfold pointing_kept. intros H12 H23. by rewrite H23, H12. Qed.

Lemma pointing_kept_update (self : nat) (f : Levine_FPG → Levine_FPG) :
  (∀ o, havePointing (f o) = havePointing o) →
  keeps (pointing_kept self) (update self f).
Proof.
  intros Hf w. unfold pointing_kept, update.
  destruct (heap w !! self) as [o|] eqn:Ho; simpl; [|by rewrite Ho].
  rewrite list_lookup_insert_eq by (by eapply lookup_lt_Some).
  simpl. by rewrite Hf.
Qed.

Lemma read_all_others_kept (self : nat) (fpg_file_list : option (list string)) :
  keeps (others_kept self) (read_all_levine_fpg_files self fpg_file_list).
Proof.
  apply (keeps_read_all_levine_fpg_files _
           (others_kept_heap self) (others_kept_trans self) self (λ _, True));
    [apply others_kept_update|done..].
Qed.

Lemma read_all_pointing_kept (self : nat) (fpg_file_list : option (list string)) :
  keeps (pointing_kept self) (read_all_levine_fpg_files self fpg_file_list).
Proof.
  apply (keeps_read_all_levine_fpg_files _
           (pointing_kept_heap self) (pointing_kept_trans self) self
           (λ f, ∀ o, havePointing (f o) = havePointing o));
    [apply pointing_kept_update|done..].
Qed.

(** After the allocation, the rest of [__init__] only writes to [self]. *)
Lemma init_body_others_kept (self : nat) (sc_ra_dec_roll : option (list np.float64))
    (fpg_file_list : option (list string)) :
  keeps (others_kept self)
    (_ ← read_all_levine_fpg_files self fpg_file_list;
     _ ← match sc_ra_dec_roll with
         | Some pointing =>
             m ← lift (sky_to_sc_mat pointing);
             _ ← update self (with_rmat1 m);
             _ ← for_ (range NCAM) (λ icam,
                   eul ← getattr self eulcam;
                   cureul ← lift (np.getitem eul icam);
                   rmat2 ← lift (sc_to_cam_mat cureul);
                   r1 ← getattr self rmat1;
                   r4 ← getattr self rmat4;
                   r4 ← lift (np.setitem r4 icam (np.matmul rmat2 r1));
                   update self (with_rmat4 r4));
             update self (with_havePointing true)
         | None => mret ()
         end;
     mret self).
Proof.
  pose proof (others_kept_heap self) as Hh.
  pose proof (others_kept_trans self) as Ht.
  apply (keeps_bind _ Ht); [apply read_all_others_kept|]. intros _.
  apply (keeps_bind _ Ht); [|intros _; apply (keeps_ret _ Hh)].
  destruct sc_ra_dec_roll as [pointing|]; [|apply (keeps_ret _ Hh)].
  apply (keeps_bind _ Ht); [apply (keeps_lift _ Hh)|]. intros m.
  apply (keeps_bind _ Ht); [by apply others_kept_update|]. intros _.
  apply (keeps_bind _ Ht); [|intros _; by apply others_kept_update].
  apply (keeps_for _ Hh Ht). intros icam.
  apply (keeps_bind _ Ht); [apply (keeps_getattr _ Hh)|]. intros eul.
  apply (keeps_bind _ Ht); [apply (keeps_lift _ Hh)|]. intros cureul.
  apply (keeps_bind _ Ht); [apply (keeps_lift _ Hh)|]. intros rmat2.
  apply (keeps_bind _ Ht); [apply (keeps_getattr _ Hh)|]. intros r1.
  apply (keeps_bind _ Ht); [apply (keeps_getattr _ Hh)|]. intros r4.
  apply (keeps_bind _ Ht); [apply (keeps_lift _ Hh)|]. intros r4'.
  by apply others_kept_update.
Qed.

(** ** The class attribute during a construction *)

Lemma read_levine_fpg_file_eq (w : World) (self icam : nat) (fpg_file : string) :
  (icam < length (parm_dict_list w))%nat →
  read_levine_fpg_file self icam fpg_file w =
    (Ok (),
     {| parm_dict_list := <[icam := (table_read w icam fpg_file).1]> (parm_dict_list w);
        heap := heap w; files := files w;
        stdout := stdout w ++ (table_read w icam fpg_file).2 |}).
Proof.
  intros Hi. unfold read_levine_fpg_file, table_read, table_of.
  unfold mbind at 1. unfold M_bind at 1. unfold os_path_isfile at 1.
  destruct (files w !! fpg_file) as [[rows|]|] eqn:Hf.
  - rewrite bool_decide_eq_true_2 by done.
    unfold mbind, M_bind, try_except, genfromtxt, lift, set_parm_dict,
      print, np.setitem.
    rewrite Hf.
    destruct rows as [|r [|r' rows]]; simpl; rewrite ?firstn_all;
      rewrite decide_True by done; reflexivity.
  - rewrite bool_decide_eq_true_2 by done.
    unfold mbind, M_bind, try_except, genfromtxt, set_parm_dict, print, np.setitem.
    rewrite Hf. simpl. rewrite decide_True by done. reflexivity.
  - rewrite bool_decide_eq_false_2 by (by intros [? ?]).
    unfold mbind, M_bind, set_parm_dict, np.setitem. simpl.
    rewrite decide_True by done. by rewrite app_nil_r.
Qed.

Lemma table_read_files (w w' : World) (icam : nat) (f : string) :
  files w' = files w → table_read w' icam f = table_read w icam f.
Proof. intros H. unfold table_read. by rewrite H. Qed.

Lemma tables_kept_ret {A} (a : A) : keeps tables_kept (mret a : M A).
Proof. by intros w. Qed.

Lemma tables_kept_lift {A} (r : result A) : keeps tables_kept (lift r).
Proof. by intros w. Qed.

Lemma tables_kept_bind {A B} (m : M A) (f : A → M B) :
  keeps tables_kept m → (∀ a, keeps tables_kept (f a)) → keeps tables_kept (m ≫= f).
Proof.
  intros Hm Hf w. specialize (Hm w). unfold mbind, M_bind, tables_kept in *.
  destruct (m w) as [[a|e] w']; simpl in *; [|done].
  by rewrite (Hf a w').
Qed.

Lemma tables_kept_for {A} (xs : list A) (body : A → M unit) :
  (∀ x, keeps tables_kept (body x)) → keeps tables_kept (for_ xs body).
Proof.
  intros H. induction xs as [|x xs IH]; simpl.
  - apply tables_kept_ret.
  - apply tables_kept_bind; [apply H|]. intros _. apply IH.
Qed.

Lemma tables_kept_getattr {A} (self : nat) (field : Levine_FPG → A) :
  keeps tables_kept (getattr self field).
Proof. by intros w. Qed.

Lemma tables_kept_get_parm_dict (icam : nat) : keeps tables_kept (get_parm_dict icam).
Proof. by intros w. Qed.

Lemma tables_kept_update (self : nat) (f : Levine_FPG → Levine_FPG) :
  keeps tables_kept (update self f).
Proof. intros w. unfold update, tables_kept. by destruct (heap w !! self). Qed.

Lemma tables_kept_store1 field set self i d key :
  keeps tables_kept (store1 field set self i d key).
Proof.
  unfold store1.
  apply tables_kept_bind; [apply tables_kept_lift|]. intros v.
  apply tables_kept_bind; [apply tables_kept_getattr|]. intros a.
  apply tables_kept_bind; [apply tables_kept_lift|]. intros a'.
  apply tables_kept_update.
Qed.

Lemma tables_kept_store2 field set self i j d key :
  keeps tables_kept (store2 field set self i j d key).
Proof.
  unfold store2.
  apply tables_kept_bind; [apply tables_kept_lift|]. intros v.
  apply tables_kept_bind; [apply tables_kept_getattr|]. intros a.
  apply tables_kept_bind; [apply tables_kept_lift|]. intros a'.
  apply tables_kept_update.
Qed.

Lemma tables_kept_store3 field set self i j k d key :
  keeps tables_kept (store3 field set self i j k d key).
Proof.
  unfold store3.
  apply tables_kept_bind; [apply tables_kept_lift|]. intros v.
  apply tables_kept_bind; [apply tables_kept_getattr|]. intros a.
  apply tables_kept_bind; [apply tables_kept_lift|]. intros a'.
  apply tables_kept_update.
Qed.

(** What follows a computation and leaves the class attribute alone does
    not show in it, whether the computation returns or raises. *)
Lemma tables_after_bind {A B} (m : M A) (f : A → M B) (w : World) :
  (∀ a, keeps tables_kept (f a)) →
  parm_dict_list ((m ≫= f) w).2 = parm_dict_list (m w).2.
Proof.
  intros Hf. unfold mbind, M_bind.
  destruct (m w) as [[a|e] w']; simpl; [apply Hf|done].
Qed.

(** The first loop of [read_all_levine_fpg_files]: camera [icam] gets the
    table read from the [icam]-th file name; the loop stops with
    [IndexError] at the first camera the list has no name for. *)
Lemma read_files_tables (w : World) (self : nat) (names : list string) (icam : nat) :
  length (parm_dict_list w) = NCAM → (icam < NCAM)%nat →
  parm_dict_list
    (for_ (range NCAM) (λ icam,
       fpg_file ← lift (np.getitem names icam);
       read_levine_fpg_file self icam fpg_file) w).2 !! icam =
    match names !! icam with
    | Some fpg_file => Some (table_read w icam fpg_file).1
    | None => parm_dict_list w !! icam
    end.
Proof.
  intros Hl Hi.
  assert (∀ (k : nat) (f : string) (w1 : World) (body : unit → M unit),
            names !! k = Some f → (k < length (parm_dict_list w1))%nat →
            files w1 = files w →
            ((fpg_file ← lift (np.getitem names k);
              read_levine_fpg_file self k fpg_file) ≫= body) w1 =
            body ()
              {| parm_dict_list := <[k := (table_read w k f).1]> (parm_dict_list w1);
                 heap := heap w1; files := files w1;
                 stdout := stdout w1 ++ (table_read w k f).2 |}) as Hstep.
  { intros k f w1 body Hk Hlen Hf.
    unfold mbind at 1. unfold M_bind at 1.
    unfold mbind at 1. unfold M_bind at 1.
    unfold lift at 1, np.getitem at 1. rewrite Hk.
    rewrite (read_levine_fpg_file_eq w1 self k f Hlen).
    by rewrite (table_read_files w w1 k f Hf). }
  assert (∀ (k : nat) (w1 : World) (body : unit → M unit),
            names !! k = None →
            ((fpg_file ← lift (np.getitem names k);
              read_levine_fpg_file self k fpg_file) ≫= body) w1 =
            (Raise IndexError, w1)) as Hstop.
  { intros k w1 body Hk.
    unfold mbind at 1. unfold M_bind at 1.
    unfold mbind at 1. unfold M_bind at 1.
    unfold lift at 1, np.getitem at 1. by rewrite Hk. }
  destruct w as [tables h fs out]. simpl in Hl.
  destruct tables as [|t0 [|t1 [|t2 [|t3 [|? ?]]]]]; try discriminate Hl.
  cbn [range NCAM seq for_].
  destruct names as [|f0 names].
  { rewrite Hstop by done. by destruct icam. }
  rewrite (Hstep 0%nat f0) by (simpl; first [done|lia]).
  destruct names as [|f1 names].
  { rewrite Hstop by done. by destruct icam as [|[|]]. }
  rewrite (Hstep 1%nat f1) by (simpl; first [done|lia]).
  destruct names as [|f2 names].
  { rewrite Hstop by done. by destruct icam as [|[|[|]]]. }
  rewrite (Hstep 2%nat f2) by (simpl; first [done|lia]).
  destruct names as [|f3 names].
  { rewrite Hstop by done. by destruct icam as [|[|[|[|]]]]. }
  rewrite (Hstep 3%nat f3) by (simpl; first [done|lia]).
  destruct icam as [|[|[|[|]]]]; try done. unfold NCAM in Hi. lia.
Qed.

Lemma fill_tables_kept (self : nat) :
  keeps tables_kept
    (for_ (range NCAM) (λ icam,
       pd ← get_parm_dict icam;
       _ ← store2 eulcam with_eulcam self icam 0 pd "ang1_cam1";
       _ ← store2 eulcam with_eulcam self icam 1 pd "ang2_cam1";
       _ ← store2 eulcam with_eulcam self icam 2 pd "ang3_cam1";
       _ ← store2 optcon with_optcon self icam 0 pd "fl_cam1";
       _ ← store2 optcon with_optcon self icam 1 pd "opt_coef1_cam1";
       _ ← store2 optcon with_optcon self icam 2 pd "opt_coef2_cam1";
       _ ← store2 optcon with_optcon self icam 3 pd "opt_coef3_cam1";
       _ ← store2 optcon with_optcon self icam 4 pd "opt_coef4_cam1";
       _ ← store2 optcon with_optcon self icam 5 pd "opt_coef5_cam1";
       _ ← store1 asymang with_asymang self icam pd "asymang_cam1";
       _ ← store1 asymfac with_asymfac self icam pd "asymfac_cam1";
       for_ (range NCCD) (λ iccd,
         _ ← store3 ccdxy0 with_ccdxy0 self icam iccd 0 pd (ccd_key "x0_ccd" (iccd + 1));
         _ ← store3 ccdxy0 with_ccdxy0 self icam iccd 1 pd (ccd_key "y0_ccd" (iccd + 1));
         _ ← store3 pixsz with_pixsz self icam iccd 0 pd (ccd_key "pix_x_ccd" (iccd + 1));
         _ ← store3 pixsz with_pixsz self icam iccd 1 pd (ccd_key "pix_y_ccd" (iccd + 1));
         _ ← store2 ccdang with_ccdang self icam iccd pd (ccd_key "ang_ccd" (iccd + 1));
         _ ← store3 ccdtilt with_ccdtilt self icam iccd 0 pd (ccd_key "tilt_x_ccd" (iccd + 1));
         store3 ccdtilt with_ccdtilt self icam iccd 1 pd (ccd_key "tilt_y_ccd" (iccd + 1))))).
Proof.
  apply tables_kept_for. intros icam.
  apply tables_kept_bind; [apply tables_kept_get_parm_dict|]. intros pd.
  repeat (apply tables_kept_bind;
          [first [apply tables_kept_store1 | apply tables_kept_store2
                 | apply tables_kept_store3]|]; intros _).
  apply tables_kept_for. intros iccd.
  repeat (apply tables_kept_bind;
          [first [apply tables_kept_store1 | apply tables_kept_store2
                 | apply tables_kept_store3]|]; intros _).
  apply tables_kept_store3.
Qed.

(** Setting the pointing writes to [self] only. *)
Lemma point_tables_kept (self : nat) (sc_ra_dec_roll : option (list np.float64)) :
  keeps tables_kept
    (_ ← match sc_ra_dec_roll with
         | Some pointing =>
             m ← lift (sky_to_sc_mat pointing);
             _ ← update self (with_rmat1 m);
             _ ← for_ (range NCAM) (λ icam,
                   eul ← getattr self eulcam;
                   cureul ← lift (np.getitem eul icam);
                   rmat2 ← lift (sc_to_cam_mat cureul);
                   r1 ← getattr self rmat1;
                   r4 ← getattr self rmat4;
                   r4 ← lift (np.setitem r4 icam (np.matmul rmat2 r1));
                   update self (with_rmat4 r4));
             update self (with_havePointing true)
         | None => mret ()
         end;
     mret self).
Proof.
  apply tables_kept_bind; [|intros _; apply tables_kept_ret].
  destruct sc_ra_dec_roll as [pointing|]; [|apply tables_kept_ret].
  apply tables_kept_bind; [apply tables_kept_lift|]. intros m.
  apply tables_kept_bind; [apply tables_kept_update|]. intros _.
  apply tables_kept_bind; [|intros _; apply tables_kept_update].
  apply tables_kept_for. intros icam.
  apply tables_kept_bind; [apply tables_kept_getattr|]. intros eul.
  apply tables_kept_bind; [apply tables_kept_lift|]. intros cureul.
  apply tables_kept_bind; [apply tables_kept_lift|]. intros rmat2.
  apply tables_kept_bind; [apply tables_kept_getattr|]. intros r1.
  apply tables_kept_bind; [apply tables_kept_getattr|]. intros r4.
  apply tables_kept_bind; [apply tables_kept_lift|]. intros r4'.
  apply tables_kept_update.
Qed.

(** ** C7: what a construction leaves unchanged *)

(** C7 (as amended): constructing a Focal Plane Geometry Model leaves the
    instance attributes of every earlier instance (parameter arrays,
    rotation matrices, [havePointing]) as they were, whether or not the
    construction raises.  The class attribute [parm_dict_list], which every
    instance reaches as [self.parm_dict_list], is shared: for each camera
    the file list has a name for, the construction replaces the entry of
    that camera by the table it read (the rows of the file, or the
    hard-coded table when the file is missing, unreadable or holds a single
    row), and it leaves the other entries as they were, again whether or
    not it raises. *)
Theorem Levine_FPG_init_keeps_other_instances (w : World)
    (sc_ra_dec_roll : option (list np.float64))
    (fpg_file_list : option (list string)) (a : nat) :
  (a < length (heap w))%nat →
  heap (Levine_FPG_init sc_ra_dec_roll fpg_file_list w).2 !! a = heap w !! a ∧
  (length (parm_dict_list w) = NCAM →
   ∀ icam, (icam < NCAM)%nat →
     parm_dict_list (Levine_FPG_init sc_ra_dec_roll fpg_file_list w).2 !! icam =
       match default default_fpg_file_list fpg_file_list !! icam with
       | Some fpg_file => Some (table_read w icam fpg_file).1
       | None => parm_dict_list w !! icam
       end).
Proof.
  intros Ha. split.
  - unfold Levine_FPG_init.
    unfold mbind at 1. unfold M_bind at 1. unfold new at 1.
    rewrite (init_body_others_kept (length (heap w)) sc_ra_dec_roll fpg_file_list _ a)
      by lia.
    simpl. by apply lookup_app_l.
  - intros Hl icam Hi. unfold Levine_FPG_init.
    unfold mbind at 1. unfold M_bind at 1. unfold new at 1.
    rewrite tables_after_bind by (intros _; apply point_tables_kept).
    unfold read_all_levine_fpg_files.
    rewrite tables_after_bind by (intros _; apply fill_tables_kept).
    rewrite read_files_tables by done.
    reflexivity.
Qed.

Lemma Levine_FPG_init_keeps_other_instances_witness :
  (0 < length (heap (world_one cal_files)))%nat ∧
  length (parm_dict_list (world_one cal_files)) = NCAM ∧
  heap (Levine_FPG_init (Some [np.Fin 352.6844; np.Fin (-64.8531); np.Fin (-137.8468)])
          (Some cal_file_list) (world_one cal_files)).2 !! 0%nat
  = heap (world_one cal_files) !! 0%nat ∧
  parm_dict_list
    (Levine_FPG_init (Some [np.Fin 352.6844; np.Fin (-64.8531); np.Fin (-137.8468)])
       (Some cal_file_list) (world_one cal_files)).2 !! 0%nat
  = Some (table_of cal_rows).
Proof.
  assert (0 < length (heap (world_one cal_files)))%nat as Ha by (vm_compute; lia).
  assert (length (parm_dict_list (world_one cal_files)) = NCAM) as Hl
    by (vm_compute; reflexivity).
  split; [exact Ha|]. split; [exact Hl|].
  destruct (Levine_FPG_init_keeps_other_instances (world_one cal_files)
              (Some [np.Fin 352.6844; np.Fin (-64.8531); np.Fin (-137.8468)])
              (Some cal_file_list) 0 Ha) as [Hheap Htab].
  split; [exact Hheap|].
  rewrite (Htab Hl 0%nat) by (unfold NCAM; lia).
  vm_compute. reflexivity.
Defined.

Example second_construction_returns :
  (Levine_FPG_init None (Some cal_file_list) (world_one cal_files)).1 = Ok 1%nat.
Proof. vm_compute. reflexivity. Qed.

(** A construction that reads a calibration file changes the class
    attribute seen through the instance built before it. *)
Lemma parm_dict_list_is_shared :
  ¬ spec_no_shared_state (world_one cal_files) None (Some cal_file_list) 0.
Proof.
  unfold spec_no_shared_state. intros H.
  assert (0 < length (heap (world_one cal_files)))%nat as H0 by (vm_compute; lia).
  specialize (H H0).
  apply (f_equal (λ v, v ≫= λ p, p.2 !! 0%nat ≫= (.!! "ang1_cam1"))) in H.
  vm_compute in H. injection H as H. lra.
Qed.

(** ** C6: pixel mapping without a pointing *)

Lemma radec2pix_no_pointing (w : World) (self : nat) (o : Levine_FPG)
    (ras decs : list np.float64) :
  heap w !! self = Some o → havePointing o = false →
  radec2pix self ras decs w =
    (Ok no_pix, said "Spacecraft Pointing Not specified!" w).
Proof.
  intros Ho Hp. unfold radec2pix.
  unfold mbind at 1. unfold M_bind at 1.
  unfold getattr, np.getitem. rewrite Ho. simpl. rewrite Hp. reflexivity.
Qed.

Lemma Levine_FPG_init_no_pointing (w w' : World) (fpg_file_list : option (list string))
    (self : nat) :
  Levine_FPG_init None fpg_file_list w = (Ok self, w') →
  ∃ o, heap w' !! self = Some o ∧ havePointing o = false.
Proof.
  unfold Levine_FPG_init.
  unfold mbind at 1. unfold M_bind at 1. unfold new at 1.
  set (w1 := {| parm_dict_list := parm_dict_list w; heap := heap w ++ [_];
                files := files w; stdout := stdout w |}).
  pose proof (read_all_pointing_kept (length (heap w)) fpg_file_list w1) as Hk.
  unfold mbind at 1. unfold M_bind at 1.
  destruct (read_all_levine_fpg_files (length (heap w)) fpg_file_list w1)
    as [[[]|e] w2]; [|done].
  simpl in *. intros [= <- <-].
  unfold pointing_kept in Hk. subst w1. simpl in Hk.
  rewrite list_lookup_middle in Hk by done. simpl in Hk.
  destruct (heap w2 !! length (heap w)) as [o|]; [|done].
  exists o. split; [done|]. by injection Hk.
Qed.

(** C6: on a Focal Plane Geometry Model constructed without a pointing,
    [radec2pix] prints "Spacecraft Pointing Not specified!" and returns six
    empty arrays for any input arrays; it does not raise. *)
Theorem radec2pix_without_pointing (w w' : World)
    (fpg_file_list : option (list string)) (self : nat)
    (ras decs : list np.float64) :
  Levine_FPG_init None fpg_file_list w = (Ok self, w') →
  radec2pix self ras decs w' =
    (Ok {| inCamera := []; ccdNum := []; fitsxpos := []; fitsypos := [];
           ccdxpos := []; ccdypos := [] |},
     said "Spacecraft Pointing Not specified!" w').
Proof.
  intros (o & Ho & Hp)%Levine_FPG_init_no_pointing.
  by apply (radec2pix_no_pointing _ _ o).
Qed.

Lemma radec2pix_without_pointing_witness :
  Levine_FPG_init None None (at_import ∅) = (Ok 0%nat, world_one ∅) ∧
  radec2pix 0 [np.Fin 352.6844] [np.Fin (-64.8531)] (world_one ∅) =
    (Ok {| inCamera := []; ccdNum := []; fitsxpos := []; fitsypos := [];
           ccdxpos := []; ccdypos := [] |},
     said "Spacecraft Pointing Not specified!" (world_one ∅)).
Proof.
  assert (Levine_FPG_init None None (at_import ∅) = (Ok 0%nat, world_one ∅)) as H
    by (vm_compute; reflexivity).
  split; [exact H|].
  exact (radec2pix_without_pointing _ _ None 0%nat _ _ H).
Defined.

(** ** C10: a sector outside the pointing table *)

Lemma cls_sectors_range (i : nat) (s : Z) :
  cls_sectors !! i = Some s → (1 <= s <= 39)%Z.
Proof.
  unfold cls_sectors. rewrite list_lookup_fmap.
  destruct (seq 1 39 !! i) as [k|] eqn:Hk; [|done].
  apply lookup_seq in Hk as [-> Hi]. intros [= <-]. lia.
Qed.

Lemma where_eq_outside (s : Z) :
  (s < 1 ∨ 39 < s)%Z → where_eq cls_sectors s = [].
Proof.
  intros Hs. unfold where_eq.
  induction (range (length cls_sectors)) as [|i l IH]; [done|].
  rewrite filter_cons_False; [done|].
  intros Hi%cls_sectors_range. lia.
Qed.

(** C10: constructing the pointing catalogue with a [trySector] that is
    not in the table (an integer outside 1..39) does not raise and yields a
    catalogue whose sector, ra, dec and roll arrays are empty and which
    holds no Focal Plane Geometry Model; nothing is constructed or printed. *)
Theorem TESS_Spacecraft_Pointing_Data_init_unknown_sector (w : World)
    (trySector : Z) (fpgParmFileList : option (list string)) :
  (trySector < 1 ∨ 39 < trySector)%Z →
  TESS_Spacecraft_Pointing_Data_init (Some trySector) fpgParmFileList w =
    (Ok {| sectors := []; ras := []; decs := []; rolls := [];
           camRa := [[]; []; []; []]; camDec := [[]; []; []; []];
           fpgObjs := [] |}, w).
Proof.
  intros Hs. unfold TESS_Spacecraft_Pointing_Data_init.
  rewrite (where_eq_outside _ Hs). reflexivity.
Qed.

Lemma TESS_Spacecraft_Pointing_Data_init_unknown_sector_witness :
  TESS_Spacecraft_Pointing_Data_init (Some 40%Z) None (at_import ∅) =
    (Ok {| sectors := []; ras := []; decs := []; rolls := [];
           camRa := [[]; []; []; []]; camDec := [[]; []; []; []];
           fpgObjs := [] |}, at_import ∅).
Proof.
  apply TESS_Spacecraft_Pointing_Data_init_unknown_sector. right. lia.
Defined.


(** A sector of the table keeps exactly its own row and builds one model. *)
Example TESS_Spacecraft_Pointing_Data_init_sector_5 :
  (λ c, (sectors c, fpgObjs c, length <$> camRa c))
    <$> (TESS_Spacecraft_Pointing_Data_init (Some 5%Z) None (at_import ∅)).1
  = Ok ([5%Z], [0%nat], [1%nat; 1%nat; 1%nat; 1%nat]).
Proof. vm_compute. reflexivity. Qed.

(** ** C2: the acceptance window of the sector search *)

Lemma window_test (cx cy : np.float64) :
  np.gt (cx + 45)%f (np.Fin 44) && np.gt (cy + 1)%f (np.of_int 0)
  && np.lt (cx + 45)%f (np.of_int 2093) && np.lt (cy + 1)%f (np.of_int 2049)
  = bool_decide (spec_window cx cy).
Proof.
  destruct cx as [x| | |], cy as [y| | |]; try reflexivity.
  { unfold spec_window, np.gt, np.lt, np.of_int, np.add.
    destruct (decide (44 < x + 45 < 2093 ∧ 0 < y + 1 < 2049)) as [H|H].
    - rewrite (bool_decide_eq_true_2 _ H).
      rewrite !bool_decide_eq_true_2; [done|lra..].
    - rewrite (bool_decide_eq_false_2 _ H).
      rewrite !andb_false_iff, !bool_decide_eq_false.
      destruct (Rlt_dec 44 (x + 45)); [|tauto].
      destruct (Rlt_dec 0 (y + 1)); [|tauto].
      destruct (Rlt_dec (x + 45) 2093); [|tauto].
      right. intros ?. apply H. lra. }
  all: unfold spec_window, np.gt, np.lt, np.of_int, np.add;
    rewrite (bool_decide_eq_false_2 False) by tauto;
    repeat case_bool_decide; reflexivity.
Qed.

Lemma SectFromCoords_hit_eq (curSec : Z) (r : pix_arrays) (findAny : bool)
    (sects : list Z) (jj : nat) (cx cy : np.float64) :
  hits r !! jj = Some (cx, cy) →
  SectFromCoords_hit curSec r (findAny, sects) jj =
    Ok (if decide (spec_window cx cy) then (true, sects ++ [curSec])
        else (findAny, sects)).
Proof.
  unfold hits. intros H.
  apply lookup_zip_with_Some in H as (x & y & [= <- <-] & Hx & Hy).
  unfold SectFromCoords_hit, np.getitem. rewrite Hx, Hy.
  cbn [mbind result_bind]. rewrite window_test.
  rewrite bool_decide_decide. by destruct (decide _).
Qed.

Lemma SectFromCoords_hits_from (curSec : Z) (r : pix_arrays) (k n : nat)
    (findAny : bool) (sects : list Z) :
  (n + k)%nat = length (hits r) →
  fold_result (SectFromCoords_hit curSec r) (seq n k) (findAny, sects) =
    Ok (findAny || bool_decide (Exists (λ p, spec_window p.1 p.2) (drop n (hits r))),
        sects ++ ((λ _, curSec) <$> filter (λ p, spec_window p.1 p.2) (drop n (hits r)))).
Proof.
  revert n findAny sects. induction k as [|k IH]; intros n findAny sects Hn.
  - rewrite drop_ge by lia. cbn [seq fold_result].
    rewrite filter_nil, fmap_nil.
    rewrite bool_decide_eq_false_2 by (by intros ?%Exists_nil).
    by rewrite orb_false_r, app_nil_r.
  - destruct (lookup_lt_is_Some_2 (hits r) n) as [[cx cy] Hjj]; [lia|].
    rewrite (drop_S _ _ _ Hjj). cbn [seq fold_result].
    rewrite (SectFromCoords_hit_eq _ _ _ _ _ _ _ Hjj).
    cbn [mbind result_bind].
    destruct (decide (spec_window cx cy)) as [Hw|Hw].
    + rewrite IH by lia. rewrite filter_cons_True by done.
      rewrite (bool_decide_eq_true_2 (Exists _ (_ :: _)))
        by (by apply Exists_cons_hd).
      rewrite orb_true_r. simpl. by rewrite <- app_assoc.
    + rewrite IH by lia. rewrite filter_cons_False by done.
      do 3 f_equal. apply bool_decide_ext. rewrite Exists_cons. tauto.
Qed.

(** C2: for the hits a sector's pixel mapping returns, the sector number
    is appended to the result list once for every hit with
    44 < ccdX + 45.0 < 2093 and 0 < ccdY + 1.0 < 2049, and for no other. *)
Theorem SectFromCoords_appends_iff_in_window (curSec : Z) (r : pix_arrays)
    (findAny : bool) (sects : list Z) :
  pix_consistent r →
  SectFromCoords_hits curSec r (findAny, sects) =
    Ok (findAny || bool_decide (Exists (λ p, spec_window p.1 p.2) (hits r)),
        sects ++ ((λ _, curSec) <$> filter (λ p, spec_window p.1 p.2) (hits r))).
Proof.
  intros (_ & _ & _ & Hx & Hy). unfold SectFromCoords_hits, range.
  rewrite (SectFromCoords_hits_from curSec r _ 0); [done|].
  unfold hits. rewrite length_zip_with. lia.
Qed.

Lemma SectFromCoords_appends_iff_in_window_witness :
  SectFromCoords_hits 7 two_hits (false, []) = Ok (true, [7%Z]).
Proof.
  rewrite SectFromCoords_appends_iff_in_window by (by repeat split).
  assert (spec_window (np.Fin 0) (np.Fin 0)) as Hin by (simpl; lra).
  assert (¬ spec_window (np.Fin (-45)) (np.Fin 0)) as Hout by (simpl; lra).
  unfold hits, two_hits. cbn [ccdxpos ccdypos zip zip_with].
  rewrite filter_cons_True by done. rewrite filter_cons_False by done.
  rewrite bool_decide_eq_true_2 by (by apply Exists_cons_hd).
  reflexivity.
Defined.

(** The arrays [radec2pix] returns are equally long, so the hypothesis of
    the window theorem holds for every pixel mapping. *)

Lemma bind_Ok {A B} (m : result A) (f : A → result B) (b : B) :
  m ≫= f = Ok b → ∃ a, m = Ok a ∧ f a = Ok b.
Proof. destruct m as [a|e]; [|done]. intros H. by exists a. Qed.

Lemma fold_result_inv {A B} (P : B → Prop) (body : B → A → result B)
    (xs : list A) (acc r : B) :
  (∀ b x b', P b → body b x = Ok b' → P b') →
  P acc → fold_result body xs acc = Ok r → P r.
Proof.
  intros Hbody. revert acc. induction xs as [|x xs IH]; intros acc Hacc H.
  - by injection H as <-.
  - simpl in H. apply bind_Ok in H as (b & Hb & H). eauto.
Qed.

Lemma radec2pix_camera_consistent (o : Levine_FPG) (curVec : list np.float64)
    (acc r : pix_arrays) (j : nat) :
  pix_consistent acc → radec2pix_camera o curVec acc j = Ok r → pix_consistent r.
Proof.
  intros Hacc H. unfold radec2pix_camera in H.
  apply bind_Ok in H as (m & _ & H).
  apply bind_Ok in H as ([lng lat] & _ & H).
  destruct (star_in_fov _ _); [|by injection H as <-].
  apply bind_Ok in H as (xyfp & _ & H).
  apply bind_Ok in H as ([[iccd ccdpx] fitpx] & _ & H).
  apply bind_Ok in H as (f0 & _ & H).
  apply bind_Ok in H as (f1 & _ & H).
  apply bind_Ok in H as (c0 & _ & H).
  apply bind_Ok in H as (c1 & _ & H).
  injection H as <-. destruct Hacc as (H1 & H2 & H3 & H4 & H5).
  unfold pix_consistent. simpl. rewrite !length_app. simpl. lia.
Qed.

Lemma radec2pix_stars_consistent (o : Levine_FPG) (ras decs : list np.float64)
    (r : pix_arrays) :
  radec2pix_stars o ras decs = Ok r → pix_consistent r.
Proof.
  assert (pix_consistent no_pix) as H0 by (by repeat split).
  unfold radec2pix_stars. intros H.
  apply bind_Ok in H as ([[vec0s vec1s] vec2s] & _ & H).
  revert H. apply fold_result_inv; [|done].
  intros b i b' Hb H.
  apply bind_Ok in H as (v0 & _ & H).
  apply bind_Ok in H as (v1 & _ & H).
  apply bind_Ok in H as (v2 & _ & H).
  change (fold_result (radec2pix_camera o [v0; v1; v2]) (range NCAM) b = Ok b')
    in H.
  revert H. apply fold_result_inv; [|done].
  intros ? ? ?. apply radec2pix_camera_consistent.
Qed.

Lemma radec2pix_unfold (w : World) (self : nat) (ras decs : list np.float64) :
  radec2pix self ras decs w =
    match heap w !! self with
    | None => (Raise IndexError, w)
    | Some o =>
        if havePointing o then (radec2pix_stars o ras decs, w)
        else (Ok no_pix, said "Spacecraft Pointing Not specified!" w)
    end.
Proof.
  unfold radec2pix. unfold mbind at 1. unfold M_bind at 1.
  unfold getattr at 1. unfold np.getitem.
  destruct (heap w !! self) as [o|] eqn:Ho; simpl; [|done].
  destruct (havePointing o); [|reflexivity].
  unfold mbind, M_bind, getattr, np.getitem. rewrite Ho. simpl.
  unfold lift. by destruct (radec2pix_stars o ras decs).
Qed.

Lemma radec2pix_consistent (w w' : World) (self : nat) (ras decs : list np.float64)
    (r : pix_arrays) :
  radec2pix self ras decs w = (Ok r, w') → pix_consistent r.
Proof.
  rewrite radec2pix_unfold.
  destruct (heap w !! self) as [o|]; [|done].
  destruct (havePointing o).
  - intros [= H _]. by apply radec2pix_stars_consistent in H.
  - intros [= <- _]. by repeat split.
Qed.

(** The loop over the sectors: [radec2pix] reads the objects and writes
    only to the console, so every sector sees the objects of the world the
    loop started in, and the list grows sector by sector. *)

Lemma radec2pix_heap (w : World) (self : nat) (ras decs : list np.float64) :
  heap (radec2pix self ras decs w).2 = heap w.
Proof.
  rewrite radec2pix_unfold.
  destruct (heap w !! self) as [o|]; [|done]. by destruct (havePointing o).
Qed.

Lemma radec2pix_reads_heap (w1 w2 : World) (self : nat) (ras decs : list np.float64) :
  heap w1 = heap w2 →
  (radec2pix self ras decs w1).1 = (radec2pix self ras decs w2).1.
Proof.
  intros H. rewrite !radec2pix_unfold, H.
  destruct (heap w2 !! self) as [o|]; [|done]. by destruct (havePointing o).
Qed.

Lemma SectFromCoords_sectors_pure (scinfo : TESS_Spacecraft_Pointing_Data)
    (ra dec : np.float64) (w : World) :
  (SectFromCoords_sectors scinfo ra dec w).1 =
    fold_result (λ st (p : nat * Z),
        obj ← np.getitem (fpgObjs scinfo) p.1;
        r ← (radec2pix obj [ra] [dec] w).1;
        SectFromCoords_hits p.2 r st)
      (imap pair (sectors scinfo)) (false, []).
Proof.
  unfold SectFromCoords_sectors.
  generalize (false, @nil Z) as st.
  assert (heap w = heap w) as Hw by done. revert Hw.
  generalize w at 1 3 as w'.
  generalize (imap pair (sectors scinfo)) as ps.
  induction ps as [|[idx sec] ps IH]; intros w' Hw st; [done|].
  cbn [fold_M fold_result fst snd].
  unfold mbind at 1. unfold M_bind at 1.
  unfold mbind at 1. unfold M_bind at 1. unfold lift at 1.
  destruct (np.getitem (fpgObjs scinfo) idx) as [obj|e]; [|done].
  cbn [mbind result_bind].
  unfold mbind at 1. unfold M_bind at 1.
  pose proof (radec2pix_heap w' obj [ra] [dec]) as Hh.
  pose proof (radec2pix_reads_heap w' w obj [ra] [dec] Hw) as Hr.
  destruct (radec2pix obj [ra] [dec] w') as [[r|e] w''];
    simpl in Hh, Hr; rewrite <- Hr; cbn [mbind result_bind]; [|done].
  unfold lift at 1.
  destruct (SectFromCoords_hits sec r st) as [st'|e]; [|done].
  apply IH. congruence.
Qed.

Lemma SectFromCoords_hits_eq (curSec : Z) (r : pix_arrays)
    (findAny : bool) (sects : list Z) :
  pix_consistent r →
  SectFromCoords_hits curSec r (findAny, sects) =
    Ok (findAny || bool_decide (Exists (λ p, spec_window p.1 p.2) (hits r)),
        sects ++ ((λ _, curSec) <$> filter (λ p, spec_window p.1 p.2) (hits r))).
Proof.
  intros (_ & _ & _ & Hx & Hy). unfold SectFromCoords_hits, range.
  rewrite (SectFromCoords_hits_from curSec r _ 0); [done|].
  unfold hits. rewrite length_zip_with. lia.
Qed.

Lemma SectFromCoords_fold_window (scinfo : TESS_Spacecraft_Pointing_Data)
    (ra dec : np.float64) (w : World) (ps : list (nat * Z))
    (findAny0 findAny : bool) (sects0 sects : list Z) :
  fold_result (λ st (p : nat * Z),
      obj ← np.getitem (fpgObjs scinfo) p.1;
      r ← (radec2pix obj [ra] [dec] w).1;
      SectFromCoords_hits p.2 r st) ps (findAny0, sects0) = Ok (findAny, sects) →
  ∃ rs : list pix_arrays,
    Forall2 (λ (p : nat * Z) r, ∃ obj,
        fpgObjs scinfo !! p.1 = Some obj ∧
        (radec2pix obj [ra] [dec] w).1 = Ok r) ps rs ∧
    sects = sects0 ++ mjoin (zip_with (λ (p : nat * Z) r,
        (λ _, p.2) <$> filter (λ h, spec_window h.1 h.2) (hits r)) ps rs).
Proof.
  revert findAny0 sects0. induction ps as [|[idx sec] ps IH]; intros findAny0 sects0 H.
  - injection H as <- <-. exists []. split; [constructor|].
    by rewrite app_nil_r.
  - cbn [fold_result] in H. apply bind_Ok in H as ([fa1 s1] & H1 & H).
    cbn [fst snd] in H1.
    apply bind_Ok in H1 as (obj & Hobj & H1).
    apply bind_Ok in H1 as (r & Hr & H1).
    assert (pix_consistent r) as Hc.
    { destruct (radec2pix obj [ra] [dec] w) as [res w'] eqn:E.
      simpl in Hr. subst res. by eapply radec2pix_consistent. }
    rewrite (SectFromCoords_hits_eq _ _ _ _ Hc) in H1. injection H1 as <- <-.
    apply IH in H as (rs & Hrs & ->).
    exists (r :: rs). split.
    + constructor; [|done]. exists obj. split; [|done].
      unfold np.getitem in Hobj. simpl. by destruct (fpgObjs scinfo !! idx) as [?|]; simplify_eq.
    + simpl. by rewrite <- app_assoc.
Qed.

(** The whole sector loop: the result lists each sector once per hit of
    that sector's pixel mapping inside the window, sectors in table order. *)
Lemma SectFromCoords_sectors_window (scinfo : TESS_Spacecraft_Pointing_Data)
    (ra dec : np.float64) (w : World) (findAny : bool) (sects : list Z) :
  (SectFromCoords_sectors scinfo ra dec w).1 = Ok (findAny, sects) →
  ∃ rs : list pix_arrays,
    Forall2 (λ (p : nat * Z) r, ∃ obj,
        fpgObjs scinfo !! p.1 = Some obj ∧
        (radec2pix obj [ra] [dec] w).1 = Ok r)
      (imap pair (sectors scinfo)) rs ∧
    sects = mjoin (zip_with (λ (p : nat * Z) r,
        (λ _, p.2) <$> filter (λ h, spec_window h.1 h.2) (hits r))
      (imap pair (sectors scinfo)) rs).
Proof.
  rewrite SectFromCoords_sectors_pure. intros H.
  apply SectFromCoords_fold_window in H as (rs & Hrs & ->). by exists rs.
Qed.
(** * Further properties of the geometry *)

Lemma sin_cos_sqr (x : R) : sin x * sin x + cos x * cos x = 1.
Proof. pose proof (sin2_cos2 x) as H. unfold Rsqr in H. lra. Qed.

(** ** xyrotate and make_az_asym *)

Lemma xyrotate_Fin (theta x y : R) :
  xyrotate (np.Fin theta) [np.Fin x; np.Fin y] =
    Ok [np.Fin (cos (PI / 180 * theta) * x + sin (PI / 180 * theta) * y);
        np.Fin (- sin (PI / 180 * theta) * x + cos (PI / 180 * theta) * y)].
Proof. unfold xyrotate. rewrite deg2rad_Fin. reflexivity. Qed.

Lemma setitem2_0 {A} (a b v : A) : np.setitem [a; b] 0 v = Ok [v; b].
Proof. reflexivity. Qed.

Lemma setitem2_1 {A} (a b v : A) : np.setitem [a; b] 1 v = Ok [a; v].
Proof. reflexivity. Qed.

(** ** mm_to_pix_single_ccd *)

Ltac single_ccd_branch H :=
  let Hc := fresh "Hc" in
  let H0 := fresh "H0" in let H1 := fresh "H1" in
  let H2 := fresh "H2" in let H3 := fresh "H3" in
  apply bind_Ok in H as ([? ?] & Hc & H);
  apply bind_Ok in H as (? & H0 & H);
  apply bind_Ok in H as (? & H1 & H);
  apply bind_Ok in H as (? & H2 & H);
  apply bind_Ok in H as (? & H3 & H);
  injection H as <- <- <-;
  repeat match goal with
  | |- context [decide (?a = ?b)] =>
      destruct (decide (a = b)); [try (exfalso; lia)|try (exfalso; lia)]
  end;
  cbn [mbind result_bind mret result_ret];
  rewrite Hc; cbn [mbind result_bind mret result_ret];
  rewrite H0; cbn [mbind result_bind mret result_ret];
  rewrite H1; cbn [mbind result_bind mret result_ret];
  rewrite H2; cbn [mbind result_bind mret result_ret];
  rewrite H3; reflexivity.

Lemma mm_to_pix_single_ccd_selected (o : Levine_FPG) (icam iccd : nat)
    (xy ccdpx fitpx : list np.float64) :
  mm_to_pix o icam xy = Ok (iccd, ccdpx, fitpx) →
  mm_to_pix_single_ccd o icam xy iccd = Ok (ccdpx, fitpx).
Proof.
  unfold mm_to_pix, mm_to_pix_single_ccd. intros H.
  apply bind_Ok in H as (a0 & _ & H).
  destruct (np.ge a0 0); apply bind_Ok in H as (a1 & _ & H);
    destruct (np.ge a1 0); single_ccd_branch H.
Qed.

(** X1: Handing [mm_to_pix_single_ccd] the CCD that [mm_to_pix] selects gives
    the same CCD and FITS pixels. *)
Theorem mm_to_pix_single_ccd_agrees (o : Levine_FPG) (icam iccd : nat)
    (xy ccdpx fitpx : list np.float64) :
  mm_to_pix o icam xy = Ok (iccd, ccdpx, fitpx) →
  mm_to_pix_single_ccd o icam xy iccd = Ok (ccdpx, fitpx).
Proof.
  unfold mm_to_pix, mm_to_pix_single_ccd. intros H.
  apply bind_Ok in H as (a0 & _ & H).
  destruct (np.ge a0 0).
  - apply bind_Ok in H as (a1 & _ & H).
    destruct (np.ge a1 0); single_ccd_branch H.
  - apply bind_Ok in H as (a1 & _ & H).
    destruct (np.ge a1 0); single_ccd_branch H.
Qed.

Lemma mm_to_pix_single_ccd_agrees_witness :
  ∃ o, hard_coded_fpg = Some o ∧ ∃ ccdpx fitpx,
    mm_to_pix o 0 [np.Fin 1; np.Fin 1] = Ok (0%nat, ccdpx, fitpx) ∧
    mm_to_pix_single_ccd o 0 [np.Fin 1; np.Fin 1] 0 = Ok (ccdpx, fitpx).
Proof.
  eexists. split; [vm_compute; reflexivity|].
  match goal with |- ∃ _ _, mm_to_pix ?o _ _ = _ ∧ _ =>
    edestruct (mm_to_pix_quadrant o 0%nat (np.Fin 1) (np.Fin 1))
      as (ccdpx & fitpx & Hr);
      [rewrite spec_quadrant_pos by lra; vm_compute; reflexivity|]
  end.
  rewrite spec_quadrant_pos in Hr by lra.
  exists ccdpx, fitpx. split; [exact Hr|].
  apply (mm_to_pix_single_ccd_agrees _ _ _ _ _ _ Hr).
Defined.

(** X2: An [iccd] outside 0..3 matches none of the four blocks: the zero-filled
    arrays come back and nothing is raised. *)
Theorem mm_to_pix_single_ccd_no_such_ccd (o : Levine_FPG) (icam iccd : nat)
    (xy : list np.float64) :
  (4 <= iccd)%nat →
  mm_to_pix_single_ccd o icam xy iccd = Ok (np.zeros_like xy, np.zeros_like xy).
Proof.
  intros H. unfold mm_to_pix_single_ccd.
  repeat (case_decide; [lia|]). reflexivity.
Qed.

Lemma mm_to_pix_single_ccd_no_such_ccd_witness :
  ∃ o, hard_coded_fpg = Some o ∧
    mm_to_pix_single_ccd o 0 [np.Fin 1; np.Fin 1] 4 = Ok ([np.Fin 0; np.Fin 0], [np.Fin 0; np.Fin 0]).
Proof.
  eexists. split; [vm_compute; reflexivity|].
  apply (mm_to_pix_single_ccd_no_such_ccd _ 0%nat 4%nat [np.Fin 1; np.Fin 1]). lia.
Defined.
(** ** Unit vectors and their angles *)

Lemma sum_nan (v : list np.float64) : foldl np.add np.NaN v = np.NaN.
Proof. induction v as [|a v IH]; [done|]. simpl. exact IH. Qed.

Lemma sum_with_nan (v : list np.float64) (acc : np.float64) :
  np.NaN ∈ v → foldl np.add acc v = np.NaN.
Proof.
  revert acc. induction v as [|a v IH]; intros acc H.
  - by apply elem_of_nil in H.
  - apply elem_of_cons in H as [<-|H]; simpl.
    + replace (acc + np.NaN)%f with np.NaN by (by destruct acc). apply sum_nan.
    + by apply IH.
Qed.

(** X3: a [nan] component is not propagated: whatever the length of the
    vector, [cartToSphere] returns the angles (0, 0) without raising. *)
Theorem cartToSphere_nan_component (vec : list np.float64) :
  np.NaN ∈ vec → cartToSphere vec = Ok (np.Fin 0, np.Fin 0).
Proof.
  intros H. unfold cartToSphere, np.sum.
  rewrite sum_with_nan; [done|].
  unfold np.mul_arr. apply list_elem_of_lookup in H as (i & Hi).
  apply list_elem_of_lookup. exists i.
  rewrite lookup_zip_with, Hi. done.
Qed.

Lemma cartToSphere_nan_component_witness :
  cartToSphere [np.Fin 1; np.NaN; np.Fin 0] = Ok (np.Fin 0, np.Fin 0).
Proof.
  apply (cartToSphere_nan_component [np.Fin 1; np.NaN; np.Fin 0]).
  apply list_elem_of_lookup. by exists 1%nat.
Defined.

(** ** The field of view *)

Lemma sqrt_unit (al de : R) :
  np.sqrt (np.Fin (0 + cos al * cos de * (cos al * cos de)
                   + sin al * cos de * (sin al * cos de) + sin de * sin de))
  = np.Fin 1.
Proof.
  rewrite unit_norm. unfold np.sqrt.
  rewrite bool_decide_eq_true_2 by lra. by rewrite sqrt_1.
Qed.

(** ** The optics model *)

Lemma sum_finite (v : list np.float64) (acc : R) :
  Forall finite v → finite (foldl np.add (np.Fin acc) v).
Proof.
  revert acc. induction v as [|a v IH]; intros acc H; [by exists acc|].
  apply Forall_cons in H as [[r ->] H]. simpl. by apply IH.
Qed.

Lemma mul_arr_finite (u v : list np.float64) :
  Forall finite u → Forall finite v → Forall finite (np.mul_arr u v).
Proof.
  intros Hu. revert v. induction Hu as [|a u [r ->] Hu IH]; intros v Hv; [constructor|].
  destruct Hv as [|b v [s ->] Hv]; [constructor|].
  constructor; [by eexists|by apply IH].
Qed.

Lemma power_finite (t : R) (n : nat) : finite (np.power (np.Fin t) n).
Proof. destruct n; by eexists. Qed.

Lemma make_az_asym_origin (o : Levine_FPG) (icam : nat) (a f x y : R) :
  asymang o !! icam = Some (np.Fin a) →
  asymfac o !! icam = Some (np.Fin f) → x = 0 → y = 0 →
  make_az_asym o icam [np.Fin x; np.Fin y] = Ok [np.Fin 0; np.Fin 0].
Proof.
  intros Ha Hf -> ->.
  unfold make_az_asym, np.getitem. rewrite Ha, Hf.
  cbn [mbind result_bind]. rewrite xyrotate_Fin.
  cbn -[xyrotate]. rewrite setitem2_0. cbn [mbind result_bind].
  rewrite setitem2_1. cbn [mbind result_bind]. rewrite xyrotate_Fin.
  cbn [mbind result_bind mret result_ret].
  do 2 f_equal; [|f_equal]; f_equal; ring.
Qed.

Lemma tan_colat_90 :
  np.tan (np.pi / 2 - np.Fin 90 * np.Fin (PI / 180))%f = np.Fin 0.
Proof.
  pose proof PI_RGT_0 as Hpi.
  unfold np.pi. rewrite div_Fin by lra.
  cbn [np.mul np.sub np.neg np.add].
  replace (PI / 2 + - (90 * (PI / 180))) with 0 by lra.
  unfold np.tan, np.sin, np.cos.
  rewrite sin_0, cos_0, div_Fin by lra. f_equal. lra.
Qed.

(** Where the tangent of the angle from the boresight vanishes, the
    radial distance and with it both coordinates vanish. *)
Lemma optics_fp_zero_tangent (o : Levine_FPG) (icam : nat) (lng lat : R)
    (row : list np.float64) (a f : R) :
  optcon o !! icam = Some row → row ≠ [] → Forall finite row →
  asymang o !! icam = Some (np.Fin a) →
  asymfac o !! icam = Some (np.Fin f) →
  np.tan (np.pi / 2 - np.Fin lat * np.Fin (PI / 180))%f = np.Fin 0 →
  optics_fp o icam (np.Fin lng) (np.Fin lat) = Ok [np.Fin 0; np.Fin 0].
Proof.
  intros Hrow Hne Hfin Ha Hf Htan.
  unfold optics_fp. rewrite deg2rad_Fin.
  assert (np.getitem (optcon o) icam = Ok row) as ->
    by (unfold np.getitem; by rewrite Hrow).
  cbn [mbind result_bind].
  destruct row as [|c0 row]; [done|].
  apply Forall_cons in Hfin as [[c ->] Hfin].
  change (np.getitem (np.Fin c :: row) 0) with (Ok (np.Fin c)).
  cbn [mbind result_bind]. rewrite Htan.
  match goal with |- context [np.sum ?v] =>
    destruct (sum_finite v 0) as [r Hr] end.
  { apply mul_arr_finite; [done|].
    apply Forall_fmap, Forall_forall. intros i _. apply power_finite. }
  unfold np.sum at 1 2. rewrite Hr.
  cbn [np.mul np.neg np.cos np.sin].
  change (np.zeros 2) with [np.Fin 0; np.Fin 0].
  rewrite setitem2_0. cbn [mbind result_bind].
  rewrite setitem2_1. cbn [mbind result_bind].
  apply (make_az_asym_origin _ _ _ _ _ _ Ha Hf); ring.
Qed.

(** X4: the boresight (latitude 90 degrees, any finite longitude) is
    imaged at the origin of the focal plane, for every camera whose optics
    and asymmetry parameters are finite numbers. *)
Theorem optics_fp_boresight (o : Levine_FPG) (icam : nat) (lng : R)
    (row : list np.float64) (a f : R) :
  optcon o !! icam = Some row → row ≠ [] → Forall finite row →
  asymang o !! icam = Some (np.Fin a) →
  asymfac o !! icam = Some (np.Fin f) →
  optics_fp o icam (np.Fin lng) (np.Fin 90) = Ok [np.Fin 0; np.Fin 0].
Proof.
  intros Hrow Hne Hfin Ha Hf. pose proof PI_RGT_0 as Hpi.
  apply (optics_fp_zero_tangent o icam lng 90 row a f); try done.
  unfold np.pi. rewrite div_Fin by lra.
  cbn [np.mul np.sub np.neg np.add].
  replace (PI / 2 + - (90 * (PI / 180))) with 0 by lra.
  unfold np.tan, np.sin, np.cos.
  rewrite sin_0, cos_0, div_Fin by lra. f_equal. lra.
Qed.

Lemma optics_fp_boresight_witness :
  ∃ o, hard_coded_fpg = Some o ∧
    optics_fp o 0 (np.Fin 30) (np.Fin 90) = Ok [np.Fin 0; np.Fin 0].
Proof.
  eexists. split; [vm_compute; reflexivity|].
  eapply (optics_fp_boresight _ 0%nat 30).
  - vm_compute. reflexivity.
  - done.
  - repeat constructor; by eexists.
  - vm_compute. reflexivity.
  - vm_compute. reflexivity.
Defined.

(** ** Rotation matrices *)

Lemma matvec_mat33 (a11 a12 a13 a21 a22 a23 a31 a32 a33 x y z : R) :
  np.matvec (mat33 a11 a12 a13 a21 a22 a23 a31 a32 a33)
            [np.Fin x; np.Fin y; np.Fin z]
  = [np.Fin (a11 * x + a12 * y + a13 * z);
     np.Fin (a21 * x + a22 * y + a23 * z);
     np.Fin (a31 * x + a32 * y + a33 * z)].
Proof.
  cbn. repeat f_equal; lra.
Qed.

Lemma matmul_mat33 (a11 a12 a13 a21 a22 a23 a31 a32 a33
                    b11 b12 b13 b21 b22 b23 b31 b32 b33 : R) :
  np.matmul (mat33 a11 a12 a13 a21 a22 a23 a31 a32 a33)
            (mat33 b11 b12 b13 b21 b22 b23 b31 b32 b33)
  = mat33 (a11 * b11 + a12 * b21 + a13 * b31) (a11 * b12 + a12 * b22 + a13 * b32)
          (a11 * b13 + a12 * b23 + a13 * b33)
          (a21 * b11 + a22 * b21 + a23 * b31) (a21 * b12 + a22 * b22 + a23 * b32)
          (a21 * b13 + a22 * b23 + a23 * b33)
          (a31 * b11 + a32 * b21 + a33 * b31) (a31 * b12 + a32 * b22 + a33 * b32)
          (a31 * b13 + a32 * b23 + a33 * b33).
Proof.
  cbn. unfold mat33. repeat f_equal; lra.
Qed.

Lemma isometry_matmul (a b : list (list np.float64)) :
  isometry a → isometry b → isometry (np.matmul a b).
Proof.
  intros (a11 & a12 & a13 & a21 & a22 & a23 & a31 & a32 & a33 & -> & Ha)
         (b11 & b12 & b13 & b21 & b22 & b23 & b31 & b32 & b33 & -> & Hb).
  rewrite matmul_mat33. eexists _, _, _, _, _, _, _, _, _.
  split; [reflexivity|]. intros x y z.
  rewrite <- (Hb x y z).
  rewrite <- (Ha (b11 * x + b12 * y + b13 * z) (b21 * x + b22 * y + b23 * z)
                 (b31 * x + b32 * y + b33 * z)).
  ring.
Qed.

Lemma rotm1_isometry (ax : nat) (ang : R) :
  (ax < 3)%nat → ∃ m, rotm1 ax (np.Fin ang) = Ok m ∧ isometry m.
Proof.
  intros Hax. pose proof (sin_cos_sqr ang) as Hsc.
  destruct ax as [|[|[|ax]]]; [| | |lia].
  - rewrite rotm1_axis0. eexists. split; [reflexivity|].
    exists 1, 0, 0, 0, (cos ang), (sin ang), 0, (- sin ang), (cos ang).
    split; [reflexivity|]. intros x y z.
    transitivity (x * x + (sin ang * sin ang + cos ang * cos ang) * (y * y + z * z));
      [ring|rewrite Hsc; ring].
  - rewrite rotm1_axis1. eexists. split; [reflexivity|].
    exists (cos ang), 0, (- sin ang), 0, 1, 0, (sin ang), 0, (cos ang).
    split; [reflexivity|]. intros x y z.
    transitivity (y * y + (sin ang * sin ang + cos ang * cos ang) * (x * x + z * z));
      [ring|rewrite Hsc; ring].
  - rewrite rotm1_axis2. eexists. split; [reflexivity|].
    exists (cos ang), (sin ang), 0, (- sin ang), (cos ang), 0, 0, 0, 1.
    split; [reflexivity|]. intros x y z.
    transitivity (z * z + (sin ang * sin ang + cos ang * cos ang) * (x * x + y * y));
      [ring|rewrite Hsc; ring].
Qed.

Lemma eulerm323_isometry (e0 e1 e2 : R) :
  ∃ m, eulerm323 [np.Fin e0; np.Fin e1; np.Fin e2] = Ok m ∧ isometry m.
Proof.
  destruct (rotm1_isometry 2 e0) as (m0 & H0 & I0); [lia|].
  destruct (rotm1_isometry 1 e1) as (m1 & H1 & I1); [lia|].
  destruct (rotm1_isometry 2 e2) as (m2 & H2 & I2); [lia|].
  unfold eulerm323.
  change (np.getitem _ 0) with (Ok (np.Fin e0)).
  change (np.getitem _ 1) with (Ok (np.Fin e1)).
  change (np.getitem _ 2) with (Ok (np.Fin e2)).
  cbn [mbind result_bind]. rewrite H0. cbn [mbind result_bind].
  rewrite H1. cbn [mbind result_bind]. rewrite H2. cbn [mbind result_bind].
  eexists. split; [reflexivity|].
  by repeat apply isometry_matmul.
Qed.

Lemma sky_to_sc_mat_Fin (ra dec roll : R) :
  sky_to_sc_mat [np.Fin ra; np.Fin dec; np.Fin roll] =
    eulerm323 [np.Fin (PI / 180 * ra); np.Fin (PI / 2 + - (PI / 180 * dec));
               np.Fin (PI / 180 * roll + PI)].
Proof.
  unfold sky_to_sc_mat. rewrite deg2rad_Fin. unfold np.pi.
  rewrite div_Fin by lra. reflexivity.
Qed.

Lemma sc_to_cam_mat_Fin (e0 e1 e2 : R) :
  sc_to_cam_mat [np.Fin e0; np.Fin e1; np.Fin e2] =
    eulerm323 [np.Fin (PI / 180 * e0); np.Fin (PI / 180 * e1); np.Fin (PI / 180 * e2)].
Proof. unfold sc_to_cam_mat. rewrite deg2rad_Fin. reflexivity. Qed.

Lemma vec3_eq (x y z x' y' z' : R) :
  x = x' → y = y' → z = z' →
  [np.Fin x; np.Fin y; np.Fin z] = [np.Fin x'; np.Fin y'; np.Fin z'].
Proof. by intros -> -> ->. Qed.

(** ** radec2pix *)








(** *** Badly shaped arguments *)

Lemma io_ret {A} (a : A) : index_only (Ok a).
Proof. intros e. discriminate. Qed.

Lemma io_bind {A B} (m : result A) (f : A → result B) :
  index_only m → (∀ a, index_only (f a)) → index_only (m ≫= f).
Proof.
  intros Hm Hf e. destruct m as [a|e']; simpl.
  - apply Hf.
  - intros [= <-]. by apply Hm.
Qed.

Lemma io_getitem {A} (a : list A) (i : nat) : index_only (np.getitem a i).
Proof. unfold np.getitem. intros e. destruct (a !! i); congruence. Qed.

Lemma io_setitem {A} (a : list A) (i : nat) (x : A) : index_only (np.setitem a i x).
Proof. unfold np.setitem. intros e. case_decide; congruence. Qed.

Ltac io :=
  repeat first
    [ apply io_ret
    | apply io_getitem
    | apply io_setitem
    | apply io_bind; [|intros ?]
    | match goal with
      | |- index_only (mret _) => apply io_ret
      | |- index_only (let '(_, _) := ?x in _) => destruct x
      | |- index_only (if ?b then _ else _) => destruct b
      end ].

Lemma io_cartToSphere (vec : list np.float64) : index_only (cartToSphere vec).
Proof. unfold cartToSphere. io. Qed.

Lemma io_radec2pix_camera (o : Levine_FPG) (curVec : list np.float64)
    (acc : pix_arrays) (j : nat) :
  index_only (radec2pix_camera o curVec acc j).
Proof.
  unfold radec2pix_camera. io. apply io_cartToSphere.
Qed.

Lemma io_fold_result {A B} (body : B → A → result B) (xs : list A) (acc : B) :
  (∀ b x, index_only (body b x)) → index_only (fold_result body xs acc).
Proof.
  intros H. revert acc. induction xs as [|x xs IH]; intros acc; [apply io_ret|].
  cbn [fold_result]. apply io_bind; [apply H|apply IH].
Qed.

Lemma broadcast2_mismatch (op : np.float64 → np.float64 → np.float64)
    (u v : list np.float64) :
  length u ≠ length v → length u ≠ 1%nat → length v ≠ 1%nat →
  broadcast2 op u v = Raise ValueError.
Proof.
  intros H Hu Hv. unfold broadcast2. case_decide; [done|].
  destruct u as [|a [|a' u]], v as [|b [|b' v]]; done.
Qed.

(** X6: [radec2pix] on a model with its pointing set raises
    [ValueError] when the two arrays differ in length and neither holds
    exactly one value; it changes nothing and prints nothing. *)
Theorem radec2pix_length_mismatch (w : World) (self : nat) (o : Levine_FPG)
    (ras decs : list np.float64) :
  heap w !! self = Some o → havePointing o = true →
  length ras ≠ length decs → length ras ≠ 1%nat → length decs ≠ 1%nat →
  radec2pix self ras decs w = (Raise ValueError, w).
Proof.
  intros Ho Hp Hl Hr Hd. rewrite radec2pix_unfold, Ho, Hp. f_equal.
  unfold radec2pix_stars, sphereToCart_arr, np.scale.
  rewrite (broadcast2_mismatch np.mul (np.cos <$> _)); [reflexivity|..];
    by rewrite !length_fmap.
Qed.

Lemma world_pointed_object :
  ∃ o, heap world_pointed !! 0%nat = Some o ∧ havePointing o = true.
Proof.
  assert (havePointing <$> heap world_pointed !! 0%nat = Some true) as H
    by (vm_compute; reflexivity).
  destruct (heap world_pointed !! 0%nat) as [o|]; [|discriminate].
  exists o. split; [done|]. by injection H.
Qed.

Lemma radec2pix_length_mismatch_witness :
  radec2pix 0 [np.Fin 1; np.Fin 2] [np.Fin 1; np.Fin 2; np.Fin 3] world_pointed
  = (Raise ValueError, world_pointed).
Proof.
  destruct world_pointed_object as (o & Ho & Hp).
  by apply (radec2pix_length_mismatch _ _ o).
Defined.

(** X7: with the pointing set, one declination does not broadcast over
    several right ascensions: the star loop runs past the end of the
    one-element sine array and [radec2pix] raises [IndexError]. *)
Theorem radec2pix_single_dec (w : World) (self : nat) (o : Levine_FPG)
    (ras : list np.float64) (dec : np.float64) :
  heap w !! self = Some o → havePointing o = true → (2 <= length ras)%nat →
  radec2pix self ras [dec] w = (Raise IndexError, w).
Proof.
  intros Ho Hp Hl. rewrite radec2pix_unfold, Ho, Hp. f_equal.
  destruct ras as [|r0 [|r1 ras]]; [simpl in Hl; lia..|].
  unfold radec2pix_stars, sphereToCart_arr, broadcast2, np.scale.
  cbn [fmap list_fmap length].
  do 2 (case_decide; [done|]). cbn [mbind result_bind mret result_ret].
  cbn [range seq length fold_result].
  change (np.getitem (?x :: _) 0) with (Ok x).
  cbn [mbind result_bind].
  match goal with |- context [fold_result (radec2pix_camera o ?v) ?js ?acc] =>
    pose proof (io_fold_result (radec2pix_camera o v) js acc
                  (λ b x, io_radec2pix_camera o v b x)) as Hio;
    destruct (fold_result (radec2pix_camera o v) js acc) as [b|e]
  end.
  - cbn [mbind result_bind]. reflexivity.
  - cbn [mbind result_bind]. f_equal. by apply Hio.
Qed.

Lemma radec2pix_single_dec_witness :
  radec2pix 0 [np.Fin 1; np.Fin 2] [np.Fin 3] world_pointed
  = (Raise IndexError, world_pointed).
Proof.
  destruct world_pointed_object as (o & Ho & Hp).
  apply (radec2pix_single_dec _ _ o); [done|done|simpl; lia].
Defined.

(** X8: one right ascension with several declinations is not an error:
    the star loop runs once, so every declination after the first is
    ignored. *)
Theorem radec2pix_single_ra (w : World) (self : nat)
    (ra dec : np.float64) (decs : list np.float64) :
  radec2pix self [ra] (dec :: decs) w = radec2pix self [ra] [dec] w.
Proof.
  rewrite !radec2pix_unfold.
  destruct (heap w !! self) as [o|]; [|done].
  destruct (havePointing o); [|done]. f_equal.
  destruct decs as [|dec' decs]; [done|].
  unfold radec2pix_stars, sphereToCart_arr, broadcast2, np.scale.
  cbn [fmap list_fmap length].
  do 2 (case_decide; [done|]). reflexivity.
Qed.

(** ** A star on the axis of a camera *)

Lemma mm_to_pix_spec (o : Levine_FPG) (icam : nat) (x y : np.float64)
    (g : CCDGeometryParameters) :
  spec_ccd o icam (spec_quadrant x y) = Some g →
  mm_to_pix o icam [x; y] =
    Ok (spec_quadrant x y,
        [(spec_ccd_pixels g (x, y)).1; (spec_ccd_pixels g (x, y)).2],
        [(spec_fits_pixels (spec_quadrant x y) (spec_ccd_pixels g (x, y))).1;
         (spec_fits_pixels (spec_quadrant x y) (spec_ccd_pixels g (x, y))).2]).
Proof.
  intros H. unfold spec_quadrant in *.
  unfold mm_to_pix. change (np.zeros_like [x; y]) with (np.zeros 2).
  change (np.getitem [x; y] 0) with (Ok x).
  change (np.getitem [x; y] 1) with (Ok y).
  cbn [mbind result_bind].
  destruct (np.ge x 0), (np.ge y 0); cbn [mbind result_bind];
    rewrite (mm_to_ccdpx_eq _ _ _ _ _ _ H); cbn [mbind result_bind];
    destruct (spec_ccd_pixels g (x, y)) as [cx cy];
    cbn -[np.add np.sub np.mul np.of_int Z.mul];
    unfold ROWA, ROWB, CCDWD_T, CCDHT_T, COLDK_T; rewrite ?of_int_double; reflexivity.
Qed.

Lemma cartToSphere_axis :
  cartToSphere [np.Fin 0; np.Fin 0; np.Fin 1] = Ok (np.Fin 0, np.Fin (PI / 2)).
Proof.
  unfold cartToSphere.
  change (np.sum (np.mul_arr _ _)) with (np.Fin (0 + 0 * 0 + 0 * 0 + 1 * 1)).
  replace (0 + 0 * 0 + 0 * 0 + 1 * 1) with 1 by lra.
  unfold np.sqrt. rewrite bool_decide_eq_true_2 by lra. rewrite sqrt_1.
  unfold np.gt, np.lt. rewrite bool_decide_eq_true_2 by lra.
  change (np.getitem _ 2) with (Ok (np.Fin 1)).
  change (np.getitem _ 0) with (Ok (np.Fin 0)).
  change (np.getitem _ 1) with (Ok (np.Fin 0)).
  cbn [mbind result_bind]. rewrite div_Fin by lra.
  replace (1 / 1) with 1 by lra.
  unfold np.arcsin. rewrite bool_decide_eq_true_2 by lra. rewrite asin_1.
  unfold np.eqb. rewrite bool_decide_eq_true_2 by done. reflexivity.
Qed.

Lemma star_in_fov_boresight (lng : R) : star_in_fov (np.Fin lng) (np.Fin 90) = true.
Proof.
  pose proof PI_RGT_0 as Hpi.
  unfold star_in_fov.
  unfold np.gt at 1. unfold np.lt. rewrite bool_decide_eq_true_2 by lra.
  rewrite sphereToCart_Fin.
  set (g := PI / 180 * lng).
  change (np.sum (np.mul_arr _ _)) with
    (np.Fin (0 + cos g * cos (PI / 180 * 90) * (cos g * cos (PI / 180 * 90))
             + sin g * cos (PI / 180 * 90) * (sin g * cos (PI / 180 * 90))
             + sin (PI / 180 * 90) * sin (PI / 180 * 90))).
  rewrite sqrt_unit.
  unfold np.gt, np.lt. rewrite bool_decide_eq_true_2 by lra.
  replace (PI / 180 * 90) with (PI / 2) by lra. rewrite cos_PI2, sin_PI2.
  cbn [np.div_scalar fmap list_fmap].
  rewrite !div_Fin by lra.
  rewrite deg2rad_Fin. cbn [np.abs np.arctan np.mul np.le].
  replace (cos g * 0 / 1 / (1 / 1)) with 0 by lra.
  replace (sin g * 0 / 1 / (1 / 1)) with 0 by lra.
  rewrite atan_0, Rabs_R0.
  rewrite bool_decide_eq_true_2 by lra. reflexivity.
Qed.

(** A star that a camera's matrix sends to the camera axis is reported, on
    CCD 1 and at the pixel of the focal-plane origin. *)
Lemma radec2pix_camera_on_axis (o : Levine_FPG) (j : nat)
    (curVec : list np.float64) (m : list (list np.float64))
    (row : list np.float64) (a f : R) (g : CCDGeometryParameters)
    (acc : pix_arrays) :
  rmat4 o !! j = Some m → np.matvec m curVec = [np.Fin 0; np.Fin 0; np.Fin 1] →
  optcon o !! j = Some row → row ≠ [] → Forall finite row →
  asymang o !! j = Some (np.Fin a) → asymfac o !! j = Some (np.Fin f) →
  spec_ccd o j 0 = Some g →
  let ccd := spec_ccd_pixels g (np.Fin 0, np.Fin 0) in
  let fits := spec_fits_pixels 0 ccd in
  radec2pix_camera o curVec acc j =
    Ok {| inCamera := inCamera acc ++ [(j + 1)%nat];
          ccdNum := ccdNum acc ++ [1%nat];
          fitsxpos := fitsxpos acc ++ [fits.1];
          fitsypos := fitsypos acc ++ [fits.2];
          ccdxpos := ccdxpos acc ++ [ccd.1];
          ccdypos := ccdypos acc ++ [ccd.2] |}.
Proof.
  intros Hm Hv Hrow Hne Hfin Ha Hf Hg ccd fits. pose proof PI_RGT_0 as Hpi.
  unfold radec2pix_camera.
  assert (np.getitem (rmat4 o) j = Ok m) as ->
    by (unfold np.getitem; by rewrite Hm).
  cbn [mbind result_bind]. rewrite Hv, cartToSphere_axis.
  cbn [mbind result_bind]. rewrite deg2rad_Fin.
  rewrite !div_Fin by lra.
  replace (PI / 2 / (PI / 180)) with 90 by (field; lra).
  rewrite star_in_fov_boresight.
  rewrite (optics_fp_zero_tangent o j _ 90 row a f Hrow Hne Hfin Ha Hf tan_colat_90).
  cbn [mbind result_bind].
  assert (spec_quadrant (np.Fin 0) (np.Fin 0) = 0%nat) as Hq
    by (apply spec_quadrant_pos; lra).
  rewrite <- Hq in Hg. rewrite (mm_to_pix_spec _ _ _ _ _ Hg), Hq.
  reflexivity.
Qed.

(** X9: [radec2pix_nocheck_single] agrees with [radec2pix]: when the
    pass of the camera loop for camera [j] reports a star, calling
    [radec2pix_nocheck_single] for that camera and the reported CCD returns
    the same CCD number and the same four pixel coordinates. *)
Theorem radec2pix_nocheck_single_agrees (o : Levine_FPG) (ra dec v0 v1 v2 : np.float64)
    (j n : nat) (acc : pix_arrays) (f0 f1 c0 c1 : np.float64) :
  sphereToCart ra dec = (v0, v1, v2) →
  radec2pix_camera o [v0; v1; v2] acc j =
    Ok {| inCamera := inCamera acc ++ [(j + 1)%nat];
          ccdNum := ccdNum acc ++ [n];
          fitsxpos := fitsxpos acc ++ [f0];
          fitsypos := fitsypos acc ++ [f1];
          ccdxpos := ccdxpos acc ++ [c0];
          ccdypos := ccdypos acc ++ [c1] |} →
  ∃ lat, radec2pix_nocheck_single o ra dec j (n - 1) = Ok (n, f0, f1, c0, c1, lat).
Proof.
  intros Hv H. unfold radec2pix_nocheck_single. rewrite Hv.
  unfold radec2pix_camera in H.
  apply bind_Ok in H as (m & -> & H). cbn [mbind result_bind].
  apply bind_Ok in H as ([lng lat] & -> & H). cbn [mbind result_bind].
  destruct (star_in_fov _ _).
  - apply bind_Ok in H as (xyfp & -> & H). cbn [mbind result_bind].
    apply bind_Ok in H as ([[iccd ccdpx] fitpx] & Hpix & H).
    apply bind_Ok in H as (f0' & Hf0 & H).
    apply bind_Ok in H as (f1' & Hf1 & H).
    apply bind_Ok in H as (c0' & Hc0 & H).
    apply bind_Ok in H as (c1' & Hc1 & H).
    injection H as Hn H0 H1 H2 H3.
    apply app_inj_tail in Hn as [_ <-]. apply app_inj_tail in H0 as [_ <-].
    apply app_inj_tail in H1 as [_ <-]. apply app_inj_tail in H2 as [_ <-].
    apply app_inj_tail in H3 as [_ <-].
    replace (iccd + 1 - 1)%nat with iccd by lia.
    rewrite (mm_to_pix_single_ccd_selected _ _ _ _ _ _ Hpix).
    cbn [mbind result_bind]. rewrite Hf0, Hf1, Hc0, Hc1.
    eexists. reflexivity.
  - injection H as H. apply (f_equal inCamera) in H. simpl in H.
    apply (f_equal length) in H. rewrite length_app in H. simpl in H. lia.
Qed.

Lemma looking_up_on_axis (o : Levine_FPG) (j : nat) (lng : R) :
  (j < 4)%nat →
  ∃ m, rmat4 (looking_up o) !! j = Some m ∧
    ∀ v0 v1 v2, sphereToCart (np.Fin lng) (np.Fin 90) = (v0, v1, v2) →
      np.matvec m [v0; v1; v2] = [np.Fin 0; np.Fin 0; np.Fin 1].
Proof.
  intros Hj. exists (mat33 1 0 0 0 1 0 0 0 1). split.
  - unfold looking_up. cbn [rmat4 with_rmat4 with_havePointing]. by apply lookup_replicate_2.
  - intros v0 v1 v2. rewrite sphereToCart_Fin. intros [= <- <- <-].
    rewrite matvec_mat33.
    replace (PI / 180 * 90) with (PI / 2) by lra. rewrite cos_PI2, sin_PI2.
    apply vec3_eq; lra.
Qed.

Lemma radec2pix_nocheck_single_agrees_witness :
  ∃ o, hard_coded_fpg = Some o ∧
    ∃ f0 f1 c0 c1 lat,
      radec2pix_nocheck_single (looking_up o) (np.Fin 0) (np.Fin 90) 0 (1 - 1)
      = Ok (1%nat, f0, f1, c0, c1, lat).
Proof.
  eexists. split; [vm_compute; reflexivity|].
  match goal with |- ∃ _ _ _ _ _, radec2pix_nocheck_single (looking_up ?o) _ _ _ _ = _ =>
    destruct (looking_up_on_axis o 0 0) as (m & Hm & Hv); [lia|];
    destruct (sphereToCart (np.Fin 0) (np.Fin 90)) as [[v0 v1] v2] eqn:Hs;
    eexists _, _, _, _;
    eapply (radec2pix_nocheck_single_agrees (looking_up o) _ _ v0 v1 v2 0 1 no_pix);
      [exact Hs|];
    eapply (radec2pix_camera_on_axis _ 0 _ m);
      [exact Hm|by apply Hv|vm_compute; reflexivity|done
      |repeat constructor; by eexists|vm_compute; reflexivity
      |vm_compute; reflexivity|vm_compute; reflexivity]
  end.
Defined.

(** ** Shapes: item assignment never reshapes an array *)

Lemma setitem_inv {A} (a a' : list A) (i : nat) (x : A) :
  np.setitem a i x = Ok a' → a' = <[i := x]> a.
Proof. unfold np.setitem. case_decide; congruence. Qed.

Lemma getitem_inv {A} (a : list A) (i : nat) (x : A) :
  np.getitem a i = Ok x → a !! i = Some x.
Proof. unfold np.getitem. destruct (a !! i); congruence. Qed.

Lemma setitem_length {A} (a a' : list A) (i : nat) (x : A) :
  np.setitem a i x = Ok a' → length a' = length a.
Proof. intros ->%setitem_inv. apply length_insert. Qed.

Lemma setitem_shape2 {A} (n m : nat) (a a' : list (list A)) (i : nat) (row : list A) :
  shape2 n m a → length row = m → np.setitem a i row = Ok a' → shape2 n m a'.
Proof.
  intros [Hn Hm] Hrow ->%setitem_inv. split.
  - by rewrite length_insert.
  - by apply Forall_insert.
Qed.

Lemma setitem2_shape2 {A} (n m : nat) (a a' : list (list A)) (i j : nat) (x : A) :
  shape2 n m a → np.setitem2 a i j x = Ok a' → shape2 n m a'.
Proof.
  intros Ha H. unfold np.setitem2 in H.
  apply bind_Ok in H as (row & Hrow%getitem_inv & H).
  apply bind_Ok in H as (row' & Hrow' & H).
  apply (setitem_shape2 n m a a' i row'); [done| |done].
  rewrite (setitem_length _ _ _ _ Hrow').
  destruct Ha as [_ Ha]. rewrite Forall_lookup in Ha. by eapply Ha.
Qed.

Lemma setitem3_shape3 {A} (n m k : nat) (a a' : list (list (list A)))
    (i j l : nat) (x : A) :
  shape3 n m k a → np.setitem3 a i j l x = Ok a' → shape3 n m k a'.
Proof.
  intros [Hn Ha] H. unfold np.setitem3 in H.
  apply bind_Ok in H as (plane & Hp%getitem_inv & H).
  apply bind_Ok in H as (plane' & Hp' & ->%setitem_inv).
  split; [by rewrite length_insert|].
  apply Forall_insert; [done|].
  apply (setitem2_shape2 m k plane plane' j l x); [|done].
  rewrite Forall_lookup in Ha. by eapply Ha.
Qed.

Lemma stays_shaped_heap (self : nat) (w w' : World) :
  heap w' = heap w → stays_shaped self w w'.
Proof. intros H. unfold stays_shaped. by rewrite H. Qed.

Lemma stays_shaped_trans (self : nat) (w1 w2 w3 : World) :
  stays_shaped self w1 w2 → stays_shaped self w2 w3 → stays_shaped self w1 w3.
Proof. unfold stays_shaped. auto. Qed.

Lemma stays_shaped_store1 (self : nat) (field : Levine_FPG → list np.float64)
    (set : list np.float64 → Levine_FPG → Levine_FPG)
    (i : nat) (d : gmap string np.float64) (key : string) :
  (∀ o a v, shaped o → np.setitem (field o) i v = Ok a → shaped (set a o)) →
  keeps (stays_shaped self) (store1 field set self i d key).
Proof.
  intros Hset w (o & Ho & Hs).
  unfold store1, mbind, M_bind, lift, getattr, update.
  destruct (dict_get d key) as [v|e]; simpl; [|by exists o].
  unfold np.getitem. rewrite Ho. simpl.
  destruct (np.setitem (field o) i v) as [a|e] eqn:Ha; simpl; [|by exists o].
  eexists. split.
  - apply list_lookup_insert_eq. by eapply lookup_lt_Some.
  - by eapply Hset.
Qed.

Lemma stays_shaped_store2 (self : nat) (field : Levine_FPG → list (list np.float64))
    (set : list (list np.float64) → Levine_FPG → Levine_FPG)
    (i j : nat) (d : gmap string np.float64) (key : string) :
  (∀ o a v, shaped o → np.setitem2 (field o) i j v = Ok a → shaped (set a o)) →
  keeps (stays_shaped self) (store2 field set self i j d key).
Proof.
  intros Hset w (o & Ho & Hs).
  unfold store2, mbind, M_bind, lift, getattr, update.
  destruct (dict_get d key) as [v|e]; simpl; [|by exists o].
  unfold np.getitem. rewrite Ho. simpl.
  destruct (np.setitem2 (field o) i j v) as [a|e] eqn:Ha; simpl; [|by exists o].
  eexists. split.
  - apply list_lookup_insert_eq. by eapply lookup_lt_Some.
  - by eapply Hset.
Qed.

Lemma stays_shaped_store3 (self : nat) (field : Levine_FPG → list (list (list np.float64)))
    (set : list (list (list np.float64)) → Levine_FPG → Levine_FPG)
    (i j k : nat) (d : gmap string np.float64) (key : string) :
  (∀ o a v, shaped o → np.setitem3 (field o) i j k v = Ok a → shaped (set a o)) →
  keeps (stays_shaped self) (store3 field set self i j k d key).
Proof.
  intros Hset w (o & Ho & Hs).
  unfold store3, mbind, M_bind, lift, getattr, update.
  destruct (dict_get d key) as [v|e]; simpl; [|by exists o].
  unfold np.getitem. rewrite Ho. simpl.
  destruct (np.setitem3 (field o) i j k v) as [a|e] eqn:Ha; simpl; [|by exists o].
  eexists. split.
  - apply list_lookup_insert_eq. by eapply lookup_lt_Some.
  - by eapply Hset.
Qed.


Lemma shaped_eulcam (o : Levine_FPG) a :
  shaped o → shape2 NCAM 3 a → shaped (with_eulcam a o).
Proof.
  unfold shaped. intros (?&?&?&?&?&?&?&?&?&?) Ha.
  repeat (split; [assumption|]). assumption.
Qed.

Lemma shaped_optcon (o : Levine_FPG) a :
  shaped o → shape2 NCAM 6 a → shaped (with_optcon a o).
Proof.
  unfold shaped. intros (?&?&?&?&?&?&?&?&?&?) Ha.
  repeat (split; [assumption|]). assumption.
Qed.

Lemma shaped_ccdxy0 (o : Levine_FPG) a :
  shaped o → shape3 NCAM NCCD 2 a → shaped (with_ccdxy0 a o).
Proof.
  unfold shaped. intros (?&?&?&?&?&?&?&?&?&?) Ha.
  repeat (split; [assumption|]). assumption.
Qed.

Lemma shaped_pixsz (o : Levine_FPG) a :
  shaped o → shape3 NCAM NCCD 2 a → shaped (with_pixsz a o).
Proof.
  unfold shaped. intros (?&?&?&?&?&?&?&?&?&?) Ha.
  repeat (split; [assumption|]). assumption.
Qed.

Lemma shaped_ccdang (o : Levine_FPG) a :
  shaped o → shape2 NCAM NCCD a → shaped (with_ccdang a o).
Proof.
  unfold shaped. intros (?&?&?&?&?&?&?&?&?&?) Ha.
  repeat (split; [assumption|]). assumption.
Qed.

Lemma shaped_ccdtilt (o : Levine_FPG) a :
  shaped o → shape3 NCAM NCCD 2 a → shaped (with_ccdtilt a o).
Proof.
  unfold shaped. intros (?&?&?&?&?&?&?&?&?&?) Ha.
  repeat (split; [assumption|]). assumption.
Qed.

Lemma shaped_asymang (o : Levine_FPG) a :
  shaped o → (λ a, length a = NCAM) a → shaped (with_asymang a o).
Proof.
  unfold shaped. intros (?&?&?&?&?&?&?&?&?&?) Ha.
  repeat (split; [assumption|]). assumption.
Qed.

Lemma shaped_asymfac (o : Levine_FPG) a :
  shaped o → (λ a, length a = NCAM) a → shaped (with_asymfac a o).
Proof.
  unfold shaped. intros (?&?&?&?&?&?&?&?&?&?) Ha.
  repeat (split; [assumption|]). assumption.
Qed.

Lemma shaped_rmat1 (o : Levine_FPG) a :
  shaped o → shape2 3 3 a → shaped (with_rmat1 a o).
Proof.
  unfold shaped. intros (?&?&?&?&?&?&?&?&?&?) Ha.
  repeat (split; [assumption|]). assumption.
Qed.

Lemma shaped_rmat4 (o : Levine_FPG) a :
  shaped o → shape3 NCAM 3 3 a → shaped (with_rmat4 a o).
Proof.
  unfold shaped. intros (?&?&?&?&?&?&?&?&?&?) Ha.
  repeat (split; [assumption|]). assumption.
Qed.

Lemma shaped_havePointing (o : Levine_FPG) (b : bool) :
  shaped o → shaped (with_havePointing b o).
Proof. done. Qed.

Lemma stays_shaped_read_all (self : nat) (fpg_file_list : option (list string)) :
  keeps (stays_shaped self) (read_all_levine_fpg_files self fpg_file_list).
Proof.
  pose proof (stays_shaped_heap self) as Hh.
  pose proof (stays_shaped_trans self) as Ht.
  assert (∀ i j d key, keeps (stays_shaped self)
            (store2 eulcam with_eulcam self i j d key)) as He.
  { intros. apply stays_shaped_store2. intros o a v Ho Ha.
    apply shaped_eulcam; [done|]. eapply setitem2_shape2; [|done]. apply Ho. }
  assert (∀ i j d key, keeps (stays_shaped self)
            (store2 optcon with_optcon self i j d key)) as Hop.
  { intros. apply stays_shaped_store2. intros o a v Ho Ha.
    apply shaped_optcon; [done|]. eapply setitem2_shape2; [|done]. apply Ho. }
  assert (∀ i d key, keeps (stays_shaped self)
            (store1 asymang with_asymang self i d key)) as Haa.
  { intros. apply stays_shaped_store1. intros o a v Ho Ha.
    apply shaped_asymang; [done|]. rewrite (setitem_length _ _ _ _ Ha). apply Ho. }
  assert (∀ i d key, keeps (stays_shaped self)
            (store1 asymfac with_asymfac self i d key)) as Haf.
  { intros. apply stays_shaped_store1. intros o a v Ho Ha.
    apply shaped_asymfac; [done|]. rewrite (setitem_length _ _ _ _ Ha). apply Ho. }
  assert (∀ i j k d key, keeps (stays_shaped self)
            (store3 ccdxy0 with_ccdxy0 self i j k d key)) as Hxy.
  { intros. apply stays_shaped_store3. intros o a v Ho Ha.
    apply shaped_ccdxy0; [done|]. eapply setitem3_shape3; [|done]. apply Ho. }
  assert (∀ i j k d key, keeps (stays_shaped self)
            (store3 pixsz with_pixsz self i j k d key)) as Hpx.
  { intros. apply stays_shaped_store3. intros o a v Ho Ha.
    apply shaped_pixsz; [done|]. eapply setitem3_shape3; [|done]. apply Ho. }
  assert (∀ i j d key, keeps (stays_shaped self)
            (store2 ccdang with_ccdang self i j d key)) as Han.
  { intros. apply stays_shaped_store2. intros o a v Ho Ha.
    apply shaped_ccdang; [done|]. eapply setitem2_shape2; [|done]. apply Ho. }
  assert (∀ i j k d key, keeps (stays_shaped self)
            (store3 ccdtilt with_ccdtilt self i j k d key)) as Hti.
  { intros. apply stays_shaped_store3. intros o a v Ho Ha.
    apply shaped_ccdtilt; [done|]. eapply setitem3_shape3; [|done]. apply Ho. }
  unfold read_all_levine_fpg_files.
  apply (keeps_bind _ Ht).
  { apply (keeps_for _ Hh Ht). intros icam.
    apply (keeps_bind _ Ht); [apply (keeps_lift _ Hh)|]. intros f.
    apply (keeps_read_levine_fpg_file _ Hh Ht). }
  intros _. apply (keeps_for _ Hh Ht). intros icam.
  apply (keeps_bind _ Ht); [apply (keeps_get_parm_dict _ Hh)|]. intros pd.
  repeat (apply (keeps_bind _ Ht); [done|]; intros _).
  apply (keeps_for _ Hh Ht). intros iccd.
  repeat (apply (keeps_bind _ Ht); [done|]; intros _).
  done.
Qed.

Lemma matmul_shape {A : Type} (a b : list (list np.float64)) (n : nat) :
  length a = n → shape2 n (length (default [] (head b))) (np.matmul a b).
Proof.
  intros Ha. unfold np.matmul. split; [by rewrite length_fmap|].
  apply Forall_fmap, Forall_forall. intros row _. simpl.
  by rewrite length_fmap, length_seq.
Qed.

Lemma rotm1_shape (ax : nat) (ang : np.float64) (m : list (list np.float64)) :
  rotm1 ax ang = Ok m → shape2 3 3 m.
Proof.
  destruct ax as [|[|[|ax]]].
  - rewrite rotm1_axis0. intros [= <-]. split; [done|]. by repeat constructor.
  - rewrite rotm1_axis1. intros [= <-]. split; [done|]. by repeat constructor.
  - rewrite rotm1_axis2. intros [= <-]. split; [done|]. by repeat constructor.
  - rewrite rotm1_out_of_range by lia. done.
Qed.

Lemma shape2_head {A} (n m : nat) (a : list (list A)) :
  shape2 (S n) m a → length (default [] (head a)) = m.
Proof.
  intros [Hn Ha]. destruct a as [|row a]; [done|].
  by apply Forall_cons in Ha as [Hrow _].
Qed.

Lemma eulerm323_shape (eul : list np.float64) (m : list (list np.float64)) :
  eulerm323 eul = Ok m → shape2 3 3 m.
Proof.
  unfold eulerm323. intros H.
  apply bind_Ok in H as (e0 & _ & H).
  apply bind_Ok in H as (mat1 & H1%rotm1_shape & H).
  apply bind_Ok in H as (e1 & _ & H).
  apply bind_Ok in H as (mat2 & H2%rotm1_shape & H).
  apply bind_Ok in H as (e2 & _ & H).
  apply bind_Ok in H as (mat3 & H3%rotm1_shape & H).
  injection H as <-.
  pose proof (matmul_shape (A:=unit) mat2 mat1 3 (proj1 H2)) as Ha.
  rewrite (shape2_head _ _ _ H1) in Ha.
  pose proof (matmul_shape (A:=unit) mat3 (np.matmul mat2 mat1) 3 (proj1 H3)) as Hb.
  by rewrite (shape2_head _ _ _ Ha) in Hb.
Qed.

Lemma sky_to_sc_mat_shape (p : list np.float64) (m : list (list np.float64)) :
  sky_to_sc_mat p = Ok m → shape2 3 3 m.
Proof.
  unfold sky_to_sc_mat. intros H.
  do 6 (apply bind_Ok in H as (? & _ & H)).
  by apply eulerm323_shape in H.
Qed.

Lemma stays_shaped_update (self : nat) (f : Levine_FPG → Levine_FPG) :
  (∀ o, shaped o → shaped (f o)) → keeps (stays_shaped self) (update self f).
Proof.
  intros Hf w (o & Ho & Hs). unfold update. rewrite Ho. simpl.
  eexists. split.
  - apply list_lookup_insert_eq. by eapply lookup_lt_Some.
  - by apply Hf.
Qed.

(** The pass of the camera loop of [__init__] that fills [rmat4]. *)
Lemma stays_shaped_camera_matrix (self icam : nat) :
  keeps (stays_shaped self)
    (eul ← getattr self eulcam;
     cureul ← lift (np.getitem eul icam);
     rmat2 ← lift (sc_to_cam_mat cureul);
     r1 ← getattr self rmat1;
     r4 ← getattr self rmat4;
     r4 ← lift (np.setitem r4 icam (np.matmul rmat2 r1));
     update self (with_rmat4 r4)).
Proof.
  intros w (o & Ho & Hs).
  assert (np.getitem (heap w) self = Ok o) as Hg
    by (unfold np.getitem; by rewrite Ho).
  unfold mbind, M_bind, lift, getattr, update.
  rewrite !Hg. simpl.
  destruct (np.getitem (eulcam o) icam) as [cureul|e]; simpl; [|by exists o].
  destruct (sc_to_cam_mat cureul) as [rmat2|e] eqn:H2; simpl; [|by exists o].
  destruct (np.setitem (rmat4 o) icam (np.matmul rmat2 (rmat1 o))) as [r4|e] eqn:H4;
    simpl; [|by exists o].
  rewrite Ho. simpl. eexists. split.
  - apply list_lookup_insert_eq. by eapply lookup_lt_Some.
  - apply shaped_rmat4; [done|].
    destruct Hs as (_&_&_&_&_&_&_&_&Hr1&Hr4).
    apply setitem_inv in H4 as ->. destruct Hr4 as [Hn Hr4].
    split; [by rewrite length_insert|]. apply Forall_insert; [done|].
    apply eulerm323_shape in H2.
    pose proof (matmul_shape (A:=unit) rmat2 (rmat1 o) 3 (proj1 H2)) as Hm.
    by rewrite (shape2_head _ _ _ Hr1) in Hm.
Qed.

Lemma shaped_zeros :
  shaped {| eulcam := np.zeros2 NCAM 3; optcon := np.zeros2 NCAM 6;
            ccdxy0 := np.zeros3 NCAM NCCD 2; pixsz := np.zeros3 NCAM NCCD 2;
            ccdang := np.zeros2 NCAM NCCD; ccdtilt := np.zeros3 NCAM NCCD 2;
            asymang := np.zeros NCAM; asymfac := np.zeros NCAM;
            rmat1 := np.zeros2 3 3; rmat4 := np.zeros3 NCAM 3 3;
            havePointing := false |}.
Proof.
  unfold shaped, shape3, shape2. simpl.
  repeat split; repeat constructor.
Qed.

Lemma init_body_stays_shaped (self : nat) (sc_ra_dec_roll : option (list np.float64))
    (fpg_file_list : option (list string)) :
  keeps (stays_shaped self)
    (_ ← read_all_levine_fpg_files self fpg_file_list;
     _ ← match sc_ra_dec_roll with
         | Some pointing =>
             m ← lift (sky_to_sc_mat pointing);
             _ ← update self (with_rmat1 m);
             _ ← for_ (range NCAM) (λ icam,
                   eul ← getattr self eulcam;
                   cureul ← lift (np.getitem eul icam);
                   rmat2 ← lift (sc_to_cam_mat cureul);
                   r1 ← getattr self rmat1;
                   r4 ← getattr self rmat4;
                   r4 ← lift (np.setitem r4 icam (np.matmul rmat2 r1));
                   update self (with_rmat4 r4));
             update self (with_havePointing true)
         | None => mret ()
         end;
     mret self).
Proof.
  pose proof (stays_shaped_heap self) as Hh.
  pose proof (stays_shaped_trans self) as Ht.
  apply (keeps_bind _ Ht); [apply stays_shaped_read_all|]. intros _.
  apply (keeps_bind _ Ht); [|intros _; apply (keeps_ret _ Hh)].
  destruct sc_ra_dec_roll as [pointing|]; [|apply (keeps_ret _ Hh)].
  intros w. unfold mbind at 1. unfold M_bind at 1. unfold lift at 1.
  destruct (sky_to_sc_mat pointing) as [m|e] eqn:Hm; [|by apply Hh].
  apply sky_to_sc_mat_shape in Hm. revert w.
  change (keeps (stays_shaped self)
    (_ ← update self (with_rmat1 m);
     _ ← for_ (range NCAM) (λ icam,
           eul ← getattr self eulcam;
           cureul ← lift (np.getitem eul icam);
           rmat2 ← lift (sc_to_cam_mat cureul);
           r1 ← getattr self rmat1;
           r4 ← getattr self rmat4;
           r4 ← lift (np.setitem r4 icam (np.matmul rmat2 r1));
           update self (with_rmat4 r4));
     update self (with_havePointing true))).
  apply (keeps_bind _ Ht).
  { apply stays_shaped_update. intros o Ho. by apply shaped_rmat1. }
  intros _. apply (keeps_bind _ Ht).
  { apply (keeps_for _ Hh Ht). intros icam. apply stays_shaped_camera_matrix. }
  intros _. apply stays_shaped_update. intros o Ho. by apply shaped_havePointing.
Qed.

Lemma Levine_FPG_init_shaped (w w' : World) (sc_ra_dec_roll : option (list np.float64))
    (fpg_file_list : option (list string)) (self : nat) :
  Levine_FPG_init sc_ra_dec_roll fpg_file_list w = (Ok self, w') →
  ∃ o, heap w' !! self = Some o ∧ shaped o.
Proof.
  unfold Levine_FPG_init.
  unfold mbind at 1. unfold M_bind at 1. unfold new at 1.
  set (w1 := {| parm_dict_list := parm_dict_list w; heap := heap w ++ [_];
                files := files w; stdout := stdout w |}).
  pose proof (init_body_stays_shaped (length (heap w)) sc_ra_dec_roll
                fpg_file_list w1) as Hk.
  intros H.
  assert (self = length (heap w)) as ->.
  { revert H. clear.
    repeat (unfold mbind at 1; unfold M_bind at 1;
            match goal with |- context [match ?m ?w with _ => _ end] =>
              destruct (m w) as [[?|?] ?]; [|discriminate] end).
    by intros [= <- _]. }
  rewrite H in Hk. apply Hk.
  eexists. split; [apply list_lookup_middle; done|apply shaped_zeros].
Qed.

(** ** radec2pix on a constructed model *)

Lemma cartToSphere_total (a b c : np.float64) :
  ∃ lng lat, cartToSphere [a; b; c] = Ok (lng, lat).
Proof.
  unfold cartToSphere. destruct (np.gt _ _); [|by eexists _, _].
  change (np.getitem [a; b; c] 2) with (Ok c).
  change (np.getitem [a; b; c] 0) with (Ok a).
  change (np.getitem [a; b; c] 1) with (Ok b).
  cbn [mbind result_bind mret result_ret].
  destruct (negb (np.eqb a 0)); cbn [mbind result_bind mret result_ret];
    [by eexists _, _|].
  destruct (negb (np.eqb b 0)); by eexists _, _.
Qed.

Lemma lookup_shape2 {A} (n m : nat) (a : list (list A)) (i : nat) :
  shape2 n m a → (i < n)%nat → ∃ row, a !! i = Some row ∧ length row = m.
Proof.
  intros [Hn Ha] Hi.
  destruct (lookup_lt_is_Some_2 a i) as [row Hrow]; [lia|].
  exists row. split; [done|]. rewrite Forall_lookup in Ha. by eapply Ha.
Qed.

Lemma lookup_shape3 {A} (n m k : nat) (a : list (list (list A))) (i j : nat) :
  shape3 n m k a → (i < n)%nat → (j < m)%nat →
  ∃ row, a !! i ≫= (.!! j) = Some row ∧ length row = k.
Proof.
  intros [Hn Ha] Hi Hj.
  destruct (lookup_lt_is_Some_2 a i) as [plane Hp]; [lia|].
  rewrite Forall_lookup in Ha. specialize (Ha i plane Hp).
  destruct (lookup_shape2 _ _ _ j Ha Hj) as (row & Hrow & Hl).
  exists row. rewrite Hp. simpl. by split.
Qed.

Lemma spec_ccd_shaped (o : Levine_FPG) (icam iccd : nat) :
  shaped o → (icam < 4)%nat → (iccd < 4)%nat → ∃ g, spec_ccd o icam iccd = Some g.
Proof.
  intros (_&_&Hxy&Hpx&Han&_) Hi Hj. unfold spec_ccd.
  destruct (lookup_shape3 _ _ _ _ icam iccd Hxy Hi Hj) as ([|x0 [|y0 [|? ?]]] & -> & Hl);
    try done.
  destruct (lookup_shape3 _ _ _ _ icam iccd Hpx Hi Hj) as ([|px [|py [|? ?]]] & -> & Hl');
    try done.
  destruct (lookup_shape2 _ _ _ icam Han Hi) as (row & -> & Hr). simpl.
  destruct (lookup_lt_is_Some_2 row iccd) as [ang ->]; [unfold NCCD in *; lia|].
  by eexists.
Qed.

Lemma spec_quadrant_range (x y : np.float64) : (spec_quadrant x y < 4)%nat.
Proof. unfold spec_quadrant. destruct (np.ge x 0), (np.ge y 0); lia. Qed.

Lemma optics_fp_total (o : Levine_FPG) (icam : nat) (lng lat : np.float64) :
  shaped o → (icam < 4)%nat → ∃ x y, optics_fp o icam lng lat = Ok [x; y].
Proof.
  intros (_&Hop&_&_&_&_&Haa&Haf&_) Hi.
  destruct (lookup_shape2 _ _ _ icam Hop Hi) as (row & Hrow & Hl).
  destruct (lookup_lt_is_Some_2 (asymang o) icam) as [a Ha]; [unfold NCAM in *; lia|].
  destruct (lookup_lt_is_Some_2 (asymfac o) icam) as [f Hf]; [unfold NCAM in *; lia|].
  destruct row as [|c0 row]; [done|].
  unfold optics_fp, make_az_asym, np.getitem. rewrite Hrow, Ha, Hf.
  by eexists _, _.
Qed.

Lemma radec2pix_camera_total (o : Levine_FPG) (v0 v1 v2 : np.float64)
    (acc : pix_arrays) (j : nat) :
  shaped o → (j < 4)%nat → ∃ r, radec2pix_camera o [v0; v1; v2] acc j = Ok r.
Proof.
  intros Ho Hj. unfold radec2pix_camera.
  destruct Ho as (H1&H2&H3&H4&H5&H6&H7&H8&H9&[Hn Hr4]).
  destruct (lookup_lt_is_Some_2 (rmat4 o) j) as [m Hm]; [unfold NCAM in *; lia|].
  assert (shape2 3 3 m) as [Hl _] by (rewrite Forall_lookup in Hr4; by eapply Hr4).
  destruct m as [|r0 [|r1 [|r2 [|? ?]]]]; try done.
  assert (np.getitem (rmat4 o) j = Ok [r0; r1; r2]) as ->
    by (unfold np.getitem; by rewrite Hm).
  cbn [mbind result_bind].
  cbn [np.matvec fmap list_fmap].
  destruct (cartToSphere_total (np.dot r0 [v0; v1; v2]) (np.dot r1 [v0; v1; v2])
              (np.dot r2 [v0; v1; v2])) as (lng & lat & ->).
  cbn [mbind result_bind].
  destruct (star_in_fov _ _); [|by eexists].
  assert (shaped o) as Ho by done.
  destruct (optics_fp_total o j (lng / deg2rad)%f (lat / deg2rad)%f Ho Hj)
    as (x & y & ->).
  cbn [mbind result_bind].
  destruct (spec_ccd_shaped o j (spec_quadrant x y) Ho Hj (spec_quadrant_range x y))
    as [g Hg].
  rewrite (mm_to_pix_spec _ _ _ _ _ Hg). by eexists.
Qed.

Lemma fold_result_total {A B} (body : B → A → result B) (xs : list A) (acc : B) :
  (∀ b x, x ∈ xs → ∃ b', body b x = Ok b') → ∃ r, fold_result body xs acc = Ok r.
Proof.
  revert acc. induction xs as [|x xs IH]; intros acc H; [by eexists|].
  cbn [fold_result].
  destruct (H acc x) as [b' ->]; [by left|]. cbn [mbind result_bind].
  apply IH. intros b y Hy. apply H. by right.
Qed.

Lemma radec2pix_stars_total (o : Levine_FPG) (ras decs : list np.float64) :
  shaped o → length ras = length decs → ∃ r, radec2pix_stars o ras decs = Ok r.
Proof.
  intros Ho Hl. unfold radec2pix_stars, sphereToCart_arr, broadcast2, np.scale.
  rewrite !decide_True by (by rewrite !length_fmap).
  cbn [mbind result_bind mret result_ret].
  apply fold_result_total. intros b i Hi.
  apply elem_of_seq in Hi as [_ Hi]. simpl in Hi.
  destruct (lookup_lt_is_Some_2
              (zip_with np.mul (np.cos <$> (np.mul deg2rad <$> ras))
                 (np.cos <$> (np.mul deg2rad <$> decs))) i) as [v0 H0].
  { rewrite length_zip_with, !length_fmap. lia. }
  destruct (lookup_lt_is_Some_2
              (zip_with np.mul (np.sin <$> (np.mul deg2rad <$> ras))
                 (np.cos <$> (np.mul deg2rad <$> decs))) i) as [v1 H1].
  { rewrite length_zip_with, !length_fmap. lia. }
  destruct (lookup_lt_is_Some_2 (np.sin <$> (np.mul deg2rad <$> decs)) i) as [v2 H2].
  { rewrite !length_fmap. lia. }
  unfold np.getitem. rewrite H0, H1, H2. cbn [mbind result_bind].
  apply fold_result_total. intros acc j Hj.
  apply elem_of_seq in Hj as [_ Hj]. simpl in Hj.
  by apply radec2pix_camera_total.
Qed.

(** X10: a model that [Levine_FPG(...)] has returned, whatever the
    pointing and the parameter files it was given, has every array in the
    shape it was created with; on such a model [radec2pix] does not raise
    for equally long arrays of right ascensions and declinations, whatever
    numbers they hold. *)
Theorem radec2pix_never_raises (w w' : World)
    (sc_ra_dec_roll : option (list np.float64))
    (fpg_file_list : option (list string)) (self : nat)
    (ras decs : list np.float64) :
  Levine_FPG_init sc_ra_dec_roll fpg_file_list w = (Ok self, w') →
  length ras = length decs →
  ∃ o r w'', heap w' !! self = Some o ∧ shaped o ∧
    radec2pix self ras decs w' = (Ok r, w'').
Proof.
  intros (o & Ho & Hs)%Levine_FPG_init_shaped Hl.
  exists o. rewrite radec2pix_unfold, Ho.
  destruct (havePointing o).
  - destruct (radec2pix_stars_total o ras decs Hs Hl) as [r ->]. by eexists _, _.
  - by eexists _, _.
Qed.

Lemma world_pointed_eq :
  Levine_FPG_init (Some [np.Fin 0; np.Fin 0; np.Fin 0]) None (at_import ∅)
  = (Ok 0%nat, world_pointed).
Proof.
  assert ((Levine_FPG_init (Some [np.Fin 0; np.Fin 0; np.Fin 0]) None (at_import ∅)).1
          = Ok 0%nat) as H by (vm_compute; reflexivity).
  unfold world_pointed.
  destruct (Levine_FPG_init _ _ _) as [r w2]. simpl in H. by subst r.
Qed.

Lemma radec2pix_never_raises_witness :
  ∃ o r w'', heap world_pointed !! 0%nat = Some o ∧ shaped o ∧
    radec2pix 0 [np.Fin 10; np.Fin 20] [np.Fin 30; np.Fin 40] world_pointed = (Ok r, w'').
Proof.
  apply (radec2pix_never_raises (at_import ∅) world_pointed
           (Some [np.Fin 0; np.Fin 0; np.Fin 0]) None 0 _ _ world_pointed_eq).
  reflexivity.
Defined.

(** ** Reading the parameter files *)

(** X11: [read_levine_fpg_file] never raises for a camera the class
    attribute has an entry for.  A file that does not exist gives the
    hard-coded table silently; a file that exists but cannot be read, or
    that holds a single row, gives the hard-coded table after the line
    "Could not open ..."; any other block of rows that [np.genfromtxt]
    returns becomes the table, after the line "Successful ...".  Only the
    entry of that camera and the console change. *)
Theorem read_levine_fpg_file_cases (w : World) (self icam : nat) (fpg_file : string) :
  (icam < length (parm_dict_list w))%nat →
  (files w !! fpg_file = None →
   read_levine_fpg_file self icam fpg_file w =
     (Ok (),
      {| parm_dict_list := <[icam := default ∅ (hard_coded icam)]> (parm_dict_list w);
         heap := heap w; files := files w; stdout := stdout w |})) ∧
  (files w !! fpg_file = Some None ∨
   (∃ rows : dataBlock, files w !! fpg_file = Some (Some rows) ∧ length rows = 1%nat) →
   read_levine_fpg_file self icam fpg_file w =
     (Ok (),
      {| parm_dict_list := <[icam := default ∅ (hard_coded icam)]> (parm_dict_list w);
         heap := heap w; files := files w;
         stdout := stdout w ++ [could_not_open fpg_file] |})) ∧
  (∀ rows : dataBlock, files w !! fpg_file = Some (Some rows) → length rows ≠ 1%nat →
   read_levine_fpg_file self icam fpg_file w =
     (Ok (),
      {| parm_dict_list := <[icam := table_of rows]> (parm_dict_list w);
         heap := heap w; files := files w;
         stdout := stdout w ++ [successful_read fpg_file] |})).
Proof.
  intros Hi. rewrite (read_levine_fpg_file_eq w self icam fpg_file Hi).
  unfold table_read. split; [|split].
  - intros ->. simpl. by rewrite app_nil_r.
  - intros [->|[rows [-> Hn]]]; [done|]. by destruct rows as [|r [|r' rows]].
  - intros rows -> Hn. by destruct rows as [|r [|r' rows]].
Qed.

Lemma read_levine_fpg_file_cases_witness :
  read_levine_fpg_file 0 0 "cam1.txt" (world_one cal_files) =
    (Ok (),
     {| parm_dict_list := <[0%nat := table_of cal_rows]> (parm_dict_list (world_one cal_files));
        heap := heap (world_one cal_files); files := files (world_one cal_files);
        stdout := stdout (world_one cal_files) ++ [successful_read "cam1.txt"] |}).
Proof.
  apply (read_levine_fpg_file_cases (world_one cal_files) 0 0 "cam1.txt").
  - vm_compute. lia.
  - vm_compute. reflexivity.
  - vm_compute. lia.
Defined.

(** ** The constructor as a function of the tables *)

Lemma set_obj_same (self : nat) (o : Levine_FPG) (w : World) :
  heap w !! self = Some o → set_obj self o w = w.
Proof.
  intros Ho. destruct w as [p h f s]. unfold set_obj. simpl in *.
  by rewrite list_insert_id.
Qed.

Lemma set_obj_twice (self : nat) (o1 o2 : Levine_FPG) (w : World) :
  set_obj self o2 (set_obj self o1 w) = set_obj self o2 w.
Proof. unfold set_obj. simpl. by rewrite list_insert_insert_eq. Qed.

Lemma set_obj_lookup (self : nat) (o o' : Levine_FPG) (w : World) :
  heap w !! self = Some o → heap (set_obj self o' w) !! self = Some o'.
Proof.
  intros Ho. simpl. apply list_lookup_insert_eq. by eapply lookup_lt_Some.
Qed.

Section RunsAs.

Variable tables : list (gmap string np.float64).
Variable self : nat.

Lemma runs_as_ret : runs_as tables self (mret ()) Ok.
Proof. intros w o _ Ho. by rewrite set_obj_same. Qed.

Lemma runs_as_bind (m m' : M unit) (g g' : Levine_FPG → result Levine_FPG) :
  runs_as tables self m g → runs_as tables self m' g' →
  runs_as tables self (m ≫= λ _, m') (λ o, g o ≫= g').
Proof.
  intros Hm Hm' w o Hp Ho. specialize (Hm w o Hp Ho).
  change ((m ≫= λ _, m') w) with
    (match m w with (Ok _, w') => m' w' | (Raise e, w') => (Raise e, w') end).
  destruct (g o) as [o1|e]; simpl.
  - rewrite Hm. specialize (Hm' (set_obj self o1 w) o1 Hp (set_obj_lookup _ _ _ _ Ho)).
    destruct (g' o1) as [o2|e].
    + simpl. by rewrite Hm', set_obj_twice.
    + simpl. exact Hm'.
  - destruct (m w) as [[[]|e'] w']; simpl in *; congruence.
Qed.

Lemma runs_as_for {A} (xs : list A) (body : A → M unit)
    (g : Levine_FPG → A → result Levine_FPG) :
  (∀ x, runs_as tables self (body x) (λ o, g o x)) →
  runs_as tables self (for_ xs body) (fold_result g xs).
Proof.
  intros H. induction xs as [|x xs IH]; [apply runs_as_ret|].
  cbn [for_ fold_result].
  apply (runs_as_bind (body x) (for_ xs body) (λ o, g o x) (fold_result g xs));
    [apply H|apply IH].
Qed.

Lemma runs_as_get_parm_dict (icam : nat) (body : gmap string np.float64 → M unit)
    (g : gmap string np.float64 → Levine_FPG → result Levine_FPG) :
  (∀ pd, runs_as tables self (body pd) (g pd)) →
  runs_as tables self (get_parm_dict icam ≫= body)
    (λ o, pd ← np.getitem tables icam; g pd o).
Proof.
  intros H w o Hp Ho.
  change ((get_parm_dict icam ≫= body) w) with
    (match np.getitem (parm_dict_list w) icam with
     | Ok pd => body pd w
     | Raise e => (Raise e, w)
     end).
  rewrite Hp. destruct (np.getitem tables icam) as [pd|e]; simpl; [|done].
  by apply H.
Qed.

Lemma runs_as_lift {A} (r : result A) (body : A → M unit)
    (g : A → Levine_FPG → result Levine_FPG) :
  (∀ a, runs_as tables self (body a) (g a)) →
  runs_as tables self (lift r ≫= body) (λ o, a ← r; g a o).
Proof.
  intros H w o Hp Ho.
  change ((lift r ≫= body) w) with
    (match r with Ok a => body a w | Raise e => (Raise e, w) end).
  destruct r as [a|e]; simpl; [|done]. by apply H.
Qed.

Lemma runs_as_getattr {A} (field : Levine_FPG → A) (body : A → M unit)
    (g : A → Levine_FPG → result Levine_FPG) :
  (∀ a, runs_as tables self (body a) (g a)) →
  runs_as tables self (getattr self field ≫= body) (λ o, g (field o) o).
Proof.
  intros H w o Hp Ho.
  change ((getattr self field ≫= body) w) with
    (match field <$> np.getitem (heap w) self with
     | Ok a => body a w
     | Raise e => (Raise e, w)
     end).
  unfold np.getitem. rewrite Ho. simpl. by apply H.
Qed.

Lemma runs_as_update (f : Levine_FPG → Levine_FPG) :
  runs_as tables self (update self f) (λ o, Ok (f o)).
Proof. intros w o Hp Ho. unfold update. by rewrite Ho. Qed.

Lemma runs_as_ext (m : M unit) (g g' : Levine_FPG → result Levine_FPG) :
  (∀ o, g o = g' o) → runs_as tables self m g → runs_as tables self m g'.
Proof. intros Hg H w o Hp Ho. rewrite <- Hg. by apply H. Qed.

Lemma runs_as_store1 field set i d key :
  runs_as tables self (store1 field set self i d key) (put1 field set i d key).
Proof.
  unfold store1, put1.
  apply (runs_as_lift _ _ (λ v o, a ← np.setitem (field o) i v; mret (set a o))).
  intros v.
  apply (runs_as_getattr field _ (λ a o, a ← np.setitem a i v; mret (set a o))).
  intros a.
  apply (runs_as_lift _ _ (λ a o, mret (set a o))). intros a'.
  apply runs_as_update.
Qed.

Lemma runs_as_store2 field set i j d key :
  runs_as tables self (store2 field set self i j d key) (put2 field set i j d key).
Proof.
  unfold store2, put2.
  apply (runs_as_lift _ _ (λ v o, a ← np.setitem2 (field o) i j v; mret (set a o))).
  intros v.
  apply (runs_as_getattr field _ (λ a o, a ← np.setitem2 a i j v; mret (set a o))).
  intros a.
  apply (runs_as_lift _ _ (λ a o, mret (set a o))). intros a'.
  apply runs_as_update.
Qed.

Lemma runs_as_store3 field set i j k d key :
  runs_as tables self (store3 field set self i j k d key) (put3 field set i j k d key).
Proof.
  unfold store3, put3.
  apply (runs_as_lift _ _ (λ v o, a ← np.setitem3 (field o) i j k v; mret (set a o))).
  intros v.
  apply (runs_as_getattr field _ (λ a o, a ← np.setitem3 a i j k v; mret (set a o))).
  intros a.
  apply (runs_as_lift _ _ (λ a o, mret (set a o))). intros a'.
  apply runs_as_update.
Qed.

End RunsAs.

Lemma fill_runs (tables : list (gmap string np.float64)) (self : nat) :
  runs_as tables self
    (for_ (range NCAM) (λ icam,
       pd ← get_parm_dict icam;
       _ ← store2 eulcam with_eulcam self icam 0 pd "ang1_cam1";
       _ ← store2 eulcam with_eulcam self icam 1 pd "ang2_cam1";
       _ ← store2 eulcam with_eulcam self icam 2 pd "ang3_cam1";
       _ ← store2 optcon with_optcon self icam 0 pd "fl_cam1";
       _ ← store2 optcon with_optcon self icam 1 pd "opt_coef1_cam1";
       _ ← store2 optcon with_optcon self icam 2 pd "opt_coef2_cam1";
       _ ← store2 optcon with_optcon self icam 3 pd "opt_coef3_cam1";
       _ ← store2 optcon with_optcon self icam 4 pd "opt_coef4_cam1";
       _ ← store2 optcon with_optcon self icam 5 pd "opt_coef5_cam1";
       _ ← store1 asymang with_asymang self icam pd "asymang_cam1";
       _ ← store1 asymfac with_asymfac self icam pd "asymfac_cam1";
       for_ (range NCCD) (λ iccd,
         _ ← store3 ccdxy0 with_ccdxy0 self icam iccd 0 pd (ccd_key "x0_ccd" (iccd + 1));
         _ ← store3 ccdxy0 with_ccdxy0 self icam iccd 1 pd (ccd_key "y0_ccd" (iccd + 1));
         _ ← store3 pixsz with_pixsz self icam iccd 0 pd (ccd_key "pix_x_ccd" (iccd + 1));
         _ ← store3 pixsz with_pixsz self icam iccd 1 pd (ccd_key "pix_y_ccd" (iccd + 1));
         _ ← store2 ccdang with_ccdang self icam iccd pd (ccd_key "ang_ccd" (iccd + 1));
         _ ← store3 ccdtilt with_ccdtilt self icam iccd 0 pd (ccd_key "tilt_x_ccd" (iccd + 1));
         store3 ccdtilt with_ccdtilt self icam iccd 1 pd (ccd_key "tilt_y_ccd" (iccd + 1)))))
    (fill tables).
Proof.
  unfold fill. apply runs_as_for. intros icam. unfold fill_camera.
  apply (runs_as_get_parm_dict tables self icam _ (λ pd o, _)). intros pd.
  repeat (apply runs_as_bind;
          [first [apply runs_as_store1|apply runs_as_store2|apply runs_as_store3]|]).
  apply runs_as_for. intros iccd.
  repeat (apply runs_as_bind;
          [first [apply runs_as_store1|apply runs_as_store2|apply runs_as_store3]|]).
  apply runs_as_store3.
Qed.

Lemma point_runs (tables : list (gmap string np.float64)) (self : nat)
    (pointing : list np.float64) :
  runs_as tables self
    (m ← lift (sky_to_sc_mat pointing);
     _ ← update self (with_rmat1 m);
     _ ← for_ (range NCAM) (λ icam,
           eul ← getattr self eulcam;
           cureul ← lift (np.getitem eul icam);
           rmat2 ← lift (sc_to_cam_mat cureul);
           r1 ← getattr self rmat1;
           r4 ← getattr self rmat4;
           r4 ← lift (np.setitem r4 icam (np.matmul rmat2 r1));
           update self (with_rmat4 r4));
     update self (with_havePointing true))
    (point pointing).
Proof.
  eapply runs_as_ext; cycle 1.
  { eapply runs_as_lift. intros m.
    eapply runs_as_bind; [apply runs_as_update|].
    eapply runs_as_bind; [|apply runs_as_update].
    apply (runs_as_for tables self (range NCAM) _
             (λ o icam,
                cureul ← np.getitem (eulcam o) icam;
                rmat2 ← sc_to_cam_mat cureul;
                r4 ← np.setitem (rmat4 o) icam (np.matmul rmat2 (rmat1 o));
                mret (with_rmat4 r4 o))).
    intros icam.
    apply (runs_as_getattr tables self eulcam _
             (λ eul o, cureul ← np.getitem eul icam;
                       rmat2 ← sc_to_cam_mat cureul;
                       r4 ← np.setitem (rmat4 o) icam (np.matmul rmat2 (rmat1 o));
                       mret (with_rmat4 r4 o))).
    intros eul.
    apply (runs_as_lift tables self (np.getitem eul icam) _
             (λ cureul o, rmat2 ← sc_to_cam_mat cureul;
                          r4 ← np.setitem (rmat4 o) icam (np.matmul rmat2 (rmat1 o));
                          mret (with_rmat4 r4 o))).
    intros cureul.
    apply (runs_as_lift tables self (sc_to_cam_mat cureul) _
             (λ rmat2 o, r4 ← np.setitem (rmat4 o) icam (np.matmul rmat2 (rmat1 o));
                         mret (with_rmat4 r4 o))).
    intros rmat2.
    apply (runs_as_getattr tables self rmat1 _
             (λ r1 o, r4 ← np.setitem (rmat4 o) icam (np.matmul rmat2 r1);
                      mret (with_rmat4 r4 o))).
    intros r1.
    apply (runs_as_getattr tables self rmat4 _
             (λ r4 o, r4 ← np.setitem r4 icam (np.matmul rmat2 r1);
                      mret (with_rmat4 r4 o))).
    intros r4.
    apply (runs_as_lift tables self (np.setitem r4 icam (np.matmul rmat2 r1)) _
             (λ r4 o, mret (with_rmat4 r4 o))).
    intros r4'. apply runs_as_update. }
  intros o. reflexivity.
Qed.

(** The first loop of [read_all_levine_fpg_files] for four named files. *)
Lemma read_files_eq (w : World) (self : nat) (names : list string)
    (f0 f1 f2 f3 : string) :
  take 4 names = [f0; f1; f2; f3] → length (parm_dict_list w) = 4%nat →
  for_ (range NCAM) (λ icam,
      fpg_file ← lift (np.getitem names icam);
      read_levine_fpg_file self icam fpg_file) w =
    (Ok (),
     {| parm_dict_list := [(table_read w 0 f0).1; (table_read w 1 f1).1;
                           (table_read w 2 f2).1; (table_read w 3 f3).1];
        heap := heap w; files := files w;
        stdout := stdout w ++ (table_read w 0 f0).2 ++ (table_read w 1 f1).2
                  ++ (table_read w 2 f2).2 ++ (table_read w 3 f3).2 |}).
Proof.
  intros Hn Hl.
  destruct names as [|n0 [|n1 [|n2 [|n3 names]]]]; try done.
  injection Hn as -> -> -> ->.
  destruct w as [pdl h fs out]. simpl in Hl.
  destruct pdl as [|p0 [|p1 [|p2 [|p3 [|? ?]]]]]; try done.
  cbn [for_ range seq NCAM].
  change (np.getitem (f0 :: f1 :: f2 :: f3 :: names) 0) with (Ok f0).
  change (np.getitem (f0 :: f1 :: f2 :: f3 :: names) 1) with (Ok f1).
  change (np.getitem (f0 :: f1 :: f2 :: f3 :: names) 2) with (Ok f2).
  change (np.getitem (f0 :: f1 :: f2 :: f3 :: names) 3) with (Ok f3).
  unfold mbind, M_bind, lift.
  rewrite read_levine_fpg_file_eq by (simpl; lia). cbn [parm_dict_list heap files stdout].
  rewrite read_levine_fpg_file_eq by (simpl; lia). cbn [parm_dict_list heap files stdout].
  rewrite read_levine_fpg_file_eq by (simpl; lia). cbn [parm_dict_list heap files stdout].
  rewrite read_levine_fpg_file_eq by (simpl; lia). cbn [parm_dict_list heap files stdout].
  unfold table_read. cbn [files]. simpl list_insert.
  unfold mret, M_ret. by rewrite <- !app_assoc.
Qed.

Lemma bind_run {A B} (m : M A) (f : A → M B) (w w' : World) (a : A) :
  m w = (Ok a, w') → (m ≫= f) w = f a w'.
Proof. intros H. unfold mbind, M_bind. by rewrite H. Qed.

Lemma bind_raise {A B} (m : M A) (f : A → M B) (w : World) (e : exn) :
  (m w).1 = Raise e → ((m ≫= f) w).1 = Raise e.
Proof.
  intros H. unfold mbind, M_bind.
  destruct (m w) as [[a|e'] w']; simpl in *; congruence.
Qed.

(** [read_all_levine_fpg_files] on a freshly allocated object. *)
Lemma read_all_eq (w : World) (self : nat) (fl : option (list string))
    (f0 f1 f2 f3 : string) (o : Levine_FPG) :
  take 4 (default default_fpg_file_list fl) = [f0; f1; f2; f3] →
  length (parm_dict_list w) = 4%nat → heap w !! self = Some o →
  let tables := [(table_read w 0 f0).1; (table_read w 1 f1).1;
                 (table_read w 2 f2).1; (table_read w 3 f3).1] in
  let w2 := {| parm_dict_list := tables; heap := heap w; files := files w;
               stdout := stdout w ++ (table_read w 0 f0).2 ++ (table_read w 1 f1).2
                         ++ (table_read w 2 f2).2 ++ (table_read w 3 f3).2 |} in
  match fill tables o with
  | Ok o' => read_all_levine_fpg_files self fl w = (Ok (), set_obj self o' w2)
  | Raise e => (read_all_levine_fpg_files self fl w).1 = Raise e
  end.
Proof.
  intros Hn Hl Ho tables w2. unfold read_all_levine_fpg_files.
  pose proof (read_files_eq w self _ f0 f1 f2 f3 Hn Hl) as H1.
  fold tables in H1. fold w2 in H1.
  pose proof (fill_runs tables self w2 o eq_refl Ho) as H2.
  destruct (fill tables o) as [o'|e].
  - rewrite (bind_run _ _ _ _ _ H1). exact H2.
  - rewrite (bind_run _ _ _ _ _ H1). exact H2.
Qed.

(** The constructor, when the four parameter files are named: allocation,
    the four tables, then [fill] and [point] on the new object. *)
Lemma Levine_FPG_init_eq (w : World) (p : option (list np.float64))
    (fl : option (list string)) (f0 f1 f2 f3 : string) (o1 o2 : Levine_FPG) :
  take 4 (default default_fpg_file_list fl) = [f0; f1; f2; f3] →
  length (parm_dict_list w) = 4%nat →
  let tables := [(table_read w 0 f0).1; (table_read w 1 f1).1;
                 (table_read w 2 f2).1; (table_read w 3 f3).1] in
  fill tables zeros_fpg = Ok o1 →
  match p with Some pointing => point pointing o1 | None => Ok o1 end = Ok o2 →
  Levine_FPG_init p fl w =
    (Ok (length (heap w)),
     {| parm_dict_list := tables; heap := heap w ++ [o2]; files := files w;
        stdout := stdout w ++ (table_read w 0 f0).2 ++ (table_read w 1 f1).2
                  ++ (table_read w 2 f2).2 ++ (table_read w 3 f3).2 |}).
Proof.
  intros Hn Hl tables H1 H2. unfold Levine_FPG_init.
  rewrite (bind_run _ _ w
             {| parm_dict_list := parm_dict_list w; heap := heap w ++ [zeros_fpg];
                files := files w; stdout := stdout w |} (length (heap w)))
    by reflexivity.
  set (w1 := {| parm_dict_list := parm_dict_list w; heap := heap w ++ [zeros_fpg];
                files := files w; stdout := stdout w |}).
  assert (heap w1 !! length (heap w) = Some zeros_fpg) as Hz
    by (by apply list_lookup_middle).
  pose proof (read_all_eq w1 (length (heap w)) fl f0 f1 f2 f3 zeros_fpg Hn Hl Hz) as Hr.
  cbv zeta in Hr.
  rewrite !(table_read_files w w1) in Hr by done. fold tables in Hr.
  rewrite H1 in Hr. rewrite (bind_run _ _ _ _ _ Hr).
  match type of Hr with _ = (_, ?w3) => set (w3' := w3) in * end.
  assert (heap w3' !! length (heap w) = Some o1) as Ho1.
  { subst w3'. simpl. apply list_lookup_insert_eq.
    rewrite length_app. simpl. lia. }
  assert (set_obj (length (heap w)) o2 w3' =
          {| parm_dict_list := tables; heap := heap w ++ [o2]; files := files w;
             stdout := stdout w ++ (table_read w 0 f0).2 ++ (table_read w 1 f1).2
                       ++ (table_read w 2 f2).2 ++ (table_read w 3 f3).2 |}) as Hfin.
  { subst w3'. unfold set_obj. simpl. f_equal.
    rewrite list_insert_insert_eq.
    rewrite insert_app_r_alt by lia. by rewrite Nat.sub_diag. }
  destruct p as [pointing|].
  - pose proof (point_runs tables (length (heap w)) pointing w3' o1 eq_refl Ho1) as Hp.
    rewrite H2 in Hp. rewrite (bind_run _ _ _ _ _ Hp).
    unfold mret, M_ret. by rewrite Hfin.
  - injection H2 as <-.
    rewrite (bind_run _ _ w3' w3' ()) by reflexivity.
    unfold mret, M_ret. rewrite <- Hfin. by rewrite set_obj_same.
Qed.

Lemma Levine_FPG_init_raises (w : World) (p : option (list np.float64))
    (fl : option (list string)) (f0 f1 f2 f3 : string) (e : exn) :
  take 4 (default default_fpg_file_list fl) = [f0; f1; f2; f3] →
  length (parm_dict_list w) = 4%nat →
  fill [(table_read w 0 f0).1; (table_read w 1 f1).1;
        (table_read w 2 f2).1; (table_read w 3 f3).1] zeros_fpg = Raise e →
  (Levine_FPG_init p fl w).1 = Raise e.
Proof.
  intros Hn Hl H1. unfold Levine_FPG_init.
  rewrite (bind_run _ _ w
             {| parm_dict_list := parm_dict_list w; heap := heap w ++ [zeros_fpg];
                files := files w; stdout := stdout w |} (length (heap w)))
    by reflexivity.
  set (w1 := {| parm_dict_list := parm_dict_list w; heap := heap w ++ [zeros_fpg];
                files := files w; stdout := stdout w |}).
  assert (heap w1 !! length (heap w) = Some zeros_fpg) as Hz
    by (by apply list_lookup_middle).
  pose proof (read_all_eq w1 (length (heap w)) fl f0 f1 f2 f3 zeros_fpg Hn Hl Hz) as Hr.
  cbv zeta in Hr.
  rewrite !(table_read_files w w1) in Hr by done.
  rewrite H1 in Hr. by apply bind_raise.
Qed.

Lemma fill_hard_coded (o : Levine_FPG) :
  hard_coded_fpg = Some o → fill hard_coded_tables zeros_fpg = Ok o.
Proof.
  intros Ho.
  assert (match fill hard_coded_tables zeros_fpg with
          | Ok o' => Some o'
          | Raise _ => None
          end = hard_coded_fpg) as H by (vm_compute; reflexivity).
  rewrite Ho in H. destruct (fill hard_coded_tables zeros_fpg); congruence.
Qed.

Lemma table_read_unreadable (w : World) (icam : nat) (f : string) :
  (∀ rows, files w !! f ≠ Some (Some rows)) →
  table_read w icam f =
    (default ∅ (hard_coded icam),
     if bool_decide (is_Some (files w !! f)) then [could_not_open f] else []).
Proof.
  intros H. unfold table_read.
  destruct (files w !! f) as [[rows|]|] eqn:Hf.
  - by destruct (H rows).
  - by rewrite bool_decide_eq_true_2.
  - by rewrite bool_decide_eq_false_2 by (by intros [? ?]).
Qed.

Lemma hard_coded_tables_eq :
  hard_coded_tables =
    [default ∅ (hard_coded 0); default ∅ (hard_coded 1);
     default ∅ (hard_coded 2); default ∅ (hard_coded 3)].
Proof. unfold hard_coded_tables. cbn [seq omap hard_coded default]. reflexivity. Qed.

(** X12: when none of the four parameter files can be read (missing or
    unreadable), in any world whose class attribute has its four entries,
    [Levine_FPG(None, fpg_file_list)] returns a new object that holds
    exactly the hard-coded geometry; the class attribute becomes the four
    hard-coded tables, earlier objects and the files are untouched, and one
    line "Could not open ..." is printed for each file that exists. *)
Theorem Levine_FPG_init_hard_coded (w : World) (fl : option (list string))
    (f0 f1 f2 f3 : string) (o : Levine_FPG) :
  take 4 (default default_fpg_file_list fl) = [f0; f1; f2; f3] →
  (∀ f rows, f ∈ [f0; f1; f2; f3] → files w !! f ≠ Some (Some rows)) →
  length (parm_dict_list w) = 4%nat →
  hard_coded_fpg = Some o →
  Levine_FPG_init None fl w =
    (Ok (length (heap w)),
     {| parm_dict_list := hard_coded_tables; heap := heap w ++ [o];
        files := files w;
        stdout := stdout w ++
          ([f0; f1; f2; f3] ≫= λ f,
             if bool_decide (is_Some (files w !! f)) then [could_not_open f] else []) |}).
Proof.
  intros Hn Hf Hl Ho.
  assert (∀ icam f, f ∈ [f0; f1; f2; f3] →
            table_read w icam f =
              (default ∅ (hard_coded icam),
               if bool_decide (is_Some (files w !! f)) then [could_not_open f] else []))
    as Ht.
  { intros icam f Hin. apply table_read_unreadable. intros rows. by apply Hf. }
  assert (f0 ∈ [f0; f1; f2; f3]) as H0 by (repeat constructor).
  assert (f1 ∈ [f0; f1; f2; f3]) as H1 by (repeat constructor).
  assert (f2 ∈ [f0; f1; f2; f3]) as H2 by (repeat constructor).
  assert (f3 ∈ [f0; f1; f2; f3]) as H3 by (repeat constructor).
  pose proof (Levine_FPG_init_eq w None fl f0 f1 f2 f3 o o Hn Hl) as Hinit.
  cbv zeta in Hinit.
  rewrite (Ht 0%nat f0 H0), (Ht 1%nat f1 H1), (Ht 2%nat f2 H2), (Ht 3%nat f3 H3) in Hinit.
  cbn [fst snd] in Hinit. rewrite <- hard_coded_tables_eq in Hinit.
  rewrite Hinit; [|by apply fill_hard_coded|done].
  cbn [mbind list_bind]. by rewrite app_nil_r.
Qed.

Lemma world_one_empty :
  files (world_one ∅) = ∅ ∧ length (parm_dict_list (world_one ∅)) = 4%nat ∧
  length (heap (world_one ∅)) = 1%nat ∧ stdout (world_one ∅) = [].
Proof. vm_compute. done. Qed.

Lemma Levine_FPG_init_hard_coded_witness :
  ∃ o, hard_coded_fpg = Some o ∧
    Levine_FPG_init None None (world_one ∅) =
      (Ok (length (heap (world_one ∅))),
       {| parm_dict_list := hard_coded_tables; heap := heap (world_one ∅) ++ [o];
          files := files (world_one ∅);
          stdout := stdout (world_one ∅) ++
            (["fpg_pars.txt-"; "fpg_pars.txt-"; "fpg_pars.txt-"; "fpg_pars.txt-"] ≫= λ f,
               if bool_decide (is_Some (files (world_one ∅) !! f))
               then [could_not_open f] else []) |}).
Proof.
  destruct world_one_empty as (Hf & Hl & _).
  eexists. split; [vm_compute; reflexivity|].
  apply (Levine_FPG_init_hard_coded (world_one ∅) None); [done| |done|vm_compute; reflexivity].
  intros f rows _. by rewrite Hf, lookup_empty.
Defined.

(** X13: a parameter file that can be read, does not consist of a single
    row and has no row for "ang1_cam1" makes the construction raise
    [KeyError] for that key: such a file is never completed from the
    hard-coded table. *)
Theorem Levine_FPG_init_missing_key (w : World) (p : option (list np.float64))
    (fl : option (list string)) (f0 f1 f2 f3 : string) (rows : dataBlock) :
  take 4 (default default_fpg_file_list fl) = [f0; f1; f2; f3] →
  length (parm_dict_list w) = 4%nat →
  files w !! f0 = Some (Some rows) →
  length rows ≠ 1%nat →
  table_of rows !! "ang1_cam1" = None →
  (Levine_FPG_init p fl w).1 = Raise (KeyError "ang1_cam1").
Proof.
  intros Hn Hl Hf Hr Hk.
  apply (Levine_FPG_init_raises w p fl f0 f1 f2 f3 _ Hn Hl).
  unfold table_read at 1. rewrite Hf.
  assert (len_column rows = Ok (length rows)) as ->
    by (by destruct rows as [|r [|r' rows]]).
  cbn [fst].
  unfold fill. cbn [range seq NCAM fold_result].
  match goal with |- context [fill_camera ?t zeros_fpg 0] =>
    assert (fill_camera t zeros_fpg 0 = Raise (KeyError "ang1_cam1")) as ->
  end.
  { unfold fill_camera.
    change (np.getitem (table_of rows :: _) 0) with (Ok (table_of rows)).
    cbn [mbind result_bind].
    assert (put2 eulcam with_eulcam 0 0 (table_of rows) "ang1_cam1" zeros_fpg
            = Raise (KeyError "ang1_cam1")) as ->
      by (unfold put2, dict_get; by rewrite Hk).
    reflexivity. }
  reflexivity.
Qed.

Lemma Levine_FPG_init_missing_key_witness :
  (Levine_FPG_init None (Some ["partial.txt"; "b.txt"; "c.txt"; "d.txt"])
     (at_import {[ "partial.txt" :=
                     Some [("fl_cam1", 1%Z, np.Fin 145.9);
                           ("asymang_cam1", 0%Z, np.Fin 0)] ]})).1
  = Raise (KeyError "ang1_cam1").
Proof.
  apply (Levine_FPG_init_missing_key _ None _ "partial.txt" "b.txt" "c.txt" "d.txt"
           [("fl_cam1", 1%Z, np.Fin 145.9); ("asymang_cam1", 0%Z, np.Fin 0)]);
    [done|done|by vm_compute|simpl; lia|by vm_compute].
Defined.

(** ** The camera matrices of a constructed model *)

Lemma hard_coded_eulcam (o : Levine_FPG) :
  hard_coded_fpg = Some o →
  length (rmat4 o) = 4%nat ∧
  ∀ k, (k < 4)%nat → ∃ e0 e1 e2 : R,
    eulcam o !! k = Some [np.Fin e0; np.Fin e1; np.Fin e2].
Proof.
  intros Ho.
  eassert (eulcam <$> hard_coded_fpg =
           Some [[np.Fin _; np.Fin _; np.Fin _]; [np.Fin _; np.Fin _; np.Fin _];
                 [np.Fin _; np.Fin _; np.Fin _]; [np.Fin _; np.Fin _; np.Fin _]]) as H
    by (vm_compute; reflexivity).
  assert (length ∘ rmat4 <$> hard_coded_fpg = Some 4%nat) as Hl
    by (vm_compute; reflexivity).
  rewrite Ho in H, Hl. injection H as H. injection Hl as Hl. split; [done|].
  rewrite H.
  intros [|[|[|[|k]]]] Hk; try lia; by eexists _, _, _.
Qed.

Lemma point_camera_step (o o' : Levine_FPG) (m1 : list (list np.float64)) (k : nat) :
  hard_coded_fpg = Some o → isometry m1 → (k < 4)%nat → pointed_to o m1 k o' →
  ∃ o'',
    (cureul ← np.getitem (eulcam o') k;
     rmat2 ← sc_to_cam_mat cureul;
     r4 ← np.setitem (rmat4 o') k (np.matmul rmat2 (rmat1 o'));
     mret (with_rmat4 r4 o')) = Ok o'' ∧
    pointed_to o m1 (S k) o''.
Proof.
  intros Ho Hm1 Hk (Hg & Hr1 & Hl & Hdone).
  destruct (hard_coded_eulcam o Ho) as [_ He].
  destruct (He k Hk) as (e0 & e1 & e2 & Hrow).
  destruct Hg as (Heul & Hg).
  unfold np.getitem. rewrite Heul, Hrow. cbn [mbind result_bind].
  rewrite sc_to_cam_mat_Fin.
  destruct (eulerm323_isometry (PI / 180 * e0) (PI / 180 * e1) (PI / 180 * e2))
    as (m2 & -> & Hm2).
  cbn [mbind result_bind]. unfold np.setitem.
  rewrite decide_True by lia. cbn [mbind result_bind mret result_ret].
  eexists. split; [reflexivity|].
  split; [by split|]. split; [done|]. split.
  - cbn [rmat4 with_rmat4]. by rewrite length_insert.
  - intros j Hj. cbn [rmat4 with_rmat4].
    destruct (decide (j = k)) as [->|Hne].
    + eexists. split; [apply list_lookup_insert_eq; lia|].
      rewrite Hr1. by apply isometry_matmul.
    + rewrite list_lookup_insert_ne by done. apply Hdone. lia.
Qed.

Lemma point_camera_loop (o : Levine_FPG) (m1 : list (list np.float64)) (n k : nat)
    (o' : Levine_FPG) :
  hard_coded_fpg = Some o → isometry m1 → (k + n <= 4)%nat → pointed_to o m1 k o' →
  ∃ o'',
    fold_result (λ o icam,
        cureul ← np.getitem (eulcam o) icam;
        rmat2 ← sc_to_cam_mat cureul;
        r4 ← np.setitem (rmat4 o) icam (np.matmul rmat2 (rmat1 o));
        mret (with_rmat4 r4 o)) (seq k n) o' = Ok o'' ∧
    pointed_to o m1 (k + n) o''.
Proof.
  intros Ho Hm1. revert k o'. induction n as [|n IH]; intros k o' Hk Hp.
  - exists o'. rewrite Nat.add_0_r. by split.
  - cbn [seq fold_result].
    destruct (point_camera_step o o' m1 k Ho Hm1 ltac:(lia) Hp) as (o1 & -> & Hp1).
    cbn [mbind result_bind].
    destruct (IH (S k) o1 ltac:(lia) Hp1) as (o2 & H2 & Hp2).
    exists o2. split; [exact H2|]. by rewrite Nat.add_succ_r.
Qed.

Lemma point_hard_coded (o : Levine_FPG) (ra dec roll : R) :
  hard_coded_fpg = Some o →
  ∃ o2, point [np.Fin ra; np.Fin dec; np.Fin roll] o = Ok o2 ∧
    havePointing o2 = true ∧ same_geometry o o2 ∧
    ∀ j, (j < 4)%nat → ∃ m, rmat4 o2 !! j = Some m ∧ isometry m.
Proof.
  intros Ho. unfold point. rewrite sky_to_sc_mat_Fin.
  destruct (eulerm323_isometry (PI / 180 * ra) (PI / 2 + - (PI / 180 * dec))
              (PI / 180 * roll + PI)) as (m1 & -> & Hm1).
  cbn [mbind result_bind].
  destruct (hard_coded_eulcam o Ho) as [Hl _].
  destruct (point_camera_loop o m1 4 0 (with_rmat1 m1 o) Ho Hm1 ltac:(lia))
    as (o1 & H1 & (Hg & _ & _ & Hdone)).
  { split; [by repeat split|]. split; [done|]. split; [done|]. intros j Hj. lia. }
  unfold range, NCAM. rewrite H1. cbn [mbind result_bind mret result_ret].
  eexists. split; [reflexivity|]. split; [done|]. split; [exact Hg|]. exact Hdone.
Qed.

Lemma Levine_FPG_init_pointed (w : World) (fl : option (list string))
    (f0 f1 f2 f3 : string) (o : Levine_FPG) (ra dec roll : R) :
  take 4 (default default_fpg_file_list fl) = [f0; f1; f2; f3] →
  (∀ f rows, f ∈ [f0; f1; f2; f3] → files w !! f ≠ Some (Some rows)) →
  length (parm_dict_list w) = 4%nat →
  hard_coded_fpg = Some o →
  ∃ o2,
    Levine_FPG_init (Some [np.Fin ra; np.Fin dec; np.Fin roll]) fl w
      = (Ok (length (heap w)),
         {| parm_dict_list := hard_coded_tables; heap := heap w ++ [o2];
            files := files w;
            stdout := stdout w ++
              ([f0; f1; f2; f3] ≫= λ f,
                 if bool_decide (is_Some (files w !! f))
                 then [could_not_open f] else []) |}) ∧
    havePointing o2 = true ∧ same_geometry o o2 ∧
    ∀ j, (j < 4)%nat → ∃ m, rmat4 o2 !! j = Some m ∧ isometry m.
Proof.
  intros Hn Hf Hl Ho.
  assert (f0 ∈ [f0; f1; f2; f3]) as H0 by (repeat constructor).
  assert (f1 ∈ [f0; f1; f2; f3]) as H1 by (repeat constructor).
  assert (f2 ∈ [f0; f1; f2; f3]) as H2 by (repeat constructor).
  assert (f3 ∈ [f0; f1; f2; f3]) as H3 by (repeat constructor).
  destruct (point_hard_coded o ra dec roll Ho) as (o2 & Hp & Hhp & Hg & Hm).
  pose proof (Levine_FPG_init_eq w (Some [np.Fin ra; np.Fin dec; np.Fin roll])
                fl f0 f1 f2 f3 o o2 Hn Hl) as Hinit.
  cbv zeta in Hinit.
  rewrite (table_read_unreadable w 0 f0), (table_read_unreadable w 1 f1),
    (table_read_unreadable w 2 f2), (table_read_unreadable w 3 f3) in Hinit
    by (intros rows; apply Hf; assumption).
  cbn [fst snd] in Hinit. rewrite <- hard_coded_tables_eq in Hinit.
  exists o2. split.
  - rewrite Hinit; [|by apply fill_hard_coded|exact Hp].
    cbn [mbind list_bind]. by rewrite app_nil_r.
  - split; [exact Hhp|]. split; [exact Hg|exact Hm].
Qed.

(** ** The pointing catalogue *)

Lemma filter_seq_none (P : nat → Prop) `{∀ i, Decision (P i)} (start n : nat) :
  (∀ i, (start <= i < start + n)%nat → ¬ P i) → filter P (seq start n) = [].
Proof.
  revert start. induction n as [|n IH]; intros start HP; [done|].
  cbn [seq]. rewrite filter_cons_False by (apply HP; lia).
  apply IH. intros i Hi. apply HP. lia.
Qed.

Lemma filter_seq_one (P : nat → Prop) `{∀ i, Decision (P i)} (start n k : nat) :
  (∀ i, (start <= i < start + n)%nat → P i ↔ i = k) →
  (start <= k < start + n)%nat → filter P (seq start n) = [k].
Proof.
  revert start. induction n as [|n IH]; intros start HP Hk; [lia|].
  cbn [seq]. destruct (decide (start = k)) as [->|Hne].
  - rewrite filter_cons_True by (apply HP; [lia|done]).
    f_equal. apply filter_seq_none. intros i Hi HPi.
    apply HP in HPi; lia.
  - rewrite filter_cons_False by (intros HPs; apply HP in HPs; lia).
    apply IH; [|lia]. intros i Hi. apply HP. lia.
Qed.

Lemma where_eq_in_table (s : Z) :
  (1 <= s <= 39)%Z → where_eq cls_sectors s = [Z.to_nat (s - 1)].
Proof.
  intros Hs. unfold where_eq, range, cls_sectors.
  rewrite length_fmap, length_seq.
  apply filter_seq_one; [|lia]. intros i Hi.
  rewrite list_lookup_fmap, lookup_seq_lt by lia. simpl.
  split; [intros [= <-]; lia|intros ->; f_equal; lia].
Qed.

Lemma take_idx_one {A} (a : list A) (k : nat) (x : A) :
  a !! k = Some x → take_idx a [k] = [x].
Proof. intros H. unfold take_idx. simpl. by rewrite H. Qed.

Lemma setitem2_total {A} (n m : nat) (a : list (list A)) (i j : nat) (x : A) :
  shape2 n m a → (i < n)%nat → (j < m)%nat →
  ∃ a', np.setitem2 a i j x = Ok a' ∧ shape2 n m a'.
Proof.
  intros Ha Hi Hj.
  destruct (lookup_shape2 n m a i Ha Hi) as (row & Hrow & Hl).
  unfold np.setitem2, np.getitem, np.setitem. rewrite Hrow. cbn [mbind result_bind].
  rewrite decide_True by lia. cbn [mbind result_bind].
  destruct Ha as [Hn Hf].
  rewrite decide_True by lia.
  eexists. split; [reflexivity|]. split; [by rewrite length_insert|].
  apply Forall_insert; [done|]. by rewrite length_insert.
Qed.

Lemma fold_result_total_inv {A B} (P : B → Prop) (body : B → A → result B)
    (xs : list A) (acc : B) :
  (∀ b x, x ∈ xs → P b → ∃ b', body b x = Ok b' ∧ P b') →
  P acc → ∃ r, fold_result body xs acc = Ok r ∧ P r.
Proof.
  revert acc. induction xs as [|x xs IH]; intros acc H Hacc; [by exists acc|].
  cbn [fold_result].
  destruct (H acc x) as (b' & -> & Hb'); [by left|done|]. cbn [mbind result_bind].
  apply IH; [|done]. intros b y Hy. apply H. by right.
Qed.

(** The loop that fills [camRa] and [camDec]. *)
Lemma camera_coordinates_total (ras decs rolls : list np.float64) (n : nat) :
  length ras = n → length decs = n → length rolls = n →
  ∃ camRa camDec : list (list np.float64),
    fold_result (λ '(camRa, camDec) iPnt,
        curra ← np.getitem ras iPnt;
        curdec ← np.getitem decs iPnt;
        curroll ← np.getitem rolls iPnt;
        let camposangs :=
          [(180 - curroll)%f; (180 - curroll)%f; (360 - curroll)%f; (360 - curroll)%f] in
        let camposangs := (λ a, np.mod_ a 360) <$> camposangs in
        fold_result (λ '(camRa, camDec) iCam,
            pang ← np.getitem camposangs iCam;
            sep ← np.getitem cls_camSeps iCam;
            let '(camra, camdec) := get_radec_from_posangsep curra curdec pang sep in
            camRa ← np.setitem2 camRa iCam iPnt camra;
            camDec ← np.setitem2 camDec iCam iPnt camdec;
            mret (camRa, camDec))
          (range 4) (camRa, camDec))
      (range n) (np.zeros2 4 n, np.zeros2 4 n) = Ok (camRa, camDec) ∧
    shape2 4 n camRa ∧ shape2 4 n camDec.
Proof.
  intros Hr Hd Hl.
  match goal with |- ∃ _ _, fold_result ?f ?xs ?acc = _ ∧ _ =>
    destruct (fold_result_total_inv
                (λ p : list (list np.float64) * list (list np.float64),
                   shape2 4 n p.1 ∧ shape2 4 n p.2) f xs acc)
      as ([camRa camDec] & H & Hs)
  end.
  - intros [camRa camDec] iPnt Hi [Ha Hb]. simpl in Ha, Hb.
    apply elem_of_seq in Hi as [_ Hi]. simpl in Hi.
    destruct (lookup_lt_is_Some_2 ras iPnt) as [curra Hra]; [lia|].
    destruct (lookup_lt_is_Some_2 decs iPnt) as [curdec Hdec]; [lia|].
    destruct (lookup_lt_is_Some_2 rolls iPnt) as [curroll Hroll]; [lia|].
    cbv beta iota.
    assert (np.getitem ras iPnt = Ok curra) as ->
      by (unfold np.getitem; by rewrite Hra).
    assert (np.getitem decs iPnt = Ok curdec) as ->
      by (unfold np.getitem; by rewrite Hdec).
    assert (np.getitem rolls iPnt = Ok curroll) as ->
      by (unfold np.getitem; by rewrite Hroll).
    cbn [mbind result_bind]. cbv zeta.
    apply fold_result_total_inv; [|done].
    intros [cRa cDec] iCam Hc [Ha' Hb']. simpl in Ha', Hb'.
    apply elem_of_seq in Hc as [_ Hc]. simpl in Hc.
    cbv beta iota.
    match goal with |- context [np.getitem ?l iCam ≫= _] =>
      destruct (lookup_lt_is_Some_2 l iCam) as [pang Hpang]; [simpl; lia|];
      assert (np.getitem l iCam = Ok pang) as ->
        by (unfold np.getitem; by rewrite Hpang)
    end.
    cbn [mbind result_bind].
    destruct (lookup_lt_is_Some_2 cls_camSeps iCam) as [sep Hsep]; [simpl; lia|].
    assert (np.getitem cls_camSeps iCam = Ok sep) as ->
      by (unfold np.getitem; by rewrite Hsep).
    cbn [mbind result_bind].
    destruct (get_radec_from_posangsep curra curdec pang sep) as [camra camdec].
    destruct (setitem2_total 4 n cRa iCam iPnt camra Ha' Hc Hi) as (cRa' & -> & Ha'').
    cbn [mbind result_bind].
    destruct (setitem2_total 4 n cDec iCam iPnt camdec Hb' Hc Hi) as (cDec' & -> & Hb'').
    cbn [mbind result_bind]. by eexists.
  - simpl. unfold np.zeros2, np.zeros.
    split; (split; [by rewrite length_replicate|]);
      apply Forall_replicate; by rewrite length_replicate.
  - exists camRa, camDec. by destruct Hs.
Qed.

Lemma finite_lookup (a : list np.float64) (k : nat) :
  Forall finite a → (k < length a)%nat → ∃ r : R, a !! k = Some (np.Fin r).
Proof.
  intros Ha Hk. destruct (lookup_lt_is_Some_2 a k Hk) as [x Hx].
  rewrite Forall_lookup in Ha. destruct (Ha k x Hx) as [r ->]. by exists r.
Qed.

Lemma lift_run {A} (r : result A) (a : A) (w : World) :
  r = Ok a → lift r w = (Ok a, w).
Proof. by intros ->. Qed.

(** The loop that builds one model per pointing. *)
Lemma models_total (fl : option (list string)) (f0 f1 f2 f3 : string)
    (o : Levine_FPG) (ras decs rolls : list np.float64) (n k : nat)
    (acc : list nat) (w : World) :
  take 4 (default default_fpg_file_list fl) = [f0; f1; f2; f3] →
  hard_coded_fpg = Some o →
  Forall finite ras → Forall finite decs → Forall finite rolls →
  (k + n <= length ras)%nat → (k + n <= length decs)%nat →
  (k + n <= length rolls)%nat →
  (∀ f rows, f ∈ [f0; f1; f2; f3] → files w !! f ≠ Some (Some rows)) →
  length (parm_dict_list w) = 4%nat →
  ∃ w' objs,
    fold_M (λ fpgObjs iPnt,
        r ← lift (np.getitem ras iPnt);
        d ← lift (np.getitem decs iPnt);
        l ← lift (np.getitem rolls iPnt);
        let sc_ra_dec_roll := [r; d; l] in
        obj ← Levine_FPG_init (Some sc_ra_dec_roll) fl;
        mret (fpgObjs ++ [obj]))
      (seq k n) acc w = (Ok (acc ++ seq (length (heap w)) n), w') ∧
    heap w' = heap w ++ objs ∧ length objs = n ∧
    Forall (λ o2, havePointing o2 = true ∧ same_geometry o o2) objs.
Proof.
  intros Hn Ho Hra Hde Hro. revert k acc w.
  induction n as [|n IH]; intros k acc w Hk1 Hk2 Hk3 Hf Hl.
  - exists w, []. cbn [seq fold_M]. rewrite !app_nil_r. by repeat split.
  - cbn [seq fold_M].
    destruct (finite_lookup ras k Hra ltac:(lia)) as [r Hr].
    destruct (finite_lookup decs k Hde ltac:(lia)) as [d Hd].
    destruct (finite_lookup rolls k Hro ltac:(lia)) as [l Hl'].
    destruct (Levine_FPG_init_pointed w fl f0 f1 f2 f3 o r d l Hn Hf Hl Ho)
      as (o2 & Hinit & Hp & Hg & _).
    match type of Hinit with _ = (_, ?w1) => set (w1' := w1) in * end.
    destruct (IH (S k) (acc ++ [length (heap w)]) w1')
      as (w' & objs & Hrun & Hheap & Hlen & Hall); try lia.
    { done. }
    { subst w1'. cbn [parm_dict_list]. by rewrite hard_coded_tables_eq. }
    exists w', (o2 :: objs).
    split; [|split; [|split]].
    + etrans.
      { apply (bind_run _ _ w w1' (acc ++ [length (heap w)])).
        cbv beta.
        rewrite (bind_run _ _ w w (np.Fin r))
          by (apply lift_run; unfold np.getitem; by rewrite Hr).
        rewrite (bind_run _ _ w w (np.Fin d))
          by (apply lift_run; unfold np.getitem; by rewrite Hd).
        rewrite (bind_run _ _ w w (np.Fin l))
          by (apply lift_run; unfold np.getitem; by rewrite Hl').
        cbv zeta.
        exact (bind_run (Levine_FPG_init (Some [np.Fin r; np.Fin d; np.Fin l]) fl)
                 (λ obj, mret (acc ++ [obj])) w w1' _ Hinit). }
      etrans; [exact Hrun|].
      f_equal. f_equal. subst w1'. cbn [heap].
      rewrite length_app. cbn [length seq].
      rewrite <- app_assoc. cbn [app]. do 3 f_equal. lia.
    + rewrite Hheap. subst w1'. cbn [heap]. by rewrite <- app_assoc.
    + simpl. by rewrite Hlen.
    + constructor; [split; assumption|assumption].
Qed.

(** [__init__] of the pointing catalogue once the rows are selected. *)
Lemma pointing_data_build (w : World) (fl : option (list string))
    (f0 f1 f2 f3 : string) (o : Levine_FPG)
    (sectors0 : list Z) (ras0 decs0 rolls0 : list np.float64) :
  take 4 (default default_fpg_file_list fl) = [f0; f1; f2; f3] →
  (∀ f rows, f ∈ [f0; f1; f2; f3] → files w !! f ≠ Some (Some rows)) →
  length (parm_dict_list w) = 4%nat →
  hard_coded_fpg = Some o →
  Forall finite ras0 → Forall finite decs0 → Forall finite rolls0 →
  length ras0 = length sectors0 → length decs0 = length sectors0 →
  length rolls0 = length sectors0 →
  ∃ c w' objs,
    (let nPoints := length sectors0 in
     let camRa := np.zeros2 4 nPoints in
     let camDec := np.zeros2 4 nPoints in
     '(camRa, camDec) ← lift (fold_result (λ '(camRa, camDec) iPnt,
         curra ← np.getitem ras0 iPnt;
         curdec ← np.getitem decs0 iPnt;
         curroll ← np.getitem rolls0 iPnt;
         let camposangs :=
           [(180 - curroll)%f; (180 - curroll)%f; (360 - curroll)%f; (360 - curroll)%f] in
         let camposangs := (λ a, np.mod_ a 360) <$> camposangs in
         fold_result (λ '(camRa, camDec) iCam,
             pang ← np.getitem camposangs iCam;
             sep ← np.getitem cls_camSeps iCam;
             let '(camra, camdec) := get_radec_from_posangsep curra curdec pang sep in
             camRa ← np.setitem2 camRa iCam iPnt camra;
             camDec ← np.setitem2 camDec iCam iPnt camdec;
             mret (camRa, camDec))
           (range 4) (camRa, camDec))
       (range nPoints) (camRa, camDec));
     let fpgObjs := [] in
     let fpg_file_list := fl in
     fpgObjs ← fold_M (λ fpgObjs iPnt,
         r ← lift (np.getitem ras0 iPnt);
         d ← lift (np.getitem decs0 iPnt);
         l ← lift (np.getitem rolls0 iPnt);
         let sc_ra_dec_roll := [r; d; l] in
         obj ← Levine_FPG_init (Some sc_ra_dec_roll) fpg_file_list;
         mret (fpgObjs ++ [obj]))
       (range nPoints) fpgObjs;
     mret {| sectors := sectors0; ras := ras0; decs := decs0; rolls := rolls0;
             camRa := camRa; camDec := camDec; fpgObjs := fpgObjs |}) w
    = (Ok c, w') ∧
    sectors c = sectors0 ∧ ras c = ras0 ∧ decs c = decs0 ∧ rolls c = rolls0 ∧
    shape2 4 (length sectors0) (camRa c) ∧ shape2 4 (length sectors0) (camDec c) ∧
    fpgObjs c = seq (length (heap w)) (length sectors0) ∧
    heap w' = heap w ++ objs ∧ length objs = length sectors0 ∧
    Forall (λ o2, havePointing o2 = true ∧ same_geometry o o2) objs.
Proof.
  intros Hn Hf Hl Ho Hra Hde Hro Hlr Hld Hll.
  destruct (camera_coordinates_total ras0 decs0 rolls0 (length sectors0) Hlr Hld Hll)
    as (cRa & cDec & Hcam & HsRa & HsDec).
  destruct (models_total fl f0 f1 f2 f3 o ras0 decs0 rolls0 (length sectors0) 0 [] w
              Hn Ho Hra Hde Hro ltac:(lia) ltac:(lia) ltac:(lia) Hf Hl)
    as (w' & objs & Hrun & Hheap & Hlen & Hall).
  eexists _, w', objs. split.
  - cbv zeta.
    etrans; [apply (bind_run _ _ w w (cRa, cDec)); apply lift_run; exact Hcam|].
    cbv beta iota.
    etrans; [apply (bind_run _ _ w w' _ Hrun)|]. reflexivity.
  - cbn [sectors ras decs rolls camRa camDec fpgObjs app].
    split; [reflexivity|]. split; [reflexivity|]. split; [reflexivity|].
    split; [reflexivity|]. split; [exact HsRa|]. split; [exact HsDec|].
    split; [reflexivity|]. split; [exact Hheap|]. split; [exact Hlen|exact Hall].
Qed.

(** X14: constructing the pointing catalogue for a sector of the table
    (1 to 39), or for all sectors, with no readable parameter file, does not
    raise; it keeps exactly the requested rows, fills [camRa] and [camDec]
    with four values per kept sector, and builds one model per kept sector,
    at consecutive new addresses, each with its pointing set and the
    hard-coded geometry. *)
Theorem TESS_Spacecraft_Pointing_Data_init_models (w : World) (trySector : option Z)
    (fl : option (list string)) (f0 f1 f2 f3 : string) (o : Levine_FPG) :
  take 4 (default default_fpg_file_list fl) = [f0; f1; f2; f3] →
  (∀ f rows, f ∈ [f0; f1; f2; f3] → files w !! f ≠ Some (Some rows)) →
  length (parm_dict_list w) = 4%nat →
  hard_coded_fpg = Some o →
  match trySector with Some s => (1 <= s <= 39)%Z | None => True end →
  let kept := match trySector with Some s => [s] | None => cls_sectors end in
  ∃ c w' objs,
    TESS_Spacecraft_Pointing_Data_init trySector fl w = (Ok c, w') ∧
    sectors c = kept ∧
    length (ras c) = length kept ∧ length (decs c) = length kept ∧
    length (rolls c) = length kept ∧
    shape2 4 (length kept) (camRa c) ∧ shape2 4 (length kept) (camDec c) ∧
    fpgObjs c = seq (length (heap w)) (length kept) ∧
    heap w' = heap w ++ objs ∧ length objs = length kept ∧
    Forall (λ o2, havePointing o2 = true ∧ same_geometry o o2) objs.
Proof.
  intros Hn Hf Hl Ho Hs kept.
  assert (Forall finite cls_ras ∧ Forall finite cls_decs ∧ Forall finite cls_rolls)
    as (Fra & Fde & Fro).
  { unfold cls_ras, cls_decs, cls_rolls.
    repeat split; apply Forall_fmap, Forall_forall; intros x _; eexists; reflexivity. }
  assert (length cls_ras = 39%nat ∧ length cls_decs = 39%nat ∧
          length cls_rolls = 39%nat ∧ length cls_sectors = 39%nat)
    as (Lra & Lde & Lro & Lse) by (vm_compute; repeat split; reflexivity).
  unfold TESS_Spacecraft_Pointing_Data_init.
  destruct trySector as [s|].
  - rewrite (where_eq_in_table s Hs).
    set (k := Z.to_nat (s - 1)).
    assert (k < 39)%nat as Hk by (unfold k; lia).
    assert (cls_sectors !! k = Some s) as Hsec.
    { unfold cls_sectors. rewrite list_lookup_fmap, lookup_seq_lt by lia.
      simpl. f_equal. unfold k. lia. }
    destruct (finite_lookup cls_ras k Fra ltac:(lia)) as [r Hr].
    destruct (finite_lookup cls_decs k Fde ltac:(lia)) as [d Hd].
    destruct (finite_lookup cls_rolls k Fro ltac:(lia)) as [l Hl'].
    rewrite (take_idx_one _ _ _ Hsec), (take_idx_one _ _ _ Hr),
      (take_idx_one _ _ _ Hd), (take_idx_one _ _ _ Hl').
    assert (∀ x : R, Forall finite [np.Fin x]) as Fone.
    { intros x. apply Forall_singleton. eexists. reflexivity. }
    destruct (pointing_data_build w fl f0 f1 f2 f3 o [s] [np.Fin r] [np.Fin d]
                [np.Fin l] Hn Hf Hl Ho (Fone r) (Fone d) (Fone l)
                eq_refl eq_refl eq_refl)
      as (c & w' & objs & Hrun & H1 & H2 & H3 & H4 & H5 & H6 & H7 & H8 & H9 & H10).
    exists c, w', objs. split; [exact Hrun|].
    subst kept. rewrite H2, H3, H4.
    repeat (split; [first [assumption|reflexivity]|]). assumption.
  - destruct (pointing_data_build w fl f0 f1 f2 f3 o cls_sectors cls_ras cls_decs
                cls_rolls Hn Hf Hl Ho Fra Fde Fro)
      as (c & w' & objs & Hrun & H1 & H2 & H3 & H4 & H5 & H6 & H7 & H8 & H9 & H10);
      try congruence.
    exists c, w', objs. split; [exact Hrun|].
    subst kept. rewrite H2, H3, H4, Lra, Lde, Lro, Lse in *.
    repeat (split; [first [assumption|reflexivity]|]). assumption.
Qed.

Lemma TESS_Spacecraft_Pointing_Data_init_models_witness :
  ∃ o, hard_coded_fpg = Some o ∧
  ∃ c w' objs,
    TESS_Spacecraft_Pointing_Data_init (Some 5%Z) None (world_one ∅) = (Ok c, w') ∧
    sectors c = [5%Z] ∧
    length (ras c) = 1%nat ∧ length (decs c) = 1%nat ∧ length (rolls c) = 1%nat ∧
    shape2 4 1 (camRa c) ∧ shape2 4 1 (camDec c) ∧
    fpgObjs c = seq (length (heap (world_one ∅))) 1 ∧
    heap w' = heap (world_one ∅) ++ objs ∧ length objs = 1%nat ∧
    Forall (λ o2, havePointing o2 = true ∧ same_geometry o o2) objs.
Proof.
  destruct world_one_empty as (Hf & Hl & _).
  eexists. split; [vm_compute; reflexivity|].
  apply (TESS_Spacecraft_Pointing_Data_init_models (world_one ∅) (Some 5%Z) None
           "fpg_pars.txt-" "fpg_pars.txt-" "fpg_pars.txt-" "fpg_pars.txt-");
    [reflexivity| |exact Hl|vm_compute; reflexivity|lia].
  intros f rows _. rewrite Hf, lookup_empty. discriminate.
Defined.
